(** * clean.py: the contact-list cleaning pipeline

    A shallow embedding of [clean_data] (src/clean.py), of the closures it
    defines ([is_valid_email], [clean_name], [clean_address]) and of the
    script that calls it, followed by the properties of the pipeline.

    Modelling conventions.
    - Text is a list of characters ([ascii]).  The Python string methods used
      by the source ([lower], [strip], [split], [join], [capitalize], [in])
      are given their meaning on 7-bit text, where they agree with Python.
      Above code 127 Python folds case and trims by the Unicode tables, which
      are not embedded: the statements that depend on the case or the white
      space of a text assume it is 7-bit ([seven_bit]).
    - The regular expressions of the source are kept as data ([regex]) and run
      by a backtracking matcher that explores alternatives in the order of
      Python's [re] (greedy repetitions, longest first).
    - A pandas cell is [NaN], a string or an integer; a column carries its
      dtype.  [str] renders an [Int] cell as Python renders an integer; the
      numbers of a float64 column are carried as [Int] cells too, and the
      statements that render a number assume its column is not float64
      ([typed]).  The frame read from the file keeps its rows as lists of
      cells under the header, with the row labels [read_csv] gave them; the
      frame of the four required columns keeps them as records.
    - Selecting rows by a boolean mask ([df[mask]]) keeps the rows where the
      mask is true and all the columns.  The mask [apply] returns for a frame
      without rows is not boolean: pandas reads it as a list of column
      labels, an empty one, and the selection has no column.
    - Console output, file writes and the error log are events of a writer
      monad that also carries the raised exception; the file system, the CSV
      reader and the clock are a [World] the run is given. *)

From Stdlib Require Import List Ascii String ZArith Lia Bool Arith DecimalString.
Import ListNotations.
Open Scope string_scope.
Open Scope list_scope.
Open Scope nat_scope.

(** ** Text *)

Definition text := list ascii.

Coercion list_ascii_of_string : string >-> list.

Definition text_eqb (a b : text) : bool :=
  if list_eq_dec ascii_dec a b then true else false.

Definition code (c : ascii) : nat := nat_of_ascii c.

Definition in_range (lo hi : nat) (c : ascii) : bool :=
  (lo <=? code c) && (code c <=? hi).

(** [str.isspace] on one character: TAB, LF, VT, FF, CR, the four separators
    0x1c-0x1f and the space.  [\s] of [re] agrees with it. *)
Definition isspace (c : ascii) : bool := in_range 9 13 c || in_range 28 32 c.

Definition isupper (c : ascii) : bool := in_range 65 90 c.
Definition islower (c : ascii) : bool := in_range 97 122 c.
Definition isdigit (c : ascii) : bool := in_range 48 57 c.
Definition isalpha (c : ascii) : bool := isupper c || islower c.

Definition lower_char (c : ascii) : ascii :=
  if isupper c then ascii_of_nat (code c + 32) else c.

Definition upper_char (c : ascii) : ascii :=
  if islower c then ascii_of_nat (code c - 32) else c.

(** [s.lower()] *)
Definition lower (s : text) : text := map lower_char s.

(** [s.lstrip()], [s.rstrip()], [s.strip()] *)
Fixpoint lstrip (s : text) : text :=
  match s with
  | c :: t => if isspace c then lstrip t else s
  | [] => []
  end.

Definition rstrip (s : text) : text := rev (lstrip (rev s)).

Definition strip (s : text) : text := rstrip (lstrip s).

(** [s.split()]: the maximal runs of characters that are not white space. *)
Definition cons_head (c : ascii) (ws : list text) : list text :=
  match ws with
  | w :: ws' => (c :: w) :: ws'
  | [] => [[c]]
  end.

Fixpoint split (s : text) : list text :=
  match s with
  | [] => []
  | c :: t =>
      if isspace c then split t
      else match t with
           | d :: _ => if isspace d then [c] :: split t else cons_head c (split t)
           | [] => [[c]]
           end
  end.

(** [sep.join(ws)] *)
Fixpoint join (sep : text) (ws : list text) : text :=
  match ws with
  | [] => []
  | [w] => w
  | w :: ws' => w ++ sep ++ join sep ws'
  end.

(** [w.capitalize()] *)
Definition capitalize (w : text) : text :=
  match w with
  | c :: t => upper_char c :: lower t
  | [] => []
  end.

(** [p in s] for strings *)
Fixpoint startswith (p s : text) : bool :=
  match p, s with
  | [], _ => true
  | a :: p', b :: s' => Ascii.eqb a b && startswith p' s'
  | _ :: _, [] => false
  end.

Fixpoint contains (p s : text) : bool :=
  startswith p s ||
  match s with
  | [] => false
  | _ :: t => contains p t
  end.

(** ** Regular expressions

    Every quantifier of the four patterns of clean.py applies to a single
    character class, so a pattern is a sequence of items: one character of a
    class, or at least [n] characters of a class (greedy). *)

Inductive item :=
| One (cls : ascii -> bool)
| AtLeast (n : nat) (cls : ascii -> bool).

Definition regex := list item.

(** The remainders left by a greedy [cls*], the longest run first. *)
Fixpoint star_rests (cls : ascii -> bool) (s : text) : list text :=
  match s with
  | c :: t => if cls c then star_rests cls t ++ [s] else [s]
  | [] => [[]]
  end.

Fixpoint repeat_rests (n : nat) (cls : ascii -> bool) (s : text) : list text :=
  match n with
  | 0 => star_rests cls s
  | S m => match s with
           | c :: t => if cls c then repeat_rests m cls t else []
           | [] => []
           end
  end.

Definition item_rests (i : item) (s : text) : list text :=
  match i with
  | One cls => match s with
               | c :: t => if cls c then [t] else []
               | [] => []
               end
  | AtLeast n cls => repeat_rests n cls s
  end.

(** All the ways [r] matches a prefix of [s], as the text left over, in the
    order in which the backtracking search of [re] tries them. *)
Fixpoint rests (r : regex) (s : text) : list text :=
  match r with
  | [] => [s]
  | i :: r' => flat_map (rests r') (item_rests i s)
  end.

(** [$] without MULTILINE: at the end, or before a final newline. *)
Definition at_dollar (rest : text) : bool :=
  match rest with
  | [] => true
  | [c] => Ascii.eqb c "010"
  | _ => false
  end.

(** [bool(re.compile('^' r '$').match(s))] *)
Definition re_match (r : regex) (s : text) : bool := existsb at_dollar (rests r s).

(** [re.sub(r, repl, s)] for a pattern that matches no empty text: at each
    position the first match is replaced and the scan resumes after it;
    where nothing matches the character is copied. *)
Fixpoint re_sub_from (fuel : nat) (r : regex) (repl s : text) : text :=
  match fuel, s with
  | _, [] => []
  | 0, _ => s
  | S fuel', c :: t =>
      match rests r s with
      | rest :: _ =>
          if List.length rest <? List.length s
          then repl ++ re_sub_from fuel' r repl rest
          else c :: re_sub_from fuel' r repl t
      | [] => c :: re_sub_from fuel' r repl t
      end
  end.

Definition re_sub (r : regex) (repl s : text) : text :=
  re_sub_from (List.length s) r repl s.

Definition is_char (a : ascii) (c : ascii) : bool := Ascii.eqb c a.

Definition one_of (s : text) (c : ascii) : bool :=
  existsb (Ascii.eqb c) s.

(** [[a-zA-Z0-9._%+-]], [[a-zA-Z0-9.-]], [[a-zA-Z]] *)
Definition local_class (c : ascii) : bool :=
  islower c || isupper c || isdigit c || one_of "._%+-" c.

Definition domain_class (c : ascii) : bool :=
  islower c || isupper c || isdigit c || one_of ".-" c.

Definition letter_class (c : ascii) : bool := islower c || isupper c.

(** [r'^[a-zA-Z0-9._%+-]+@[a-zA-Z0-9.-]+\.[a-zA-Z]{2,}$'] *)
Definition email_pattern : regex :=
  [AtLeast 1 local_class; One (is_char "@"); AtLeast 1 domain_class;
   One (is_char "."); AtLeast 2 letter_class].

(** [r'\s+'], [r'\s*,\s*'], [r',+'] *)
Definition spaces_re : regex := [AtLeast 1 isspace].

Definition comma_spacing_re : regex :=
  [AtLeast 0 isspace; One (is_char ","); AtLeast 0 isspace].

Definition commas_re : regex := [AtLeast 1 (is_char ",")].

(** ** Cells *)

Inductive cell :=
| NaN
| Str (s : text)
| Int (z : Z).

Inductive dtype := object | int64 | float64.

Definition dtype_eqb (a b : dtype) : bool :=
  match a, b with
  | object, object | int64, int64 | float64, float64 => true
  | _, _ => false
  end.

Definition cell_eq_dec (a b : cell) : {a = b} + {a <> b}.
Proof.
  decide equality.
  - apply (list_eq_dec ascii_dec).
  - apply Z.eq_dec.
Defined.

Definition cell_eqb (a b : cell) : bool := if cell_eq_dec a b then true else false.

(** [str(x)] *)
Definition str (x : cell) : text :=
  match x with
  | NaN => "nan"
  | Str s => s
  | Int z => NilZero.string_of_int (Z.to_int z)
  end.

(** [pd.isna(x)] *)
Definition isna (x : cell) : bool :=
  match x with
  | NaN => true
  | _ => false
  end.

(** [x == 'nan'] *)
Definition is_nan_text (x : cell) : bool :=
  match x with
  | Str s => text_eqb s "nan"
  | _ => false
  end.

(** [not x]: the empty string and the number zero are false; NaN is true. *)
Definition falsy (x : cell) : bool :=
  match x with
  | NaN => false
  | Str s => match s with [] => true | _ => false end
  | Int z => (z =? 0)%Z
  end.

(** [pd.isna(x) or x == 'nan' or not x], the guard that opens the three
    closures. *)
Definition is_missing (x : cell) : bool := isna x || is_nan_text x || falsy x.

(** ** Tables *)

(** What [pd.read_csv] returns: the header, one dtype per column, the data
    rows and their labels.  A row shorter than the header reads as NaN on
    its right.  Where the data rows of the file have one field more than the
    header, [read_csv] takes the first field of each row for its label, and
    [index] lists these labels; otherwise [index] is empty and the rows are
    labelled 0, 1, ... by position. *)
Record DataFrame := {
  columns : list text;
  dtypes : list dtype;
  index : list cell;
  data : list (list cell)
}.

Record Series := {
  dtype_of : dtype;
  values : list cell
}.

(** One record of [df_cleaned] with its row label. *)
Record Row := {
  idx : cell;
  name : cell;
  email : cell;
  phone : cell;
  address : cell
}.

(** [df_cleaned]: the labels selected by [df[required_columns]], the dtype of
    the four fields and the rows. *)
Record Frame := {
  labels : list text;
  name_dtype : dtype;
  email_dtype : dtype;
  phone_dtype : dtype;
  address_dtype : dtype;
  rows : list Row
}.

Definition with_rows (fr : Frame) (rs : list Row) : Frame :=
  {| labels := labels fr;
     name_dtype := name_dtype fr; email_dtype := email_dtype fr;
     phone_dtype := phone_dtype fr; address_dtype := address_dtype fr;
     rows := rs |}.

(** ** Exceptions, events and the monad of the pipeline *)

Inductive exn :=
| FileNotFoundError (file : text)
| MissingColumnsError (missing : list text)
| KeyError (label : text)
| TypeError
| AttributeError
| ValueError
| UnboundLocalError (variable : text)
| PermissionError
| OSError
| ZeroDivisionError
| ParserError.

Inductive outcome (A : Type) :=
| Return (a : A)
| Raise (e : exn).

Arguments Return {A} a.
Arguments Raise {A} e.

(** One constructor per [print] of the source, holding the values it
    interpolates. *)
Inductive message :=
| Loaded (n : nat) (file : text)
| ColumnsFound (cols : list text)
| DiagnosticHeader
| DiagnosticEmail (i : cell) (e : cell)
| InvalidEmail (e : text)
| EmailStats (valid total : nat)
| FoundInvalid (n : nat)
| InvalidRow (i : cell) (n e : cell)
| AndMore (n : nat)
| RemovedEmpty (dropped : nat) (col : text)
| FoundDuplicates (n : nat)
| PreviewHeader
| PreviewRow (i : cell) (n e : cell)
| Saved (path : text)
| SavedInstead (path : text)
| SummaryHeader
| SummaryCounts (original cleaned : nat)
| SummaryRemoved (removed original : nat)
| NotesHeader
| Note (n : text)
| ErrorProcessing (file : text) (e : exn).

Inductive event :=
| Print (m : message)
| WriteCsv (path : text) (table : Frame)
| WriteDenied (path : text) (e : exn)
| AppendLog (file : text) (e : exn).

(** The surroundings of one run: the file system, the CSV reader and the
    clock.  [to_csv] tells what refuses the write to a path, and
    [append_log] what refuses to open the error log for appending, if
    anything does. *)
Record World := {
  path_exists : text -> bool;
  read_csv : text -> outcome DataFrame;
  stem : text -> text;
  now : text;
  to_csv : text -> option exn;
  append_log : option exn
}.

Definition M (A : Type) : Type := (list event * outcome A)%type.

Definition ret {A} (a : A) : M A := ([], Return a).

Definition bind {A B} (m : M A) (k : A -> M B) : M B :=
  match m with
  | (out, Return a) => let (out', r) := k a in (out ++ out', r)
  | (out, Raise e) => (out, Raise e)
  end.

Definition raise {A} (e : exn) : M A := ([], Raise e).

Definition tell (ev : event) : M unit := ([ev], Return tt).

Definition print (m : message) : M unit := tell (Print m).

Definition try_except {A} (m : M A) (handler : exn -> M A) : M A :=
  match m with
  | (out, Raise e) => let (out', r) := handler e in (out ++ out', r)
  | _ => m
  end.

Definition when (b : bool) (m : M unit) : M unit := if b then m else ret tt.

Notation "x <- m ;; k" := (bind m (fun x => k))
  (at level 61, m at next level, right associativity).
Notation "m ;; k" := (bind m (fun _ => k))
  (at level 61, right associativity).

Fixpoint for_each {A} (l : list A) (body : A -> M unit) : M unit :=
  match l with
  | [] => ret tt
  | x :: t => body x ;; for_each t body
  end.

(** [series.apply(f)] for a closure that may print. *)
Fixpoint apply_each {A B} (f : A -> M B) (l : list A) : M (list B) :=
  match l with
  | [] => ret []
  | x :: t => y <- f x ;; ys <- apply_each f t ;; ret (y :: ys)
  end.

Definition console {A} (m : M A) : list event := fst m.
Definition result {A} (m : M A) : outcome A := snd m.

(** ** Column reconciler (lines 40-74) *)

Definition column_renames : list (text * text) :=
  [ ("emial" : text, "email" : text);
    ("e-mail" : text, "email" : text);
    ("emai;" : text, "email" : text);
    ("mobile" : text, "phone" : text);
    ("phone number" : text, "phone" : text);
    ("cell" : text, "phone" : text);
    ("full name" : text, "name" : text);
    ("contact name" : text, "name" : text);
    ("links" : text, "name" : text);
    ("link" : text, "name" : text);
    ("name" : text, "name" : text);
    ("full address" : text, "address" : text);
    ("location" : text, "address" : text) ].

Definition required_columns : list text :=
  [ "name" : text; "email" : text; "phone" : text; "address" : text ].

Fixpoint dict_get (d : list (text * text)) (k : text) : option text :=
  match d with
  | [] => None
  | (k', v) :: d' => if text_eqb k' k then Some v else dict_get d' k
  end.

(** One label under [df.rename(columns=mapper)] *)
Definition rename (mapper : list (text * text)) (col : text) : text :=
  match dict_get mapper col with
  | Some v => v
  | None => col
  end.

(** [col in cols] *)
Definition mem (col : text) (cols : list text) : bool := existsb (text_eqb col) cols.

(** [l.remove(x)]: the first occurrence goes. *)
Fixpoint remove_first (x : text) (l : list text) : list text :=
  match l with
  | [] => []
  | y :: t => if text_eqb y x then t else y :: remove_first x t
  end.

Fixpoint positions_from (j : nat) (label : text) (cols : list text) : list nat :=
  match cols with
  | [] => []
  | c :: cs =>
      (if text_eqb c label then [j] else []) ++ positions_from (S j) label cs
  end.

Definition positions (label : text) (cols : list text) : list nat :=
  positions_from 0 label cols.

Definition len (df : DataFrame) : nat := List.length (data df).

Definition width (df : DataFrame) : nat := List.length (columns df).

Definition cell_at (j : nat) (r : list cell) : cell := nth j r NaN.

Definition column_at (df : DataFrame) (j : nat) : Series :=
  {| dtype_of := nth j (dtypes df) object;
     values := map (cell_at j) (data df) |}.

(** [df[label]] where a Series is expected.  Under a label that two columns
    share pandas hands back a DataFrame, and the arithmetic and assignment
    of line 67 then fail; that failure is raised here. *)
Definition getitem (df : DataFrame) (label : text) : M Series :=
  match positions label (columns df) with
  | [j] => ret (column_at df j)
  | [] => raise (KeyError label)
  | _ => raise ValueError
  end.

(** [x + y] on two cells of object columns: NaN where either is missing. *)
Definition add_cells (x y : cell) : M cell :=
  match x, y with
  | NaN, _ | _, NaN => ret NaN
  | Str a, Str b => ret (Str (a ++ b))
  | Int a, Int b => ret (Int (a + b))
  | _, _ => raise TypeError
  end.

(** [series + ' ']: a numeric column refuses a string operand. *)
Definition add_scalar (a : Series) (s : text) : M Series :=
  if dtype_eqb (dtype_of a) object
  then vs <- apply_each (fun x => add_cells x (Str s)) (values a) ;;
       ret {| dtype_of := object; values := vs |}
  else raise TypeError.

(** [a + b] for an object Series [a] *)
Definition add_series (a b : Series) : M Series :=
  vs <- apply_each (fun xy => add_cells (fst xy) (snd xy)) (combine (values a) (values b)) ;;
  ret {| dtype_of := object; values := vs |}.

(** [df[label] = series] for a label the frame does not have yet: a new
    last column. *)
Definition setitem_new (df : DataFrame) (label : text) (s : Series) : DataFrame :=
  {| columns := columns df ++ [label];
     index := index df;
     dtypes := map (fun j => nth j (dtypes df) object) (seq 0 (width df)) ++ [dtype_of s];
     data := map (fun rc => map (fun j => cell_at j (fst rc)) (seq 0 (width df)) ++ [snd rc])
                 (combine (data df) (values s)) |}.

Definition with_columns (df : DataFrame) (cols : list text) : DataFrame :=
  {| columns := cols; dtypes := dtypes df; index := index df; data := data df |}.

Definition nonempty {A} (l : list A) : bool :=
  match l with
  | [] => false
  | _ => true
  end.

(** Line 67, [df['first_name'] + ' ' + df['last_name']] *)
Definition full_name (df : DataFrame) : M Series :=
  first <- getitem df "first_name" ;;
  spaced <- add_scalar first " " ;;
  last <- getitem df "last_name" ;;
  add_series spaced last.

(** Lines 40-71: the header is lower-cased and trimmed, the aliases are
    renamed, [name] is built from [first_name] and [last_name] when it is
    missing and they are there, and what is still missing is an error. *)
Definition reconcile (df : DataFrame) : M DataFrame :=
  let df := with_columns df (map (fun col => strip (lower col)) (columns df)) in
  let df := with_columns df (map (rename column_renames) (columns df)) in
  let missing := filter (fun col => negb (mem col (columns df))) required_columns in
  if nonempty missing then
    st <- (if mem "name" missing && mem "first_name" (columns df)
              && mem "last_name" (columns df)
           then full <- full_name df ;;
                ret (setitem_new df "name" full, remove_first "name" missing)
           else ret (df, missing)) ;;
    if nonempty (snd st) then raise (MissingColumnsError (snd st))
    else ret (fst st)
  else ret df.

Definition first_position (label : text) (cols : list text) : nat :=
  hd 0 (positions label cols).

(** The label of the row at position [i]. *)
Definition row_label (df : DataFrame) (i : nat) : cell :=
  nth i (index df) (Int (Z.of_nat i)).

(** Line 74, [df[required_columns].copy()]: every column under a required
    label, in the order of [required_columns]. *)
Definition select_required (df : DataFrame) : Frame :=
  let pos label := first_position label (columns df) in
  {| labels := flat_map (fun col => filter (text_eqb col) (columns df)) required_columns;
     name_dtype := nth (pos "name") (dtypes df) object;
     email_dtype := nth (pos "email") (dtypes df) object;
     phone_dtype := nth (pos "phone") (dtypes df) object;
     address_dtype := nth (pos "address") (dtypes df) object;
     rows := map (fun ir => {| idx := row_label df (fst ir);
                               name := cell_at (pos "name") (snd ir);
                               email := cell_at (pos "email") (snd ir);
                               phone := cell_at (pos "phone") (snd ir);
                               address := cell_at (pos "address") (snd ir) |})
                 (combine (seq 0 (len df)) (data df)) |}.

(** ** Field cleaner (lines 84-123) *)

(** [series.astype(str).str.strip()] on one cell *)
Definition astype_str_strip (x : cell) : cell := Str (strip (str x)).

Definition strip_column (d : dtype) (x : cell) : cell :=
  if dtype_eqb d object then astype_str_strip x else x.

Definition count_label (col : text) (cols : list text) : nat :=
  List.length (filter (text_eqb col) cols).

(** [df_cleaned[col]] is a Series for every label of the frame: no label is
    carried by two columns. *)
Definition unique_labels (fr : Frame) : bool :=
  forallb (fun col => count_label col (labels fr) =? 1) (labels fr).

(** The frame with every object column trimmed. *)
Definition stripped (fr : Frame) : Frame :=
  with_rows fr
    (map (fun r => {| idx := idx r;
                      name := strip_column (name_dtype fr) (name r);
                      email := strip_column (email_dtype fr) (email r);
                      phone := strip_column (phone_dtype fr) (phone r);
                      address := strip_column (address_dtype fr) (address r) |})
         (rows fr)).

(** Lines 84-86.  [df_cleaned[col].dtype] needs [df_cleaned[col]] to be a
    Series: under a label carried by two columns it is a DataFrame, which
    has no [dtype]. *)
Definition strip_strings (fr : Frame) : M Frame :=
  if unique_labels fr then ret (stripped fr) else raise AttributeError.

Definition disallowed_terms : list text :=
  [ "whatsapp" : text; "messenger" : text; "facebook" : text; "test" : text;
    "example" : text ].

(** Lines 91-100 *)
Definition is_valid_email (debug_mode : bool) (email : cell) : M bool :=
  if is_missing email then ret false
  else
    let email := strip (lower (str email)) in
    if existsb (fun term => contains term email) disallowed_terms then ret false
    else
      let is_valid := re_match email_pattern email in
      when (debug_mode && negb is_valid) (print (InvalidEmail email)) ;;
      ret is_valid.

(** Lines 103-109 *)
Definition clean_name (name : cell) : text :=
  if is_missing name then []
  else
    let clean := join " " (split (str name)) in
    let clean := strip (re_sub spaces_re " " clean) in
    join " " (map capitalize (split clean)).

(** Lines 112-118 *)
Definition clean_address (address : cell) : text :=
  if is_missing address then []
  else
    let cleaned := join " " (split (str address)) in
    let cleaned := re_sub comma_spacing_re ", " cleaned in
    let cleaned := re_sub commas_re "," cleaned in
    cleaned.

(** Line 121: [lambda x: x.lower() if isinstance(x, str) and x != 'nan' else x] *)
Definition lower_unless_nan (x : cell) : cell :=
  match x with
  | Str s => if text_eqb s "nan" then x else Str (lower s)
  | _ => x
  end.

(** The dtype of [series.apply(f)] for an [f] that returns strings: object,
    unless there was no row to apply it to. *)
Definition applied_dtype (d : dtype) (rs : list Row) : dtype :=
  if nonempty rs then object else d.

(** Lines 121-123 *)
Definition clean_fields (fr : Frame) : Frame :=
  {| labels := labels fr;
     name_dtype := applied_dtype (name_dtype fr) (rows fr);
     email_dtype := email_dtype fr;
     phone_dtype := phone_dtype fr;
     address_dtype := applied_dtype (address_dtype fr) (rows fr);
     rows := map (fun r => {| idx := idx r;
                              name := Str (clean_name (name r));
                              email := lower_unless_nan (email r);
                              phone := phone r;
                              address := Str (clean_address (address r)) |})
                 (rows fr) |}.

(** ** Validator / filter chain (lines 126-167) *)

(** [str(n)] for a count *)
Definition decimal (n : nat) : text := NilZero.string_of_uint (Nat.to_uint n).

Definition note_invalid_email (n : nat) : text :=
  ("Removed " : text) ++ decimal n ++ (" rows with invalid/missing email" : text).

Definition note_empty (n : nat) (col : text) : text :=
  ("Removed " : text) ++ decimal n ++ (" rows with empty " : text) ++ col.

Definition note_duplicates (n : nat) : text :=
  ("Removed " : text) ++ decimal n ++ (" duplicate email entries" : text).

(** [df[mask]] on the rows, for a boolean mask *)
Definition select_mask (mask : list bool) (rs : list Row) : list Row :=
  map snd (filter fst (combine mask rs)).

(** A frame without columns and without rows *)
Definition without_columns (fr : Frame) : Frame :=
  {| labels := [];
     name_dtype := name_dtype fr; email_dtype := email_dtype fr;
     phone_dtype := phone_dtype fr; address_dtype := address_dtype fr;
     rows := [] |}.

(** [df[mask]] for a mask that [series.apply] returned.  On a frame with
    rows the mask is boolean and selects rows.  On a frame without rows
    [apply] returns an empty Series of the dtype of the column, which is not
    boolean, and so does [~]: [df[mask]] takes it for a list of column
    labels and returns a frame without columns. *)
Definition getitem_applied (fr : Frame) (mask : list bool) : Frame :=
  match rows fr with
  | [] => without_columns fr
  | _ => with_rows fr (select_mask mask (rows fr))
  end.

(** [mask.sum()] *)
Definition sum (mask : list bool) : nat := List.length (filter (fun b => b) mask).

(** [row[col]] *)
Definition field (col : text) (r : Row) : cell :=
  if text_eqb col "name" then name r
  else if text_eqb col "email" then email r
  else if text_eqb col "phone" then phone r
  else address r.

(** [series.duplicated(keep='first')]: true where the value was seen before. *)
Fixpoint duplicated_from (seen : list cell) (l : list cell) : list bool :=
  match l with
  | [] => []
  | x :: t =>
      if existsb (cell_eqb x) seen then true :: duplicated_from seen t
      else false :: duplicated_from (x :: seen) t
  end.

Definition duplicated (l : list cell) : list bool := duplicated_from [] l.

(** Lines 126-147 *)
Definition filter_emails (debug_mode : bool) (df_cleaned : Frame) (errors : list text)
  : M (Frame * list text) :=
  let original_count := List.length (rows df_cleaned) in
  valid_email_mask <- apply_each (is_valid_email debug_mode) (map email (rows df_cleaned)) ;;
  when debug_mode
    (print (EmailStats (sum valid_email_mask) (List.length (rows df_cleaned)))) ;;
  let invalid_emails := rows (getitem_applied df_cleaned (map negb valid_email_mask)) in
  when (debug_mode && (0 <? List.length invalid_emails))
    (print (FoundInvalid (List.length invalid_emails)) ;;
     for_each (firstn 5 invalid_emails)
       (fun row => print (InvalidRow (idx row) (name row) (email row))) ;;
     when (5 <? List.length invalid_emails)
       (print (AndMore (List.length invalid_emails - 5)))) ;;
  let df_cleaned := getitem_applied df_cleaned valid_email_mask in
  let emails_dropped := original_count - List.length (rows df_cleaned) in
  let errors :=
    if emails_dropped =? 0 then errors
    else errors ++ [note_invalid_email emails_dropped] in
  ret (df_cleaned, errors).

(** [df_cleaned[col]] for a frame that may have lost its columns *)
Definition column_of (df_cleaned : Frame) (col : text) : M unit :=
  if mem col (labels df_cleaned) then ret tt else raise (KeyError col).

(** One turn of the loop of lines 150-158 *)
Definition drop_empty (debug_mode : bool) (col : text) (st : Frame * list text)
  : M (Frame * list text) :=
  let (df_cleaned, errors) := st in
  let empty_before := List.length (rows df_cleaned) in
  column_of df_cleaned col ;;
  let df_temp :=
    with_rows df_cleaned
      (filter (fun r => negb (text_eqb (strip (str (field col r))) []))
              (rows df_cleaned)) in
  let dropped := empty_before - List.length (rows df_temp) in
  errors <- (if dropped =? 0 then ret errors
             else when debug_mode (print (RemovedEmpty dropped col)) ;;
                  ret (errors ++ [note_empty dropped col])) ;;
  ret (df_temp, errors).

(** Lines 161-167 *)
Definition drop_duplicates (debug_mode : bool) (st : Frame * list text)
  : M (Frame * list text) :=
  let (df_cleaned, errors) := st in
  let duplicates := duplicated (map email (rows df_cleaned)) in
  if 0 <? sum duplicates then
    when debug_mode (print (FoundDuplicates (sum duplicates))) ;;
    ret (with_rows df_cleaned (select_mask (map negb duplicates) (rows df_cleaned)),
         errors ++ [note_duplicates (sum duplicates)])
  else ret (df_cleaned, errors).

Definition filter_chain (debug_mode : bool) (df_cleaned : Frame) (errors : list text)
  : M (Frame * list text) :=
  st <- filter_emails debug_mode df_cleaned errors ;;
  st <- drop_empty debug_mode "name" st ;;
  st <- drop_empty debug_mode "address" st ;;
  drop_duplicates debug_mode st.

(** ** Reporter / writer (lines 176-193) *)

(** [df_cleaned.to_csv(path, index=False)] *)
Definition write (w : World) (path : text) (df_cleaned : Frame) : M unit :=
  match to_csv w path with
  | None => tell (WriteCsv path df_cleaned)
  | Some e => tell (WriteDenied path e) ;; raise e
  end.

(** [f"email_only_data_{timestamp}.csv"] *)
Definition fallback_path (timestamp : text) : text :=
  ("email_only_data_" : text) ++ timestamp ++ (".csv" : text).

(** Lines 176-183.  [timestamp] is the local variable of line 23, which is
    bound only when no output file was given. *)
Definition save (w : World) (timestamp : option text) (output_file : text)
    (df_cleaned : Frame) : M unit :=
  try_except
    (write w output_file df_cleaned ;;
     print (Saved output_file))
    (fun e =>
       match e with
       | PermissionError =>
           match timestamp with
           | None => raise (UnboundLocalError "timestamp")
           | Some timestamp =>
               let alt_output := fallback_path timestamp in
               write w alt_output df_cleaned ;;
               print (SavedInstead alt_output)
           end
       | _ => raise e
       end).

(** Lines 186-193 *)
Definition summary (log_errors : bool) (original cleaned : nat) (errors : list text)
  : M unit :=
  print SummaryHeader ;;
  print (SummaryCounts original cleaned) ;;
  (if original =? 0 then raise ZeroDivisionError
   else print (SummaryRemoved (original - cleaned) original)) ;;
  when (nonempty errors && log_errors)
    (print NotesHeader ;;
     for_each errors (fun error => print (Note error))).

(** ** The pipeline *)

(** Lines 84-167: the field cleaner, then the filter chain. *)
Definition clean_and_filter (debug_mode : bool) (df_cleaned : Frame)
    (errors : list text) : M (Frame * list text) :=
  df_cleaned <- strip_strings df_cleaned ;;
  let df_cleaned := clean_fields df_cleaned in
  filter_chain debug_mode df_cleaned errors.

(** [idx + 1] for a row label (line 80): a label that is text refuses the
    number. *)
Definition plus_one (label : cell) : M cell :=
  match label with
  | Int z => ret (Int (z + 1))
  | NaN => ret NaN
  | Str _ => raise TypeError
  end.

(** The body of the [try] block, lines 35-195. *)
Definition process (w : World) (input_file : text) (timestamp : option text)
    (output_file : text) (log_errors debug_mode email_only : bool) : M Frame :=
  let errors : list text := [] in
  df <- (match read_csv w input_file with
         | Return df => ret df
         | Raise e => raise e
         end) ;;
  print (Loaded (len df) input_file) ;;
  print (ColumnsFound (columns df)) ;;
  df <- reconcile df ;;
  let df_cleaned := select_required df in
  when debug_mode
    (print DiagnosticHeader ;;
     for_each (firstn 10 (rows df_cleaned))
       (fun row => number <- plus_one (idx row) ;;
                   print (DiagnosticEmail number (email row)))) ;;
  st <- clean_and_filter debug_mode df_cleaned errors ;;
  let (df_cleaned, errors) := st in
  when debug_mode
    (print PreviewHeader ;;
     for_each (rows df_cleaned)
       (fun row => print (PreviewRow (idx row) (name row) (email row)))) ;;
  save w timestamp output_file df_cleaned ;;
  summary log_errors (len df) (List.length (rows df_cleaned)) errors ;;
  ret df_cleaned.

(** [not output_file] for an optional path: [None] and the empty string. *)
Definition not_given (output_file : option text) : bool :=
  match output_file with
  | None => true
  | Some p => negb (nonempty p)
  end.

Definition given (output_file : option text) : text :=
  match output_file with
  | None => []
  | Some p => p
  end.

(** Lines 21-24: [timestamp] is bound, and the default name built, only
    when no output file was given. *)
Definition bound_timestamp (w : World) (output_file : option text) : option text :=
  if not_given output_file then Some (now w) else None.

Definition output_path (w : World) (input_file : text) (output_file : option text) : text :=
  if not_given output_file
  then stem w input_file ++ ("_email_only_" : text) ++ now w ++ (".csv" : text)
  else given output_file.

(** The file of line 201 *)
Definition error_log : text := "data_cleaning_errors.log".

(** Lines 201-202: the log is opened for appending and the line written;
    a log that cannot be opened raises in place of the line. *)
Definition log_error (w : World) (input_file : text) (e : exn) : M unit :=
  match append_log w with
  | None => tell (AppendLog input_file e)
  | Some refusal => raise refusal
  end.

(** [clean_data(input_file, output_file, log_errors, debug_mode, email_only)] *)
Definition clean_data (w : World) (input_file : text) (output_file : option text)
    (log_errors debug_mode email_only : bool) : M Frame :=
  let timestamp := bound_timestamp w output_file in
  let output_file := output_path w input_file output_file in
  if negb (path_exists w input_file) then raise (FileNotFoundError input_file)
  else
    try_except
      (process w input_file timestamp output_file log_errors debug_mode email_only)
      (fun e =>
         print (ErrorProcessing input_file e) ;;
         when log_errors (log_error w input_file e) ;;
         raise e).

(** ** The script (lines 205-213) *)

(** What the script puts out: the events of the run and the line of the
    handler of line 213. *)
Inductive script_event :=
| FromRun (ev : event)
| FailedToClean (e : exn).

Definition input_csv : text := "Manufacturing_Mandaue_032.csv".

Definition output_csv : text := "Manufacturing_Mandaue_032_cleaned.csv".

(** Lines 207-213: the run on the two file names, with [debug_mode]; an
    exception of the run is caught and printed. *)
Definition main (w : World) : list script_event :=
  let run := clean_data w input_csv (Some output_csv) true true true in
  map FromRun (console run)
  ++ match result run with
     | Return _ => []
     | Raise e => [FailedToClean e]
     end.

(** * Notions used in the statements *)

(** ** Text *)

(** [s] holds [p] as a substring. *)
Definition substring (p s : text) : Prop := exists a b, s = a ++ p ++ b.

(** [term] occurs in [s] up to the case of the letters of [s]. *)
Definition occurs_ignoring_case (term s : text) : Prop :=
  exists a m b, s = a ++ m ++ b /\ lower m = term.

(** Text without white space *)
Definition spaceless (t : text) : Prop := Forall (fun c => isspace c = false) t.

(** A word: not empty, no white space. *)
Definition word (w : text) : Prop := w <> [] /\ spaceless w.

(** The first character, when there is one, is not white space. *)
Definition no_leading_space (s : text) : Prop :=
  match s with
  | c :: _ => isspace c = false
  | [] => True
  end.

(** The last character, when there is one, is not white space. *)
Definition no_trailing_space (s : text) : Prop := no_leading_space (rev s).

(** What is left after the longest run of characters of a class *)
Fixpoint drop_while (cls : ascii -> bool) (s : text) : text :=
  match s with
  | c :: t => if cls c then drop_while cls t else s
  | [] => []
  end.

(** [' '.join(s.split())] *)
Definition normalize (s : text) : text := join " " (split s).

(** Every white-space character is one space, with a character that is not
    white space after it. *)
Fixpoint single_spaced (n : text) : Prop :=
  match n with
  | [] => True
  | c :: t =>
      (isspace c = true -> c = " "%char /\ t <> [] /\ no_leading_space t)
      /\ single_spaced t
  end.

(** A character that is neither white space nor a comma *)
Definition plain (c : ascii) : Prop := isspace c = false /\ is_char "," c = false.

(** The characters of [str(z)] for an integer *)
Definition numeral (c : ascii) : Prop := isdigit c = true \/ c = "-"%char.

(** Text of 7-bit characters.  On such text the string methods of the model
    are those of Python. *)
Definition seven_bit (s : text) : Prop := Forall (fun c => code c < 128) s.


(** ** The address cleaner as one pass *)

(** Where a scan of the address stands: at the start or after a comma (white
    space is dropped), inside a word, or after white space that followed a
    word (one space is owed if a word comes next). *)
Inductive scan := AfterComma | InWord | AfterSpace.

(** The address cleaner as one pass over the text: a comma is written with
    one space after it, white space around commas and at both ends is
    dropped, and any other run of white space becomes one space. *)
Fixpoint tidy (q : scan) (s : text) : text :=
  match s with
  | [] => []
  | c :: t =>
      if is_char "," c then ","%char :: " "%char :: tidy AfterComma t
      else if isspace c then
        match q with
        | AfterComma => tidy AfterComma t
        | _ => tidy AfterSpace t
        end
      else
        match q with
        | AfterSpace => " "%char :: c :: tidy InWord t
        | _ => c :: tidy InWord t
        end
  end.

(** What holds of a cleaned address: a comma is followed by one space and no
    more white space; white space is a single space, not followed by white
    space. *)
Fixpoint well_spaced (y : text) : Prop :=
  match y with
  | [] => True
  | c :: t =>
      (is_char "," c = true -> exists t', t = " "%char :: t' /\ no_leading_space t')
      /\ (isspace c = true -> c = " "%char /\ no_leading_space t)
      /\ well_spaced t
  end.

(** ** Cells and columns *)

(** What the strip of lines 84-86 leaves in a well-typed column: no text
    with white space around it. *)
Definition settled (x : cell) : Prop :=
  match x with
  | Str s => strip s = s
  | _ => True
  end.

(** A cell fits the dtype of its column, as [read_csv] types columns: text
    is found in object columns only, and an [Int] cell is an integer, not
    the number of a float64 column, which [str] would render with a
    fraction. *)
Definition typed (d : dtype) (x : cell) : Prop :=
  match x with
  | Str _ => d = object
  | Int _ => d <> float64
  | NaN => True
  end.


(** The cell line 67 computes from the cells of a row. *)
Definition joined (first last : cell) : cell :=
  match first, last with
  | Str a, Str b => Str (a ++ (" " : text) ++ b)
  | _, _ => NaN
  end.




(** Every cell of the table read from the file fits the dtype of its
    column. *)
Definition table_typed (df : DataFrame) : Prop :=
  forall r j, In r (data df) -> typed (nth j (dtypes df) object) (cell_at j r).

(** The header and the cells of the table read as 7-bit text. *)
Definition seven_bit_table (df : DataFrame) : Prop :=
  Forall seven_bit (columns df)
  /\ forall r x, In r (data df) -> In x r -> seven_bit (str x).

(** [seven_bit], computed *)
Definition seven_bitb (s : text) : bool := forallb (fun c => code c <? 128) s.


(** ** The stages as functions on rows *)

(** The value [is_valid_email] returns. *)
Definition valid_email (x : cell) : bool :=
  negb (is_missing x)
  && negb (existsb (fun term => contains term (strip (lower (str x)))) disallowed_terms)
  && re_match email_pattern (strip (lower (str x))).

(** The rows the email stage keeps *)
Definition email_stage_rows (rs : list Row) : list Row :=
  filter (fun r => valid_email (email r)) rs.

(** The frame the email stage returns (line 144). *)
Definition email_stage (fr : Frame) : Frame :=
  match rows fr with
  | [] => without_columns fr
  | _ => with_rows fr (email_stage_rows (rows fr))
  end.

(** The cell of [col] is not empty once trimmed (line 152). *)
Definition filled (col : text) (r : Row) : bool :=
  negb (text_eqb (strip (str (field col r))) []).

(** Keeping, in order, the first row of each email value. *)
Fixpoint first_occurrences (seen : list cell) (rs : list Row) : list Row :=
  match rs with
  | [] => []
  | r :: t =>
      if existsb (cell_eqb (email r)) seen then first_occurrences seen t
      else r :: first_occurrences (email r :: seen) t
  end.

(** A note when, and only when, rows were removed. *)
Definition note_if (removed : nat) (note : nat -> text) : list text :=
  if removed =? 0 then [] else [note removed].

(** How many rows a stage removed *)
Definition removed (before after : list Row) : nat :=
  List.length before - List.length after.

(** The rows the chain keeps and the notes it appends. *)
Definition chain_rows (rs : list Row) : list Row :=
  first_occurrences []
    (filter (filled "address") (filter (filled "name") (email_stage_rows rs))).

(** The notes the chain appends, in the order of the stages *)
Definition chain_notes (rs : list Row) : list text :=
  let r1 := email_stage_rows rs in
  let r2 := filter (filled "name") r1 in
  let r3 := filter (filled "address") r2 in
  let r4 := first_occurrences [] r3 in
  note_if (removed rs r1) note_invalid_email
  ++ note_if (removed r1 r2) (fun n => note_empty n "name")
  ++ note_if (removed r2 r3) (fun n => note_empty n "address")
  ++ note_if (removed r3 r4) note_duplicates.

(** The table after lines 84-167, and the notes. *)
Definition cleaned_table (fr : Frame) : Frame :=
  with_rows (clean_fields fr) (chain_rows (rows (clean_fields fr))).

(** ** The header *)

(** The header after lines 40 and 58 *)
Definition reconciled_header (df : DataFrame) : list text :=
  map (fun col => rename column_renames (strip (lower col))) (columns df).

(** The required columns a header lacks. *)
Definition absent (cols : list text) : list text :=
  filter (fun col => negb (mem col cols)) required_columns.

(** ** The diagnostic and the log *)

(** A row label that is text: [idx + 1] refuses it. *)
Definition text_label (x : cell) : bool :=
  match x with
  | Str _ => true
  | _ => false
  end.

(** The diagnostic of lines 79-80 meets a label that is text among the
    first ten rows. *)
Definition diagnostic_fails (fr : Frame) : bool :=
  existsb text_label (map idx (firstn 10 (rows fr))).

(** The exception that reaches the caller when the run raised [e]: [e]
    itself, unless the log was to be written and could not be opened. *)
Definition raised (w : World) (log_errors : bool) (e : exn) : exn :=
  if log_errors
  then match append_log w with
       | Some refusal => refusal
       | None => e
       end
  else e.

(** What the handler appends to the log when the run raised [e]. *)
Definition log_line (w : World) (log_errors : bool) (input_file : text) (e : exn)
  : list event :=
  if log_errors
  then match append_log w with
       | None => [AppendLog input_file e]
       | Some _ => []
       end
  else [].

(** ** Effects *)

(** Console output, as opposed to files *)
Definition is_print (ev : event) : bool :=
  match ev with
  | Print _ => true
  | _ => false
  end.

(** The file writes, refused writes and log lines of a run, in order. *)
Definition effects {A} (m : M A) : list event :=
  filter (fun ev => negb (is_print ev)) (console m).

(** A computation that only prints. *)
Definition quiet {A} (m : M A) : Prop := effects m = [].

(** ** What a pattern matches *)

(** Every character of [a] is of the class. *)
Definition all_of (cls : ascii -> bool) (a : text) : Prop :=
  Forall (fun c => cls c = true) a.

(** [r] matches [p] from its first character to its last. *)
Fixpoint matches (r : regex) (p : text) : Prop :=
  match r with
  | [] => p = []
  | One cls :: r' => exists c q, p = c :: q /\ cls c = true /\ matches r' q
  | AtLeast n cls :: r' =>
      exists a q, p = a ++ q /\ n <= List.length a /\ all_of cls a /\ matches r' q
  end.





(** A cell the name and address cleaners take for missing or find empty:
    NaN, the number zero, the text [nan], and text without a word. *)
Definition blank (x : cell) : Prop :=
  match x with
  | NaN => True
  | Int z => z = 0%Z
  | Str s => s = ("nan" : text) \/ split s = []
  end.

(** [l1] is [l2] with some elements left out, the others in their order. *)
Inductive subsequence {A : Type} : list A -> list A -> Prop :=
| subsequence_nil : subsequence [] []
| subsequence_keep (x : A) (l1 l2 : list A) :
    subsequence l1 l2 -> subsequence (x :: l1) (x :: l2)
| subsequence_drop (x : A) (l1 l2 : list A) :
    subsequence l1 l2 -> subsequence l1 (x :: l2).

(** What lines 84-123 make of one row of [fr]. *)
Definition cleaned_row (fr : Frame) (r : Row) : Row :=
  {| idx := idx r;
     name := Str (clean_name (strip_column (name_dtype fr) (name r)));
     email := lower_unless_nan (strip_column (email_dtype fr) (email r));
     phone := strip_column (phone_dtype fr) (phone r);
     address := Str (clean_address (strip_column (address_dtype fr) (address r))) |}.

(** ** Reaching the writer *)

(** The run on [input_file] reaches line 176 with [table], having read
    [original] data rows: the file exists and is read, the header is
    reconciled, the diagnostic of [debug_mode] meets no label that is text,
    and each required label is carried by one column. *)
Definition reaches_save (w : World) (input_file : text) (debug_mode : bool)
    (table : Frame) (original : nat) : Prop :=
  path_exists w input_file = true
  /\ exists df df',
       read_csv w input_file = Return df
       /\ result (reconcile df) = Return df'
       /\ debug_mode && diagnostic_fails (select_required df') = false
       /\ unique_labels (select_required df') = true
       /\ table = cleaned_table (stripped (select_required df'))
       /\ original = len df'.

(** A write or a refused write, as opposed to a log line *)
Definition is_write (ev : event) : bool :=
  match ev with
  | WriteCsv _ _ | WriteDenied _ _ => true
  | _ => false
  end.

(** A computation that neither prints nor writes. *)
Definition silent {A} (m : M A) : Prop := console m = [].

(** The lines of the summary that list the notes (lines 190-193). *)
Definition printed_notes (log_errors : bool) (notes : list text) : list event :=
  if nonempty notes && log_errors
  then Print NotesHeader :: map (fun n => Print (Note n)) notes
  else [].


(** The file an event writes, appends to or was refused. *)
Definition touched (ev : event) : option text :=
  match ev with
  | WriteCsv path _ | WriteDenied path _ => Some path
  | AppendLog _ _ => Some error_log
  | Print _ => None
  end.

(** ** Sample files and worlds *)

(** A world whose input file holds [df] and where every write succeeds. *)
Definition world_of (df : DataFrame) : World :=
  {| path_exists := fun _ => true;
     read_csv := fun _ => Return df;
     stem := fun p => p;
     now := "20240101_120000";
     to_csv := fun _ => None;
     append_log := None |}.

(** The same, where every write is refused. *)
Definition read_only_world (df : DataFrame) : World :=
  {| path_exists := fun _ => true;
     read_csv := fun _ => Return df;
     stem := fun p => p;
     now := "20240101_120000";
     to_csv := fun _ => Some PermissionError;
     append_log := None |}.

(** A world without files *)
Definition nowhere : World :=
  {| path_exists := fun _ => false;
     read_csv := fun _ => Raise (FileNotFoundError []);
     stem := fun p => p;
     now := "20240101_120000";
     to_csv := fun _ => None;
     append_log := None |}.

(** A contact list with aliased headers, a blank name, a disallowed address
    and a repeated email; its phone column holds numbers and a blank. *)
Definition contacts : DataFrame :=
  {| columns := [ " Name" : text; "E-Mail" : text; "Mobile" : text; "Location" : text ];
     dtypes := [ object; object; float64; object ];
     index := [];
     data :=
       [ [ Str " joe smith "; Str "JOE@X.COM"; NaN; Str "1  Main St ,Cebu" ];
         [ Str "jane doe"; Str "jane@x.com"; Int 5; Str "2 Main" ];
         [ Str "Jane Doe"; Str "JANE@X.COM"; Int 5; Str "2 Main" ];
         [ NaN; Str "q@x.com"; Int 7; Str "3 Main" ];
         [ Str "t"; Str "q@test.com"; Int 8; Str "4 Main" ] ] |}.


(** A file whose [first_name] column holds numbers and that has no [phone]
    column. *)
Definition numbered_first_names : DataFrame :=
  {| columns := [ "first_name" : text; "last_name" : text; "email" : text;
                  "address" : text ];
     dtypes := [ int64; object; object; object ];
     index := [];
     data := [ [ Int 7; Str "Cruz"; Str "ana@x.com"; Str "Cebu" ] ] |}.


(** The table a run on [contacts] returns *)
Definition contacts_output : Frame :=
  Eval vm_compute in cleaned_table (stripped (select_required
    (with_columns contacts (reconciled_header contacts)))).

(** A world where only the fallback file can be written. *)
Definition locked_world (df : DataFrame) : World :=
  {| path_exists := fun _ => true;
     read_csv := fun _ => Return df;
     stem := fun p => p;
     now := "20240101_120000";
     to_csv := fun p => if startswith "email_only_data_" p then None
                        else Some PermissionError;
     append_log := None |}.

(** A world where every write fails for want of space. *)
Definition full_disk_world (df : DataFrame) : World :=
  {| path_exists := fun _ => true;
     read_csv := fun _ => Return df;
     stem := fun p => p;
     now := "20240101_120000";
     to_csv := fun _ => Some OSError;
     append_log := None |}.

(** A world where nothing can be written: every write is refused for want
    of permission, and so is the opening of the error log. *)
Definition unwritable_world (df : DataFrame) : World :=
  {| path_exists := fun _ => true;
     read_csv := fun _ => Return df;
     stem := fun p => p;
     now := "20240101_120000";
     to_csv := fun _ => Some PermissionError;
     append_log := Some PermissionError |}.

(** A file where two headers are aliases of [email]. *)
Definition two_email_columns : DataFrame :=
  {| columns := [ "name" : text; "Email" : text; "E-Mail" : text; "phone" : text;
                  "address" : text ];
     dtypes := [ object; object; object; object; object ];
     index := [];
     data := [ [ Str "Ana"; Str "ana@x.com"; Str "ana@y.com"; Str "1"; Str "Cebu" ] ] |}.

(** A file whose email column is empty: [read_csv] types it float64. *)
Definition no_emails : DataFrame :=
  {| columns := [ "name" : text; "email" : text; "phone" : text; "address" : text ];
     dtypes := [ object; float64; object; object ];
     index := [];
     data := [ [ Str "Ana"; NaN; Str "1"; Str "Cebu" ];
               [ Str "Ben"; NaN; Str "2"; Str "Cebu" ] ] |}.

(** A contact list whose phone column holds whole numbers only; its
    second row has a disallowed address and its third repeats the email of
    the first. *)
Definition directory : DataFrame :=
  {| columns := [ "Full Name" : text; "Email" : text; "Cell" : text; "Location" : text ];
     dtypes := [ object; object; int64; object ];
     index := [];
     data := [ [ Str " ana  cruz"; Str "Ana@X.com"; Int 5; Str "1 Main ,Cebu" ];
               [ Str "ben"; Str "ben@test.com"; Int 6; Str "2 Main" ];
               [ Str "Ana Cruz"; Str "ANA@x.com"; Int 7; Str "3 Main" ] ] |}.

(** The table a run on [directory] returns *)
Definition directory_output : Frame :=
  Eval vm_compute in cleaned_table (stripped (select_required
    (with_columns directory (reconciled_header directory)))).

(** [df_cleaned] for [directory] as the filter chain receives it, after
    the cleaners of lines 84-123 *)
Definition directory_cleaned : Frame :=
  Eval vm_compute in clean_fields (stripped (select_required
    (with_columns directory (reconciled_header directory)))).

(** A file whose data rows have one field more than the header, as
    [r1,Ana Cruz,ana@x.com,5,Cebu] under [name,email,phone,address]:
    [read_csv] takes the first field of each row for its label. *)
Definition labelled_contacts : DataFrame :=
  {| columns := [ "name" : text; "email" : text; "phone" : text; "address" : text ];
     dtypes := [ object; object; int64; object ];
     index := [ Str "r1"; Str "r2" ];
     data := [ [ Str "Ana Cruz"; Str "ana@x.com"; Int 5; Str "Cebu" ];
               [ Str "Ben Diaz"; Str "ben@x.com"; Int 6; Str "Cebu" ] ] |}.



(** * Properties *)

(** ** The monad *)

Lemma result_bind {A B} (m : M A) (k : A -> M B) :
  result (bind m k) =
  match result m with
  | Return a => result (k a)
  | Raise e => Raise e
  end.
Proof.
  destruct m as [out [a | e]]; simpl; [destruct (k a) |]; reflexivity.
Qed.

Lemma console_bind {A B} (m : M A) (k : A -> M B) :
  console (bind m k) =
  console m ++ match result m with
               | Return a => console (k a)
               | Raise _ => []
               end.
Proof.
  destruct m as [out [a | e]]; simpl; [destruct (k a) | rewrite app_nil_r]; reflexivity.
Qed.

Lemma result_when (b : bool) (m : M unit) :
  (forall e, result m <> Raise e) -> result (when b m) = Return tt.
Proof.
  intros H. destruct b; simpl; [| reflexivity].
  destruct m as [out [[] | e]]; simpl in *; [reflexivity | destruct (H e); reflexivity].
Qed.

Lemma result_print (m : message) : result (print m) = Return tt.
Proof. reflexivity. Qed.

Lemma result_when_print (b : bool) (m : message) : result (when b (print m)) = Return tt.
Proof. destruct b; reflexivity. Qed.

Lemma result_for_each_print {A} (l : list A) (f : A -> message) :
  result (for_each l (fun x => print (f x))) = Return tt.
Proof.
  induction l as [| x t IH]; cbn [for_each]; [reflexivity |].
  rewrite result_bind. exact IH.
Qed.

(** [apply_each] of a closure that never raises collects its values. *)
Lemma result_apply_each {A B} (f : A -> M B) (g : A -> B) (l : list A) :
  (forall x, result (f x) = Return (g x)) ->
  result (apply_each f l) = Return (map g l).
Proof.
  intros H. induction l as [| x t IH]; cbn [apply_each map]; [reflexivity |].
  rewrite result_bind, H, result_bind, IH. reflexivity.
Qed.

(** ** Text lemmas *)

Lemma text_eqb_eq (a b : text) : text_eqb a b = true <-> a = b.
Proof.
  unfold text_eqb. destruct (list_eq_dec ascii_dec a b); split; congruence.
Qed.

Lemma text_eqb_neq (a b : text) : text_eqb a b = false <-> a <> b.
Proof.
  unfold text_eqb. destruct (list_eq_dec ascii_dec a b); split; congruence.
Qed.

Lemma seven_bitb_spec (s : text) : seven_bitb s = true -> seven_bit s.
Proof.
  unfold seven_bitb, seven_bit. rewrite forallb_forall, Forall_forall.
  intros H c Hc. apply Nat.ltb_lt, H, Hc.
Qed.

Lemma startswith_spec (p s : text) :
  startswith p s = true <-> exists b, s = p ++ b.
Proof.
  revert s. induction p as [| a p IH]; intros s; simpl.
  - split; [intros _; exists s; reflexivity | reflexivity].
  - destruct s as [| c s].
    + split; [discriminate | intros [b H]; discriminate].
    + rewrite andb_true_iff, Ascii.eqb_eq, IH. split.
      * intros [-> [b ->]]. exists b. reflexivity.
      * intros [b H]. injection H as -> ->. split; [reflexivity | exists b; reflexivity].
Qed.

Lemma contains_spec (p s : text) : contains p s = true <-> substring p s.
Proof.
  induction s as [| c s IH].
  - simpl. rewrite orb_false_r, startswith_spec. split.
    + intros [b H]. exists [], b. exact H.
    + intros [a [b H]]. destruct a; [exists b; exact H | discriminate].
  - cbn [contains]. rewrite orb_true_iff, startswith_spec, IH. split.
    + intros [[b H] | [a [b H]]].
      * exists [], b. exact H.
      * exists (c :: a), b. rewrite H. reflexivity.
    + intros [a [b H]]. destruct a as [| c' a].
      * left. exists b. exact H.
      * right. injection H as _ H. exists a, b. exact H.
Qed.

Lemma substring_lower (term s : text) :
  substring term (lower s) <-> occurs_ignoring_case term s.
Proof.
  unfold substring, occurs_ignoring_case, lower. split.
  - intros [a [b H]].
    apply map_eq_app in H. destruct H as [a' [r [-> [Ha H]]]].
    apply map_eq_app in H. destruct H as [m [b' [-> [Hm Hb]]]].
    exists a', m, b'. split; [reflexivity | exact Hm].
  - intros [a [m [b [-> Hm]]]]. exists (map lower_char a), (map lower_char b).
    rewrite !map_app, Hm. reflexivity.
Qed.

Lemma isspace_lower_char (c : ascii) : isspace (lower_char c) = isspace c.
Proof. destruct c as [[] [] [] [] [] [] [] []]; reflexivity. Qed.

Lemma lstrip_lower (s : text) : lstrip (lower s) = lower (lstrip s).
Proof.
  induction s as [| c s IH]; simpl; [reflexivity |].
  rewrite isspace_lower_char. destruct (isspace c); [exact IH | reflexivity].
Qed.

Lemma rstrip_lower (s : text) : rstrip (lower s) = lower (rstrip s).
Proof.
  unfold rstrip, lower. rewrite <- map_rev.
  fold (lower (rev s)). rewrite lstrip_lower. unfold lower. rewrite map_rev. reflexivity.
Qed.

Lemma strip_lower (s : text) : strip (lower s) = lower (strip s).
Proof. unfold strip. rewrite lstrip_lower, rstrip_lower. reflexivity. Qed.

Lemma substring_cons_space (t s : text) (c : ascii) :
  t <> [] -> spaceless t -> isspace c = true ->
  substring t (c :: s) -> substring t s.
Proof.
  intros Hne Ht Hc [a [b H]]. destruct a as [| c' a].
  - destruct t as [| d t]; [contradiction |].
    injection H as -> _. inversion Ht; subst. congruence.
  - injection H as _ H. exists a, b. exact H.
Qed.

Lemma substring_lstrip (t s : text) :
  t <> [] -> spaceless t -> substring t (lstrip s) <-> substring t s.
Proof.
  intros Hne Ht. induction s as [| c s IH]; simpl; [tauto |].
  destruct (isspace c) eqn:Hc; [| tauto].
  rewrite IH. split.
  - intros [a [b ->]]. exists (c :: a), b. reflexivity.
  - apply substring_cons_space; assumption.
Qed.

Lemma substring_rev (t s : text) : substring t s -> substring (rev t) (rev s).
Proof.
  intros [a [b ->]]. exists (rev b), (rev a).
  rewrite !rev_app_distr, app_assoc. reflexivity.
Qed.

Lemma spaceless_rev (t : text) : spaceless t -> spaceless (rev t).
Proof. apply Forall_rev. Qed.

Lemma substring_rstrip (t s : text) :
  t <> [] -> spaceless t -> substring t (rstrip s) <-> substring t s.
Proof.
  intros Hne Ht. unfold rstrip.
  assert (Hne' : rev t <> []).
  { intros H. apply Hne. rewrite <- (rev_involutive t), H. reflexivity. }
  pose proof (substring_lstrip (rev t) (rev s) Hne' (spaceless_rev t Ht)) as [H1 H2].
  split; intros H.
  - apply substring_rev in H. rewrite rev_involutive in H.
    apply H1, substring_rev in H. rewrite !rev_involutive in H. exact H.
  - apply substring_rev, H2, substring_rev in H.
    rewrite rev_involutive in H. exact H.
Qed.

Lemma substring_strip (t s : text) :
  t <> [] -> spaceless t -> substring t (strip s) <-> substring t s.
Proof.
  intros Hne Ht. unfold strip.
  rewrite substring_rstrip, substring_lstrip by assumption. tauto.
Qed.

Lemma disallowed_terms_spaceless (term : text) :
  In term disallowed_terms -> term <> [] /\ spaceless term.
Proof.
  unfold disallowed_terms. simpl.
  intros [<- | [<- | [<- | [<- | [<- | []]]]]]; (split; [discriminate |]);
    repeat constructor.
Qed.

(** ** The email validator *)

Lemma is_valid_email_result (debug_mode : bool) (x : cell) :
  result (is_valid_email debug_mode x) = Return (valid_email x).
Proof.
  unfold is_valid_email, valid_email.
  destruct (is_missing x); [reflexivity |].
  destruct (existsb _ disallowed_terms); [reflexivity |].
  rewrite result_bind, result_when_print. reflexivity.
Qed.

Lemma valid_email_spec (x : cell) :
  valid_email x = true <->
  is_missing x = false /\
  re_match email_pattern (strip (lower (str x))) = true /\
  forall term, In term disallowed_terms -> ~ occurs_ignoring_case term (str x).
Proof.
  unfold valid_email.
  rewrite !andb_true_iff, !negb_true_iff.
  assert (Hterms :
    existsb (fun term => contains term (strip (lower (str x)))) disallowed_terms = false <->
    forall term, In term disallowed_terms -> ~ occurs_ignoring_case term (str x)).
  { rewrite <- not_true_iff_false, existsb_exists. split.
    - intros H term Hin Hocc. apply H. exists term. split; [exact Hin |].
      destruct (disallowed_terms_spaceless term Hin) as [Hne Hsp].
      apply contains_spec, substring_strip, substring_lower; assumption.
    - intros H [term [Hin Hc]]. apply (H term Hin).
      destruct (disallowed_terms_spaceless term Hin) as [Hne Hsp].
      apply contains_spec, substring_strip, substring_lower in Hc; assumption. }
  rewrite Hterms. tauto.
Qed.

Lemma select_mask_map {A} (f : A -> bool) (g : Row -> A) (rs : list Row) :
  select_mask (map f (map g rs)) rs = filter (fun r => f (g r)) rs.
Proof.
  unfold select_mask. induction rs as [| r rs IH]; simpl; [reflexivity |].
  destruct (f (g r)); simpl; rewrite IH; reflexivity.
Qed.

Lemma rows_email_stage (fr : Frame) :
  rows (email_stage fr) = email_stage_rows (rows fr).
Proof. unfold email_stage. destruct (rows fr); reflexivity. Qed.

Lemma filter_emails_result (debug_mode : bool) (fr : Frame) (errors : list text) :
  result (filter_emails debug_mode fr errors) =
  Return (email_stage fr,
          if List.length (rows fr) - List.length (email_stage_rows (rows fr)) =? 0
          then errors
          else errors ++ [note_invalid_email
                            (List.length (rows fr) - List.length (email_stage_rows (rows fr)))]).
Proof.
  unfold filter_emails.
  rewrite result_bind.
  rewrite (result_apply_each _ valid_email) by (intros; apply is_valid_email_result).
  rewrite result_bind, result_when_print.
  rewrite result_bind. rewrite result_when.
  - cbn [result snd ret].
    assert (E : getitem_applied fr (map valid_email (map email (rows fr))) = email_stage fr).
    { unfold getitem_applied, email_stage. destruct (rows fr) as [| r rs] eqn:Hr;
        [reflexivity |]. rewrite <- Hr, select_mask_map. reflexivity. }
    rewrite E, rows_email_stage. reflexivity.
  - intros e. rewrite result_bind, result_print, result_bind, result_for_each_print.
    rewrite result_when_print. discriminate.
Qed.

(** ** The filter chain *)

Lemma field_name (r : Row) : field "name" r = name r.
Proof. reflexivity. Qed.

Lemma field_address (r : Row) : field "address" r = address r.
Proof. reflexivity. Qed.

Lemma app_note_if (errors : list text) (n : nat) (note : nat -> text) :
  (if n =? 0 then errors else errors ++ [note n]) = errors ++ note_if n note.
Proof. unfold note_if. destruct (n =? 0); [rewrite app_nil_r |]; reflexivity. Qed.

Lemma drop_empty_result (debug_mode : bool) (col : text) (fr : Frame) (errors : list text) :
  result (drop_empty debug_mode col (fr, errors)) =
  if mem col (labels fr)
  then Return (with_rows fr (filter (filled col) (rows fr)),
               errors ++ note_if (removed (rows fr) (filter (filled col) (rows fr)))
                                 (fun n => note_empty n col))
  else Raise (KeyError col).
Proof.
  unfold drop_empty, column_of. rewrite result_bind.
  destruct (mem col (labels fr)); [| reflexivity].
  cbn [result snd ret]. rewrite result_bind. cbn [rows with_rows].
  fold (filled col). fold (removed (rows fr) (filter (filled col) (rows fr))).
  rewrite <- app_note_if.
  destruct (removed (rows fr) (filter (filled col) (rows fr)) =? 0); [reflexivity |].
  rewrite result_bind, result_when_print. reflexivity.
Qed.

Lemma select_not_duplicated (seen : list cell) (rs : list Row) :
  select_mask (map negb (duplicated_from seen (map email rs))) rs =
  first_occurrences seen rs.
Proof.
  unfold select_mask. revert seen.
  induction rs as [| r rs IH]; intros seen; simpl; [reflexivity |].
  destruct (existsb (cell_eqb (email r)) seen); simpl; rewrite IH; reflexivity.
Qed.

Lemma sum_duplicated (seen : list cell) (rs : list Row) :
  sum (duplicated_from seen (map email rs)) + List.length (first_occurrences seen rs)
  = List.length rs.
Proof.
  unfold sum. revert seen.
  induction rs as [| r rs IH]; intros seen; simpl; [reflexivity |].
  destruct (existsb (cell_eqb (email r)) seen); simpl.
  - rewrite IH. reflexivity.
  - rewrite <- (IH (email r :: seen)). lia.
Qed.

Lemma first_occurrences_length (seen : list cell) (rs : list Row) :
  List.length (first_occurrences seen rs) <= List.length rs.
Proof. pose proof (sum_duplicated seen rs). lia. Qed.

Lemma first_occurrences_all (seen : list cell) (rs : list Row) :
  List.length (first_occurrences seen rs) = List.length rs ->
  first_occurrences seen rs = rs.
Proof.
  revert seen. induction rs as [| r rs IH]; intros seen; simpl; [reflexivity |].
  destruct (existsb (cell_eqb (email r)) seen); simpl; intros H.
  - pose proof (first_occurrences_length seen rs). lia.
  - f_equal. apply IH. lia.
Qed.

Lemma drop_duplicates_result (debug_mode : bool) (fr : Frame) (errors : list text) :
  result (drop_duplicates debug_mode (fr, errors)) =
  Return (with_rows fr (first_occurrences [] (rows fr)),
          errors ++ note_if (removed (rows fr) (first_occurrences [] (rows fr)))
                            note_duplicates).
Proof.
  unfold drop_duplicates, duplicated, removed, note_if.
  pose proof (sum_duplicated [] (rows fr)) as Hsum.
  replace (List.length (rows fr) - List.length (first_occurrences [] (rows fr)))
    with (sum (duplicated_from [] (map email (rows fr)))) by lia.
  destruct (sum (duplicated_from [] (map email (rows fr)))) as [| n] eqn:Hn.
  - cbn [Nat.ltb Nat.leb Nat.eqb result snd ret]. rewrite app_nil_r.
    rewrite first_occurrences_all by lia. destruct fr; reflexivity.
  - cbn [Nat.ltb Nat.leb Nat.eqb]. rewrite result_bind, result_when_print.
    cbn [result snd ret]. rewrite select_not_duplicated. reflexivity.
Qed.

Lemma filter_chain_result (debug_mode : bool) (fr : Frame) (errors : list text) :
  result (filter_chain debug_mode fr errors) =
  if nonempty (rows fr) && mem "name" (labels fr)
  then if mem "address" (labels fr)
       then Return (with_rows fr (chain_rows (rows fr)), errors ++ chain_notes (rows fr))
       else Raise (KeyError "address")
  else Raise (KeyError "name").
Proof.
  unfold filter_chain.
  rewrite result_bind, filter_emails_result, app_note_if.
  rewrite result_bind, drop_empty_result.
  unfold email_stage. destruct (nonempty (rows fr)) eqn:Hne.
  2:{ destruct (rows fr); [reflexivity | discriminate]. }
  destruct (rows fr) as [| r rs] eqn:Hr; [discriminate |].
  rewrite <- Hr. cbn [labels with_rows andb].
  destruct (mem "name" (labels fr)); [| reflexivity].
  rewrite result_bind, drop_empty_result. cbn [labels with_rows].
  destruct (mem "address" (labels fr)); [| reflexivity].
  rewrite drop_duplicates_result.
  unfold chain_rows, chain_notes, removed. cbn [rows with_rows labels name_dtype
    email_dtype phone_dtype address_dtype].
  rewrite <- !app_assoc. reflexivity.
Qed.




(** ** The result of a run *)

Lemma result_when_ok (b : bool) (m : M unit) :
  result m = Return tt -> result (when b m) = Return tt.
Proof. intros H. destruct b; [exact H | reflexivity]. Qed.

Lemma result_try_except {A} (m : M A) (handler : exn -> M A) :
  result (try_except m handler) =
  match result m with
  | Return a => Return a
  | Raise e => result (handler e)
  end.
Proof.
  destruct m as [out [a | e]]; simpl; [| destruct (handler e)]; reflexivity.
Qed.

Lemma strip_strings_result (fr : Frame) :
  result (strip_strings fr) =
  if unique_labels fr then Return (stripped fr) else Raise AttributeError.
Proof.
  unfold strip_strings. destruct (unique_labels fr); reflexivity.
Qed.

Lemma clean_and_filter_result (debug_mode : bool) (fr : Frame) (errors : list text) :
  result (clean_and_filter debug_mode fr errors) =
  if unique_labels fr
  then if nonempty (rows fr) && mem "name" (labels fr)
       then if mem "address" (labels fr)
            then Return (cleaned_table (stripped fr),
                         errors ++ chain_notes (rows (clean_fields (stripped fr))))
            else Raise (KeyError "address")
       else Raise (KeyError "name")
  else Raise AttributeError.
Proof.
  unfold clean_and_filter. rewrite result_bind, strip_strings_result.
  destruct (unique_labels fr); [| reflexivity].
  rewrite filter_chain_result.
  assert (E : nonempty (rows (clean_fields (stripped fr))) = nonempty (rows fr)).
  { unfold clean_fields, stripped. cbn [rows with_rows]. destruct (rows fr); reflexivity. }
  rewrite E. reflexivity.
Qed.



Lemma summary_result (log_errors : bool) (original cleaned : nat) (errors : list text) :
  result (summary log_errors original cleaned errors) =
  if original =? 0 then Raise ZeroDivisionError else Return tt.
Proof.
  unfold summary. rewrite !result_bind, !result_print.
  destruct (original =? 0); [reflexivity |].
  rewrite result_print. apply result_when_ok.
  rewrite result_bind, result_print. apply result_for_each_print.
Qed.

Lemma absent_after_name (cols : list text) :
  mem "name" (absent cols) = true ->
  remove_first "name" (absent cols) = absent (cols ++ [("name" : text)]).
Proof.
  unfold absent, required_columns, mem. cbn [filter].
  rewrite !existsb_app.
  destruct (existsb (text_eqb "name") cols) eqn:Hn.
  - cbn [negb]. intros H. exfalso.
    repeat match type of H with
           | context [if ?b then _ else _] => destruct b
           end; vm_compute in H; discriminate.
  - intros _. cbn.
    rewrite !orb_false_r. reflexivity.
Qed.

Lemma reconcile_result (df : DataFrame) :
  result (reconcile df) =
  let header := reconciled_header df in
  let renamed := with_columns df header in
  if mem "name" (absent header) && mem "first_name" header && mem "last_name" header
  then match result (full_name renamed) with
       | Raise e => Raise e
       | Return full =>
           if nonempty (absent (header ++ [("name" : text)]))
           then Raise (MissingColumnsError (absent (header ++ [("name" : text)])))
           else Return (setitem_new renamed "name" full)
       end
  else if nonempty (absent header) then Raise (MissingColumnsError (absent header))
  else Return renamed.
Proof.
  unfold reconcile. cbv zeta. cbn [columns with_columns dtypes data].
  rewrite map_map. fold (reconciled_header df). fold (absent (reconciled_header df)).
  destruct (mem "name" (absent (reconciled_header df))) eqn:Hname.
  - assert (Hne : nonempty (absent (reconciled_header df)) = true).
    { destruct (absent (reconciled_header df)); [discriminate | reflexivity]. }
    rewrite Hne, result_bind. cbn [andb].
    destruct (mem "first_name" (reconciled_header df) && mem "last_name" (reconciled_header df)).
    + rewrite result_bind.
      change (with_columns (with_columns df _) (reconciled_header df))
        with (with_columns df (reconciled_header df)).
      destruct (result (full_name (with_columns df (reconciled_header df))))
        as [full | e]; [| reflexivity].
      cbn [result snd ret fst]. rewrite (absent_after_name _ Hname).
      destruct (nonempty (absent (reconciled_header df ++ [("name" : text)])));
        reflexivity.
    + cbn [result snd ret fst]. rewrite Hne. reflexivity.
  - cbn [andb]. destruct (absent (reconciled_header df)) as [| col cols]; [reflexivity |].
    cbn [nonempty]. rewrite result_bind. reflexivity.
Qed.

Lemma reconcile_returns_required (df df' : DataFrame) :
  result (reconcile df) = Return df' -> absent (columns df') = [].
Proof.
  rewrite reconcile_result. cbv zeta.
  destruct (mem "name" _ && _ && _).
  - destruct (result (full_name _)) as [full |]; [| discriminate].
    destruct (absent (reconciled_header df ++ _)) eqn:H; [| discriminate].
    intros E. injection E as <-. exact H.
  - destruct (absent (reconciled_header df)) eqn:H; [| discriminate].
    intros E. injection E as <-. exact H.
Qed.

Lemma result_diagnostic (l : list Row) :
  result (for_each l (fun row => number <- plus_one (idx row) ;;
                                 print (DiagnosticEmail number (email row))))
  = if existsb text_label (map idx l) then Raise TypeError else Return tt.
Proof.
  induction l as [| r l IH]; [reflexivity |]. cbn [for_each map existsb].
  rewrite result_bind, result_bind.
  destruct (idx r); cbn [plus_one result snd ret raise text_label orb];
    try reflexivity; rewrite result_print; exact IH.
Qed.

Lemma result_when_diagnostic (debug_mode : bool) (fr : Frame) :
  result (when debug_mode
            (print DiagnosticHeader ;;
             for_each (firstn 10 (rows fr))
               (fun row => number <- plus_one (idx row) ;;
                           print (DiagnosticEmail number (email row)))))
  = if debug_mode && diagnostic_fails fr then Raise TypeError else Return tt.
Proof.
  destruct debug_mode; [| reflexivity]. cbn [when andb].
  rewrite result_bind, result_print. apply result_diagnostic.
Qed.

Lemma selected_rows_nonempty (df : DataFrame) :
  nonempty (rows (select_required df)) = negb (len df =? 0).
Proof.
  unfold select_required, len. cbn [rows]. destruct (data df); reflexivity.
Qed.

Lemma selected_mem (col : text) (df : DataFrame) :
  In col required_columns -> mem col (columns df) = true ->
  mem col (labels (select_required df)) = true.
Proof.
  intros Hreq H. unfold mem in *. apply existsb_exists in H.
  destruct H as [c [Hin Hc]]. apply existsb_exists. exists c. split; [| exact Hc].
  unfold select_required. cbn [labels]. apply in_flat_map. exists col.
  split; [exact Hreq |]. apply filter_In. split; assumption.
Qed.

Lemma mem_not_absent (col : text) (cols : list text) :
  In col required_columns -> absent cols = [] -> mem col cols = true.
Proof.
  intros Hreq Ha. destruct (mem col cols) eqn:E; [reflexivity |]. exfalso.
  assert (Hin : In col (absent cols)).
  { unfold absent. apply filter_In. split; [exact Hreq |]. rewrite E. reflexivity. }
  rewrite Ha in Hin. destruct Hin.
Qed.

Lemma process_result (w : World) (input_file : text) (timestamp : option text)
    (output_file : text) (log_errors debug_mode email_only : bool) :
  result (process w input_file timestamp output_file log_errors debug_mode email_only) =
  match read_csv w input_file with
  | Raise e => Raise e
  | Return df =>
      match result (reconcile df) with
      | Raise e => Raise e
      | Return df' =>
          if debug_mode && diagnostic_fails (select_required df') then Raise TypeError
          else if unique_labels (select_required df') then
            if len df' =? 0 then Raise (KeyError "name")
            else
              let table := cleaned_table (stripped (select_required df')) in
              match result (save w timestamp output_file table) with
              | Raise e => Raise e
              | Return _ => Return table
              end
          else Raise AttributeError
      end
  end.
Proof.
  unfold process. rewrite result_bind.
  destruct (read_csv w input_file) as [df | e]; [| reflexivity].
  cbn [result snd ret]. rewrite !result_bind, !result_print.
  destruct (result (reconcile df)) as [df' | e] eqn:Hrec; [| reflexivity].
  rewrite result_bind, result_when_diagnostic. destruct (debug_mode && diagnostic_fails _); [reflexivity |].
  rewrite result_bind, clean_and_filter_result.
  destruct (unique_labels (select_required df')); [| reflexivity].
  pose proof (reconcile_returns_required _ _ Hrec) as Ha.
  rewrite selected_rows_nonempty.
  assert (Hname : mem "name" (labels (select_required df')) = true).
  { apply selected_mem; [| apply mem_not_absent; [| exact Ha]]; cbn; tauto. }
  assert (Haddress : mem "address" (labels (select_required df')) = true).
  { apply selected_mem; [| apply mem_not_absent; [| exact Ha]]; cbn; tauto. }
  rewrite Hname, Haddress.
  destruct (len df' =? 0) eqn:Hlen; [reflexivity |]. cbn [negb andb].
  rewrite result_bind, result_when_ok.
  2:{ rewrite result_bind, result_print. apply result_for_each_print. }
  rewrite result_bind. cbv zeta.
  destruct (result (save w timestamp output_file _)) as [[] | e]; [| reflexivity].
  rewrite result_bind, summary_result, Hlen. reflexivity.
Qed.

Lemma result_log_error (w : World) (input_file : text) (e : exn) :
  result (log_error w input_file e)
  = match append_log w with
    | None => Return tt
    | Some refusal => Raise refusal
    end.
Proof. unfold log_error. destruct (append_log w); reflexivity. Qed.

Lemma clean_data_result (w : World) (input_file : text) (output_file : option text)
    (log_errors debug_mode email_only : bool) :
  result (clean_data w input_file output_file log_errors debug_mode email_only) =
  if path_exists w input_file
  then match result (process w input_file (bound_timestamp w output_file)
                       (output_path w input_file output_file)
                       log_errors debug_mode email_only) with
       | Return table => Return table
       | Raise e => Raise (raised w log_errors e)
       end
  else Raise (FileNotFoundError input_file).
Proof.
  unfold clean_data. cbv zeta.
  destruct (path_exists w input_file); [| reflexivity].
  cbn [negb]. rewrite result_try_except.
  destruct (result (process _ _ _ _ _ _ _)) as [a | e]; [reflexivity |].
  rewrite result_bind, result_print, result_bind. unfold raised.
  destruct log_errors; [| reflexivity]. cbn [when].
  rewrite result_log_error. destruct (append_log w); reflexivity.
Qed.

(** ** What a run does besides printing *)

Lemma effects_bind {A B} (m : M A) (k : A -> M B) :
  effects (bind m k) =
  effects m ++ match result m with
               | Return a => effects (k a)
               | Raise _ => []
               end.
Proof.
  unfold effects. rewrite console_bind, filter_app.
  destruct (result m); reflexivity.
Qed.

Lemma effects_try_except {A} (m : M A) (handler : exn -> M A) :
  effects (try_except m handler) =
  effects m ++ match result m with
               | Return _ => []
               | Raise e => effects (handler e)
               end.
Proof.
  unfold effects. destruct m as [out [a | e]]; simpl.
  - rewrite app_nil_r. reflexivity.
  - destruct (handler e). simpl. apply filter_app.
Qed.

Lemma quiet_ret {A} (a : A) : quiet (ret a).
Proof. reflexivity. Qed.

Lemma quiet_raise {A} (e : exn) : quiet (@raise A e).
Proof. reflexivity. Qed.

Lemma quiet_print (m : message) : quiet (print m).
Proof. reflexivity. Qed.

Lemma quiet_bind {A B} (m : M A) (k : A -> M B) :
  quiet m -> (forall a, quiet (k a)) -> quiet (bind m k).
Proof.
  unfold quiet. intros Hm Hk. rewrite effects_bind, Hm.
  destruct (result m); [apply Hk | reflexivity].
Qed.

Lemma quiet_when (b : bool) (m : M unit) : quiet m -> quiet (when b m).
Proof. destruct b; [trivial | intros _; reflexivity]. Qed.

Lemma quiet_for_each {A} (l : list A) (body : A -> M unit) :
  (forall x, quiet (body x)) -> quiet (for_each l body).
Proof.
  intros H. induction l as [| x t IH]; cbn [for_each].
  - apply quiet_ret.
  - apply quiet_bind; [apply H | intros _; exact IH].
Qed.

Lemma quiet_apply_each {A B} (f : A -> M B) (l : list A) :
  (forall x, quiet (f x)) -> quiet (apply_each f l).
Proof.
  intros H. induction l as [| x t IH]; cbn [apply_each].
  - apply quiet_ret.
  - apply quiet_bind; [apply H | intros y].
    apply quiet_bind; [exact IH | intros ys; apply quiet_ret].
Qed.

Ltac quiet_steps :=
  repeat first
    [ apply quiet_ret | apply quiet_raise | apply quiet_print
    | apply quiet_when | apply quiet_for_each; intros
    | apply quiet_apply_each; intros
    | apply quiet_bind; [| intros] ].

Lemma quiet_add_cells (x y : cell) : quiet (add_cells x y).
Proof. destruct x, y; reflexivity. Qed.

Lemma quiet_getitem (df : DataFrame) (label : text) : quiet (getitem df label).
Proof.
  unfold getitem. destruct (positions label (columns df)) as [| j [| j' l]]; reflexivity.
Qed.

Lemma quiet_full_name (df : DataFrame) : quiet (full_name df).
Proof.
  unfold full_name.
  apply quiet_bind; [apply quiet_getitem | intros first].
  apply quiet_bind.
  { unfold add_scalar. destruct (dtype_eqb (dtype_of first) object); [| apply quiet_raise].
    apply quiet_bind; [| intros; apply quiet_ret].
    apply quiet_apply_each. intros x. apply quiet_add_cells. }
  intros spaced. apply quiet_bind; [apply quiet_getitem | intros last].
  unfold add_series. apply quiet_bind; [| intros; apply quiet_ret].
  apply quiet_apply_each. intros xy. apply quiet_add_cells.
Qed.

Lemma quiet_reconcile (df : DataFrame) : quiet (reconcile df).
Proof.
  unfold reconcile. cbv zeta.
  match goal with |- quiet (if ?b then _ else _) => destruct b end; [| apply quiet_ret].
  apply quiet_bind.
  - match goal with |- quiet (if ?b then _ else _) => destruct b end; [| apply quiet_ret].
    apply quiet_bind; [apply quiet_full_name | intros; apply quiet_ret].
  - intros st. destruct (nonempty (snd st)); [apply quiet_raise | apply quiet_ret].
Qed.

Lemma quiet_is_valid_email (debug_mode : bool) (x : cell) :
  quiet (is_valid_email debug_mode x).
Proof.
  unfold is_valid_email. destruct (is_missing x); [apply quiet_ret |].
  destruct (existsb _ disallowed_terms); [apply quiet_ret |]. quiet_steps.
Qed.

Lemma quiet_drop_empty (debug_mode : bool) (col : text) (st : Frame * list text) :
  quiet (drop_empty debug_mode col st).
Proof.
  destruct st as [fr errors]. unfold drop_empty, column_of. cbv zeta.
  apply quiet_bind.
  - destruct (mem col (labels fr)); [apply quiet_ret | apply quiet_raise].
  - intros _. apply quiet_bind; [| intros; apply quiet_ret].
    match goal with |- quiet (if ?b then _ else _) => destruct b end; quiet_steps.
Qed.

Lemma quiet_clean_and_filter (debug_mode : bool) (fr : Frame) (errors : list text) :
  quiet (clean_and_filter debug_mode fr errors).
Proof.
  unfold clean_and_filter. apply quiet_bind.
  { unfold strip_strings. destruct (unique_labels fr); quiet_steps. }
  intros fr'. unfold filter_chain. apply quiet_bind.
  { unfold filter_emails. apply quiet_bind.
    - apply quiet_apply_each. intros x. apply quiet_is_valid_email.
    - intros mask. quiet_steps. }
  intros st1. apply quiet_bind; [apply quiet_drop_empty |].
  intros st2. apply quiet_bind; [apply quiet_drop_empty |].
  intros [fr3 e3]. unfold drop_duplicates.
  match goal with |- quiet (if ?b then _ else _) => destruct b end; quiet_steps.
Qed.

Lemma quiet_plus_one (label : cell) : quiet (plus_one label).
Proof. destruct label; reflexivity. Qed.

Lemma quiet_diagnostic (debug_mode : bool) (l : list Row) :
  quiet (when debug_mode
           (print DiagnosticHeader ;;
            for_each l (fun row => number <- plus_one (idx row) ;;
                                   print (DiagnosticEmail number (email row))))).
Proof.
  apply quiet_when. apply quiet_bind; [apply quiet_print | intros _].
  apply quiet_for_each. intros row.
  apply quiet_bind; [apply quiet_plus_one | intros; apply quiet_print].
Qed.

Lemma quiet_summary (log_errors : bool) (original cleaned : nat) (errors : list text) :
  quiet (summary log_errors original cleaned errors).
Proof.
  unfold summary. quiet_steps.
  destruct (original =? 0); quiet_steps.
Qed.

Lemma effects_process (w : World) (input_file : text) (timestamp : option text)
    (output_file : text) (log_errors debug_mode email_only : bool) :
  effects (process w input_file timestamp output_file log_errors debug_mode email_only) =
  match read_csv w input_file with
  | Raise e => []
  | Return df =>
      match result (reconcile df) with
      | Raise e => []
      | Return df' =>
          if debug_mode && diagnostic_fails (select_required df') then []
          else if unique_labels (select_required df')
          then if len df' =? 0 then []
               else effects (save w timestamp output_file
                               (cleaned_table (stripped (select_required df'))))
          else []
      end
  end.
Proof.
  unfold process. rewrite effects_bind.
  destruct (read_csv w input_file) as [df | e]; [| reflexivity].
  cbn [result snd ret effects console fst filter app].
  rewrite effects_bind, quiet_print, result_print.
  rewrite effects_bind, quiet_print, result_print.
  rewrite effects_bind, quiet_reconcile. cbn [app].
  destruct (result (reconcile df)) as [df' | e] eqn:Hrec; [| reflexivity].
  rewrite effects_bind, quiet_diagnostic, result_when_diagnostic.
  destruct (debug_mode && diagnostic_fails _); [reflexivity |].
  cbn [app]. rewrite effects_bind, quiet_clean_and_filter, clean_and_filter_result.
  destruct (unique_labels (select_required df')); [| reflexivity].
  pose proof (reconcile_returns_required _ _ Hrec) as Ha.
  rewrite selected_rows_nonempty.
  assert (Hname : mem "name" (labels (select_required df')) = true).
  { apply selected_mem; [| apply mem_not_absent; [| exact Ha]]; cbn; tauto. }
  assert (Haddress : mem "address" (labels (select_required df')) = true).
  { apply selected_mem; [| apply mem_not_absent; [| exact Ha]]; cbn; tauto. }
  rewrite Hname, Haddress.
  destruct (len df' =? 0) eqn:Hlen; [reflexivity |]. cbn [negb andb].
  cbn [app]. rewrite effects_bind.
  rewrite (quiet_when debug_mode) by quiet_steps.
  rewrite result_when_ok.
  2:{ rewrite result_bind, result_print. apply result_for_each_print. }
  cbn [app]. rewrite effects_bind.
  destruct (result (save w timestamp output_file _)) as [[] | e];
    [| rewrite app_nil_r; reflexivity].
  rewrite effects_bind, quiet_summary. cbn [app].
  destruct (result (summary _ _ _ _)); [| rewrite app_nil_r; reflexivity].
  cbn [effects console ret fst filter]. rewrite app_nil_r. reflexivity.
Qed.

Lemma effects_clean_data (w : World) (input_file : text) (output_file : option text)
    (log_errors debug_mode email_only : bool) :
  effects (clean_data w input_file output_file log_errors debug_mode email_only) =
  if path_exists w input_file
  then
    let run := process w input_file (bound_timestamp w output_file)
                 (output_path w input_file output_file)
                 log_errors debug_mode email_only in
    effects run ++ match result run with
                   | Return _ => []
                   | Raise e => log_line w log_errors input_file e
                   end
  else [].
Proof.
  unfold clean_data. cbv zeta.
  destruct (path_exists w input_file); [| reflexivity].
  cbn [negb]. rewrite effects_try_except. f_equal.
  destruct (result (process _ _ _ _ _ _ _)) as [a | e]; [reflexivity |].
  unfold log_line, log_error. destruct log_errors; [| reflexivity].
  cbn [when]. destruct (append_log w); reflexivity.
Qed.

(** ** The writer *)

Lemma save_bound_timestamp (w : World) (ts path : text) (fr : Frame) :
  to_csv w path = Some PermissionError ->
  save w (Some ts) path fr =
  match to_csv w (fallback_path ts) with
  | None => ([WriteDenied path PermissionError; WriteCsv (fallback_path ts) fr;
              Print (SavedInstead (fallback_path ts))], Return tt)
  | Some e => ([WriteDenied path PermissionError; WriteDenied (fallback_path ts) e],
               Raise e)
  end.
Proof.
  intros H. unfold save, write. rewrite H. cbv zeta.
  destruct (to_csv w (fallback_path ts)); reflexivity.
Qed.

Lemma save_unbound_timestamp (w : World) (path : text) (fr : Frame) :
  to_csv w path = Some PermissionError ->
  save w None path fr =
  ([WriteDenied path PermissionError], Raise (UnboundLocalError "timestamp")).
Proof. intros H. unfold save, write. rewrite H. reflexivity. Qed.

(** C6, at the failing input: the caller names the output file and the write
    is refused.  The handler of line 179 reads [timestamp], which line 23
    binds only when no output file was given: the run ends in
    UnboundLocalError after the one refused write, and the fallback path is
    never tried. *)
Theorem explicit_output_file_is_not_retried :
  result (clean_data (read_only_world contacts) "contacts.csv"
            (Some ("out.csv" : text)) true false true)
  = Raise (UnboundLocalError "timestamp")
  /\
  effects (clean_data (read_only_world contacts) "contacts.csv"
             (Some ("out.csv" : text)) true false true)
  = [ WriteDenied "out.csv" PermissionError;
      AppendLog "contacts.csv" (UnboundLocalError "timestamp") ].
Proof. split; vm_compute; reflexivity. Qed.

(** With the default output file the refused write is retried once, on the
    fallback path, and a second refusal reaches the caller. *)
Example default_output_file_is_retried_once :
  result (clean_data (read_only_world contacts) "contacts.csv" None true false true)
  = Raise PermissionError
  /\
  effects (clean_data (read_only_world contacts) "contacts.csv" None true false true)
  = [ WriteDenied "contacts.csv_email_only_20240101_120000.csv" PermissionError;
      WriteDenied "email_only_data_20240101_120000.csv" PermissionError;
      AppendLog "contacts.csv" PermissionError ].
Proof. split; vm_compute; reflexivity. Qed.

(** ** An input without data rows *)







(** ** The column reconciler *)

Lemma result_apply_each_inv {A B} (f : A -> M B) (l : list A) (ys : list B) :
  result (apply_each f l) = Return ys ->
  Forall2 (fun x y => result (f x) = Return y) l ys.
Proof.
  revert ys. induction l as [| x t IH]; intros ys; cbn [apply_each].
  - intros H. injection H as <-. constructor.
  - rewrite result_bind. destruct (result (f x)) as [y |] eqn:Hy; [| discriminate].
    rewrite result_bind. destruct (result (apply_each f t)) as [ys' |] eqn:Hys; [| discriminate].
    intros H. injection H as <-. constructor; [exact Hy | apply IH; reflexivity].
Qed.

Lemma full_name_cells (df : DataFrame) (j1 j2 : nat) (full : Series) :
  positions "first_name" (columns df) = [j1] ->
  positions "last_name" (columns df) = [j2] ->
  result (full_name df) = Return full ->
  full = {| dtype_of := object;
            values := map (fun r => joined (cell_at j1 r) (cell_at j2 r)) (data df) |}.
Proof.
  intros H1 H2. unfold full_name, getitem. rewrite H1, H2.
  rewrite result_bind. cbn [result snd ret].
  rewrite result_bind. unfold add_scalar at 1.
  cbn [dtype_of column_at].
  destruct (dtype_eqb (nth j1 (dtypes df) object) object); [| discriminate].
  rewrite result_bind.
  destruct (result (apply_each _ (values (column_at df j1)))) as [vs |] eqn:Hvs; [| discriminate].
  cbn [result snd ret]. rewrite result_bind. cbn [result snd ret].
  unfold add_series. rewrite result_bind. cbn [values column_at].
  destruct (result (apply_each _ (combine vs _))) as [ws |] eqn:Hws; [| discriminate].
  cbn [result snd ret]. intros H. injection H as <-. f_equal.
  apply result_apply_each_inv in Hvs. apply result_apply_each_inv in Hws.
  cbn [values column_at] in Hvs.
  clear H1 H2. revert vs ws Hvs Hws.
  induction (data df) as [| r rs IH]; intros vs ws Hvs Hws.
  - inversion Hvs; subst. inversion Hws; subst. reflexivity.
  - cbn [map] in *. inversion Hvs as [| x v xs vs' Hx Hxs]; subst.
    cbn [combine] in Hws. inversion Hws as [| p y ps ws' Hp Hps]; subst.
    cbn [map]. f_equal; [| apply (IH vs'); assumption].
    cbn [fst snd] in Hp. unfold joined.
    destruct (cell_at j1 r) as [| a | z]; cbn in Hx.
    + injection Hx as <-. cbn in Hp. injection Hp as <-. reflexivity.
    + injection Hx as <-. destruct (cell_at j2 r) as [| b | z]; cbn in Hp.
      * injection Hp as <-. reflexivity.
      * injection Hp as <-. rewrite <- app_assoc. reflexivity.
      * discriminate.
    + discriminate.
Qed.

(** What the reconciler does, case by case.  It lower-cases and trims the
    header and applies the alias map.  When [name] is then missing and
    [first_name] and [last_name] are present it computes
    [first_name + " " + last_name]; if that raises, the run fails with that
    exception; otherwise the result becomes the new column [name].  In every
    other case, and after a successful synthesis, the run fails with
    MissingColumnsError, naming every required column still missing, exactly
    when one is.  On success the synthesised cell of a row is the two texts
    joined by a space, and NaN where either is missing. *)
Lemma reconcile_spec (df : DataFrame) :
  let header := map (fun col => rename column_renames (strip (lower col))) (columns df) in
  let renamed := with_columns df header in
  let missing (cols : list text) :=
    filter (fun col => negb (mem col cols)) required_columns in
  result (reconcile df) =
    (if mem "name" (missing header) && mem "first_name" header && mem "last_name" header
     then match result (full_name renamed) with
          | Raise e => Raise e
          | Return full =>
              if nonempty (missing (header ++ [("name" : text)]))
              then Raise (MissingColumnsError (missing (header ++ [("name" : text)])))
              else Return (setitem_new renamed "name" full)
          end
     else if nonempty (missing header) then Raise (MissingColumnsError (missing header))
     else Return renamed)
  /\
  forall j1 j2 full,
    positions "first_name" header = [j1] ->
    positions "last_name" header = [j2] ->
    result (full_name renamed) = Return full ->
    full = {| dtype_of := object;
              values := map (fun r => joined (cell_at j1 r) (cell_at j2 r)) (data df) |}.
Proof.
  cbv zeta. split.
  - rewrite reconcile_result. reflexivity.
  - intros j1 j2 full H1 H2 H.
    exact (full_name_cells (with_columns df (reconciled_header df)) j1 j2 full H1 H2 H).
Qed.

(** C3, at the failing input: [first_name] holds numbers, [last_name] holds
    text, and [phone] is missing.  Line 67 adds the two columns as they are,
    without the [str] of lines 86, 94, 107 and 115: a number plus a string
    raises TypeError, no name is synthesised, and the run ends in that
    error, not in MissingColumnsError naming [phone]. *)
Theorem numeric_first_name_is_not_joined :
  absent (reconciled_header numbered_first_names) = [ "name" : text; "phone" : text ]
  /\ result (reconcile numbered_first_names) = Raise TypeError
  /\ result (clean_data (world_of numbered_first_names) "names.csv" None
               false false true)
     = Raise TypeError.
Proof. repeat split; vm_compute; reflexivity. Qed.

(** The scenarios of the specification: names are built from the two parts,
    and a missing [phone] is reported. *)
Example name_is_synthesised :
  result (reconcile
            {| columns := [ "First_Name " : text; "last_name" : text; "E-Mail" : text;
                            "Mobile" : text; "Location" : text ];
               dtypes := [ object; object; object; int64; object ];
               index := [];
               data := [ [ Str "Ana"; Str "Cruz"; Str "ana@x.com"; Int 5; Str "Cebu" ];
                         [ Str "Ben"; NaN; Str "ben@x.com"; Int 6; Str "Cebu" ] ] |})
  = Return
      {| columns := [ "first_name" : text; "last_name" : text; "email" : text;
                      "phone" : text; "address" : text; "name" : text ];
         dtypes := [ object; object; object; int64; object; object ];
         index := [];
         data := [ [ Str "Ana"; Str "Cruz"; Str "ana@x.com"; Int 5; Str "Cebu";
                     Str "Ana Cruz" ];
                   [ Str "Ben"; NaN; Str "ben@x.com"; Int 6; Str "Cebu"; NaN ] ] |}.
Proof. vm_compute. reflexivity. Qed.

Example missing_phone_is_reported :
  result (reconcile
            {| columns := [ "name" : text; "email" : text; "address" : text ];
               dtypes := [ object; object; object ];
               index := [];
               data := [ [ Str "Ana"; Str "ana@x.com"; Str "Cebu" ] ] |})
  = Raise (MissingColumnsError [ "phone" : text ]).
Proof. vm_compute. reflexivity. Qed.

(** ** Trimming and case *)

Lemma lstrip_snoc (u : text) (c : ascii) :
  lstrip (u ++ [c]) =
  match lstrip u with
  | [] => if isspace c then [] else [c]
  | l => l ++ [c]
  end.
Proof.
  induction u as [| d u IH]; simpl.
  - destruct (isspace c); reflexivity.
  - destruct (isspace d); [exact IH | reflexivity].
Qed.

Lemma rstrip_cons (c : ascii) (t : text) :
  rstrip (c :: t) =
  match rstrip t with
  | [] => if isspace c then [] else [c]
  | l => c :: l
  end.
Proof.
  unfold rstrip. cbn [rev]. rewrite lstrip_snoc.
  destruct (lstrip (rev t)) as [| d l] eqn:H.
  - simpl. destruct (isspace c); reflexivity.
  - rewrite rev_app_distr. simpl.
    destruct (rev l ++ [d]) eqn:H'; [destruct (rev l); discriminate | reflexivity].
Qed.

Lemma lstrip_no_leading (s : text) : no_leading_space (lstrip s).
Proof.
  induction s as [| c s IH]; simpl; [exact I |].
  destruct (isspace c) eqn:H; [exact IH | exact H].
Qed.

Lemma lstrip_fixed (s : text) : no_leading_space s -> lstrip s = s.
Proof. destruct s as [| c s]; simpl; [reflexivity | intros ->; reflexivity]. Qed.

Lemma rstrip_fixed (s : text) : no_trailing_space s -> rstrip s = s.
Proof.
  unfold rstrip, no_trailing_space. intros H.
  rewrite lstrip_fixed by exact H. apply rev_involutive.
Qed.

Lemma rstrip_no_trailing (s : text) : no_trailing_space (rstrip s).
Proof.
  unfold no_trailing_space, rstrip. rewrite rev_involutive. apply lstrip_no_leading.
Qed.

Lemma rstrip_keeps_no_leading (s : text) :
  no_leading_space s -> no_leading_space (rstrip s).
Proof.
  destruct s as [| c s]; [intros _; exact I |].
  simpl. intros H. rewrite rstrip_cons.
  destruct (rstrip s); [rewrite H |]; exact H.
Qed.

Lemma strip_no_leading (s : text) : no_leading_space (strip s).
Proof. apply rstrip_keeps_no_leading, lstrip_no_leading. Qed.

Lemma strip_no_trailing (s : text) : no_trailing_space (strip s).
Proof. apply rstrip_no_trailing. Qed.

Lemma strip_fixed (s : text) :
  no_leading_space s -> no_trailing_space s -> strip s = s.
Proof.
  intros H1 H2. unfold strip. rewrite lstrip_fixed by exact H1.
  apply rstrip_fixed, H2.
Qed.

Lemma strip_idem (s : text) : strip (strip s) = strip s.
Proof. apply strip_fixed; [apply strip_no_leading | apply strip_no_trailing]. Qed.

Lemma lower_char_idem (c : ascii) : lower_char (lower_char c) = lower_char c.
Proof. destruct c as [[] [] [] [] [] [] [] []]; reflexivity. Qed.

Lemma lower_idem (s : text) : lower (lower s) = lower s.
Proof.
  unfold lower. rewrite map_map. apply map_ext. intros c. apply lower_char_idem.
Qed.

(** ** What the surviving rows satisfy *)

Lemma existsb_cell_eqb (x : cell) (seen : list cell) :
  existsb (cell_eqb x) seen = true <-> In x seen.
Proof.
  rewrite existsb_exists. unfold cell_eqb. split.
  - intros [y [Hin H]]. destruct (cell_eq_dec x y); [subst; exact Hin | discriminate].
  - intros H. exists x. split; [exact H |].
    destruct (cell_eq_dec x x); [reflexivity | contradiction].
Qed.

Lemma first_occurrences_In (seen : list cell) (rs : list Row) (r : Row) :
  In r (first_occurrences seen rs) -> In r rs /\ ~ In (email r) seen.
Proof.
  revert seen. induction rs as [| r' rs IH]; intros seen; simpl; [tauto |].
  destruct (existsb (cell_eqb (email r')) seen) eqn:H.
  - intros Hin. destruct (IH _ Hin). tauto.
  - intros [<- | Hin].
    + split; [left; reflexivity |].
      rewrite <- existsb_cell_eqb, H. discriminate.
    + destruct (IH _ Hin) as [H1 H2]. split; [right; exact H1 |].
      intros Hs. apply H2. right. exact Hs.
Qed.

Lemma first_occurrences_NoDup (seen : list cell) (rs : list Row) :
  NoDup (map email (first_occurrences seen rs)).
Proof.
  revert seen. induction rs as [| r rs IH]; intros seen; simpl; [constructor |].
  destruct (existsb (cell_eqb (email r)) seen); [apply IH |].
  simpl. constructor; [| apply IH].
  rewrite in_map_iff. intros [r' [He Hin]].
  apply first_occurrences_In in Hin. destruct Hin as [_ Hn].
  apply Hn. left. symmetry. exact He.
Qed.

Lemma chain_rows_In (rs : list Row) (r : Row) :
  In r (chain_rows rs) ->
  In r rs /\ valid_email (email r) = true
  /\ filled "name" r = true /\ filled "address" r = true.
Proof.
  unfold chain_rows, email_stage_rows. intros H.
  apply first_occurrences_In in H. destruct H as [H _].
  rewrite !filter_In in H. tauto.
Qed.

Lemma filled_spec (col : text) (r : Row) :
  filled col r = true <-> strip (str (field col r)) <> [].
Proof.
  unfold filled. rewrite negb_true_iff. apply text_eqb_neq.
Qed.

Lemma valid_object_email (x : cell) :
  valid_email (lower_unless_nan (astype_str_strip x)) = true ->
  exists e,
    lower_unless_nan (astype_str_strip x) = Str e
    /\ re_match email_pattern e = true.
Proof.
  unfold astype_str_strip, lower_unless_nan.
  destruct (text_eqb (strip (str x)) "nan") eqn:Hnan.
  - apply text_eqb_eq in Hnan. rewrite Hnan. vm_compute. discriminate.
  - intros H. exists (lower (strip (str x))). split; [reflexivity |].
    apply valid_email_spec in H. destruct H as [_ [H _]]. cbn [str] in H.
    rewrite lower_idem, strip_lower, strip_idem in H. exact H.
Qed.

(** ** The labels of the output *)

Lemma filter_label_repeat (col : text) (cols : list text) :
  filter (text_eqb col) cols = repeat col (count_label col cols).
Proof.
  unfold count_label. induction cols as [| c cols IH]; simpl; [reflexivity |].
  destruct (text_eqb col c) eqn:H; [| exact IH].
  apply text_eqb_eq in H. subst c. simpl. f_equal. exact IH.
Qed.

Lemma count_label_app (col : text) (a b : list text) :
  count_label col (a ++ b) = count_label col a + count_label col b.
Proof. unfold count_label. rewrite filter_app, length_app. reflexivity. Qed.

Lemma count_label_repeat (col c : text) (k : nat) :
  count_label col (repeat c k) = if text_eqb col c then k else 0.
Proof.
  unfold count_label. induction k as [| k IH]; simpl.
  - destruct (text_eqb col c); reflexivity.
  - destruct (text_eqb col c); simpl; rewrite IH; reflexivity.
Qed.

Lemma mem_count_label (col : text) (cols : list text) :
  mem col cols = true -> 1 <= count_label col cols.
Proof.
  unfold mem, count_label. induction cols as [| c cols IH]; simpl; [discriminate |].
  destruct (text_eqb col c); simpl; [lia | exact IH].
Qed.

Lemma absent_nil (cols : list text) :
  absent cols = [] ->
  mem "name" cols = true /\ mem "email" cols = true
  /\ mem "phone" cols = true /\ mem "address" cols = true.
Proof.
  unfold absent, required_columns. cbn [filter].
  destruct (mem "name" cols), (mem "email" cols), (mem "phone" cols),
    (mem "address" cols); cbn; intros H; try discriminate; auto.
Qed.

Lemma selected_labels (df : DataFrame) :
  absent (columns df) = [] ->
  unique_labels (select_required df) = true ->
  labels (select_required df) = required_columns.
Proof.
  intros Habs Huniq. apply absent_nil in Habs.
  destruct Habs as [Hn [He [Hp Ha]]].
  apply mem_count_label in Hn, He, Hp, Ha.
  unfold unique_labels in Huniq. rewrite forallb_forall in Huniq.
  unfold select_required in *. cbn [labels] in *.
  unfold required_columns in *. cbn [flat_map] in *.
  rewrite app_nil_r in *. rewrite !filter_label_repeat in *.
  set (kn := count_label "name" (columns df)) in *.
  set (ke := count_label "email" (columns df)) in *.
  set (kp := count_label "phone" (columns df)) in *.
  set (ka := count_label "address" (columns df)) in *.
  assert (Hcn := Huniq ("name" : text)).
  assert (Hce := Huniq ("email" : text)).
  assert (Hcp := Huniq ("phone" : text)).
  assert (Hca := Huniq ("address" : text)).
  rewrite !count_label_app, !count_label_repeat in Hcn, Hce, Hcp, Hca.
  cbn in Hcn, Hce, Hcp, Hca.
  rewrite Nat.eqb_eq in Hcn, Hce, Hcp, Hca.
  assert (Hin : forall (c : text) k, 1 <= k -> In c (repeat c k)).
  { intros c [| k] Hk; [lia | left; reflexivity]. }
  assert (kn = 1).
  { assert (E : kn + 0 = 1) by (apply Hcn; rewrite !in_app_iff; auto). lia. }
  assert (ke = 1).
  { assert (E : ke + 0 = 1) by (apply Hce; rewrite !in_app_iff; auto). lia. }
  assert (kp = 1).
  { assert (E : kp + 0 = 1) by (apply Hcp; rewrite !in_app_iff; auto). lia. }
  assert (ka = 1).
  { apply Hca. rewrite !in_app_iff. auto. }
  replace kn with 1 by lia. replace ke with 1 by lia.
  replace kp with 1 by lia. replace ka with 1 by lia. reflexivity.
Qed.

(** ** A run that completes *)

Lemma clean_data_returns (w : World) (input_file : text) (output_file : option text)
    (log_errors debug_mode email_only : bool) (out : Frame) :
  result (clean_data w input_file output_file log_errors debug_mode email_only)
  = Return out ->
  exists df df',
    read_csv w input_file = Return df
    /\ result (reconcile df) = Return df'
    /\ unique_labels (select_required df') = true
    /\ len df' <> 0
    /\ out = cleaned_table (stripped (select_required df')).
Proof.
  rewrite clean_data_result.
  destruct (path_exists w input_file); [| discriminate].
  rewrite process_result.
  destruct (read_csv w input_file) as [df |]; [| discriminate].
  destruct (result (reconcile df)) as [df' |] eqn:Hrec; [| discriminate].
  destruct (debug_mode && diagnostic_fails _); [discriminate |].
  destruct (unique_labels (select_required df')) eqn:Huniq; [| discriminate].
  destruct (len df' =? 0) eqn:Hlen; [discriminate |].
  cbv zeta. destruct (result (save _ _ _ _)) as [[] |]; [| discriminate].
  intros H. injection H as <-. exists df, df'.
  apply Nat.eqb_neq in Hlen. repeat split; auto.
Qed.

Lemma cleaned_table_rows (fr : Frame) (r : Row) :
  In r (rows (cleaned_table (stripped fr))) ->
  exists r0,
    In r0 (rows fr)
    /\ name r = Str (clean_name (strip_column (name_dtype fr) (name r0)))
    /\ email r = lower_unless_nan (strip_column (email_dtype fr) (email r0))
    /\ phone r = strip_column (phone_dtype fr) (phone r0)
    /\ address r = Str (clean_address (strip_column (address_dtype fr) (address r0)))
    /\ valid_email (email r) = true
    /\ filled "name" r = true
    /\ filled "address" r = true.
Proof.
  unfold cleaned_table. cbn [rows with_rows]. intros H.
  apply chain_rows_In in H. destruct H as [Hin [Hv [Hn Ha]]].
  unfold clean_fields, stripped in Hin. cbn [rows with_rows] in Hin.
  rewrite map_map in Hin. apply in_map_iff in Hin.
  destruct Hin as [r0 [<- Hin]]. exists r0. cbn [name email phone address] in *.
  repeat split; assumption.
Qed.

(** C2.  When a run returns a table, the labels of the table are [name],
    [email], [phone], [address] in that order, and every row of it has an
    email that is not missing and whose lower-cased and trimmed text matches
    the pattern (the cell itself, when the email column is an object
    column), a name and an address that are not empty once trimmed, and an
    email that no other row of the table has. *)
Theorem output_invariants (w : World) (input_file : text) (output_file : option text)
    (log_errors debug_mode email_only : bool) (out : Frame) :
  result (clean_data w input_file output_file log_errors debug_mode email_only)
  = Return out ->
  labels out = required_columns
  /\ (forall r, In r (rows out) ->
        is_missing (email r) = false
        /\ re_match email_pattern (strip (lower (str (email r)))) = true
        /\ (email_dtype out = object ->
            exists e, email r = Str e /\ re_match email_pattern e = true)
        /\ strip (str (name r)) <> []
        /\ strip (str (address r)) <> [])
  /\ NoDup (map email (rows out)).
Proof.
  intros H. apply clean_data_returns in H.
  destruct H as [df [df' [_ [Hrec [Huniq [_ ->]]]]]].
  split; [| split].
  - unfold cleaned_table, stripped. cbn [labels with_rows clean_fields].
    apply selected_labels; [| exact Huniq].
    apply (reconcile_returns_required df). exact Hrec.
  - intros r Hin. apply cleaned_table_rows in Hin.
    destruct Hin as [r0 [_ [_ [He [_ [_ [Hv [Hn Ha]]]]]]]].
    pose proof Hv as Hv'. apply valid_email_spec in Hv'. destruct Hv' as [Hm [Hp _]].
    apply filled_spec in Hn, Ha. rewrite field_name in Hn. rewrite field_address in Ha.
    repeat split; try assumption.
    unfold cleaned_table, stripped. cbn [email_dtype with_rows clean_fields].
    intros Hd. rewrite He in *. unfold strip_column in *. rewrite Hd in *.
    cbn [dtype_eqb] in *. apply valid_object_email. exact Hv.
  - unfold cleaned_table. cbn [rows with_rows]. unfold chain_rows.
    apply first_occurrences_NoDup.
Qed.

Lemma output_invariants_witness :
  labels contacts_output = required_columns
  /\ (forall r, In r (rows contacts_output) ->
        is_missing (email r) = false
        /\ re_match email_pattern (strip (lower (str (email r)))) = true
        /\ (email_dtype contacts_output = object ->
            exists e, email r = Str e /\ re_match email_pattern e = true)
        /\ strip (str (name r)) <> []
        /\ strip (str (address r)) <> [])
  /\ NoDup (map email (rows contacts_output)).
Proof.
  apply (output_invariants (world_of contacts) "contacts.csv" None true false true).
  vm_compute. reflexivity.
Defined.

(** ** The phone column *)

Lemma cons_eq_inv {A} (a b : A) (l1 l2 : list A) :
  a :: l1 = b :: l2 -> a = b /\ l1 = l2.
Proof. intros H. injection H as -> ->. split; reflexivity. Qed.

Section Erasure.

(** [erase] blanks a field the chain does not read: it leaves the name, the
    email and the address of a row. *)
Variable erase : Row -> Row.
Hypothesis erase_name : forall r, name (erase r) = name r.
Hypothesis erase_email : forall r, email (erase r) = email r.
Hypothesis erase_address : forall r, address (erase r) = address r.








End Erasure.




(** ** The matcher on the patterns of the cleaners *)

Lemma lstrip_drop_while (s : text) : lstrip s = drop_while isspace s.
Proof. induction s as [| c s IH]; simpl; [| rewrite IH]; reflexivity. Qed.

Lemma drop_while_length (cls : ascii -> bool) (s : text) :
  List.length (drop_while cls s) <= List.length s.
Proof.
  induction s as [| c s IH]; simpl; [lia |].
  destruct (cls c); simpl; lia.
Qed.

Lemma lstrip_length (s : text) : List.length (lstrip s) <= List.length s.
Proof. rewrite lstrip_drop_while. apply drop_while_length. Qed.

(** A greedy star first offers what is left after the longest run; every
    other offer still starts with a character of the class. *)
Lemma star_rests_shape (cls : ascii -> bool) (s : text) :
  exists others,
    star_rests cls s = drop_while cls s :: others
    /\ Forall (fun t => exists c t', t = c :: t' /\ cls c = true) others.
Proof.
  induction s as [| c s [others [IH1 IH2]]]; simpl.
  - exists []. split; [reflexivity | constructor].
  - destruct (cls c) eqn:Hc.
    + exists (others ++ [c :: s]). split; [rewrite IH1; reflexivity |].
      apply Forall_app. split; [exact IH2 |].
      constructor; [| constructor]. exists c, s. split; [reflexivity | exact Hc].
    + exists []. split; [reflexivity | constructor].
Qed.

Lemma flat_map_all_nil {A B} (f : A -> list B) (l : list A) :
  Forall (fun x => f x = []) l -> flat_map f l = [].
Proof.
  induction 1 as [| x l Hx _ IH]; simpl; [reflexivity |].
  rewrite Hx, IH. reflexivity.
Qed.

Lemma flat_map_rests_nil (l : list text) : flat_map (rests []) l = l.
Proof.
  induction l as [| x l IH]; [reflexivity |].
  cbn [flat_map]. rewrite IH. reflexivity.
Qed.

Lemma rests_single (i : item) (s : text) : rests [i] s = item_rests i s.
Proof. cbn [rests]. apply flat_map_rests_nil. Qed.

Lemma rests_comma_then_spaces (t : text) :
  rests [One (is_char ","); AtLeast 0 isspace] t =
  match t with
  | c :: u => if is_char "," c then star_rests isspace u else []
  | [] => []
  end.
Proof.
  change (rests [One (is_char ","); AtLeast 0 isspace] t)
    with (flat_map (rests [AtLeast 0 isspace]) (item_rests (One (is_char ",")) t)).
  cbn [item_rests]. destruct t as [| c u]; [reflexivity |].
  destruct (is_char "," c); [| reflexivity].
  cbn [flat_map]. rewrite app_nil_r. apply rests_single.
Qed.

Lemma space_is_not_comma (c : ascii) : isspace c = true -> is_char "," c = false.
Proof.
  destruct c as [[] [] [] [] [] [] [] []]; vm_compute; intros H;
    first [reflexivity | discriminate].
Qed.

(** How [\s*,\s*] matches at the head of [s]: the white space, if any, must
    be followed by a comma, and the match runs to the end of the white space
    after it. *)
Lemma rests_comma_spacing (s : text) :
  rests comma_spacing_re s =
  match lstrip s with
  | c :: u => if is_char "," c then star_rests isspace u else []
  | [] => []
  end.
Proof.
  change (rests comma_spacing_re s)
    with (flat_map (rests [One (is_char ","); AtLeast 0 isspace]) (star_rests isspace s)).
  destruct (star_rests_shape isspace s) as [others [-> Hothers]].
  cbn [flat_map]. rewrite <- lstrip_drop_while.
  rewrite (flat_map_all_nil _ others).
  - rewrite app_nil_r. apply rests_comma_then_spaces.
  - eapply Forall_impl; [| exact Hothers].
    intros t [c [t' [-> Hc]]]. rewrite rests_comma_then_spaces.
    rewrite (space_is_not_comma c Hc). reflexivity.
Qed.

(** Enough fuel: the scan of [re_sub_from] never stops short. *)
Lemma re_sub_from_fuel (r : regex) (repl : text) (n m : nat) (s : text) :
  List.length s <= n -> List.length s <= m ->
  re_sub_from n r repl s = re_sub_from m r repl s.
Proof.
  revert m s. induction n as [| n IH]; intros m s Hn Hm.
  - destruct s; [destruct m; reflexivity | simpl in Hn; lia].
  - destruct s as [| c t]; [destruct m; reflexivity |].
    destruct m as [| m]; [simpl in Hm; lia |].
    cbn [re_sub_from]. simpl in Hn, Hm.
    destruct (rests r (c :: t)) as [| rest l].
    + f_equal. apply IH; lia.
    + destruct (List.length rest <? List.length (c :: t)) eqn:Hlt.
      * apply Nat.ltb_lt in Hlt. simpl in Hlt. f_equal. apply IH; lia.
      * f_equal. apply IH; lia.
Qed.

Lemma re_sub_cons (r : regex) (repl : text) (c : ascii) (t : text) :
  re_sub r repl (c :: t) =
  match rests r (c :: t) with
  | rest :: _ =>
      if List.length rest <? List.length (c :: t)
      then repl ++ re_sub r repl rest
      else c :: re_sub r repl t
  | [] => c :: re_sub r repl t
  end.
Proof.
  unfold re_sub at 1. cbn [List.length re_sub_from].
  destruct (rests r (c :: t)) as [| rest l]; [reflexivity |].
  destruct (List.length rest <? S (List.length t)) eqn:Hlt; [| reflexivity].
  apply Nat.ltb_lt in Hlt. f_equal. apply re_sub_from_fuel; lia.
Qed.

(** [re.sub(r'\s*,\s*', ', ', s)], one step. *)
Lemma re_sub_comma_spacing_cons (c : ascii) (t : text) :
  re_sub comma_spacing_re ", " (c :: t) =
  match lstrip (c :: t) with
  | d :: u =>
      if is_char "," d
      then (", " : text) ++ re_sub comma_spacing_re ", " (lstrip u)
      else c :: re_sub comma_spacing_re ", " t
  | [] => c :: re_sub comma_spacing_re ", " t
  end.
Proof.
  rewrite re_sub_cons, rests_comma_spacing.
  pose proof (lstrip_length (c :: t)) as Hlen.
  destruct (lstrip (c :: t)) as [| d u]; [reflexivity |].
  destruct (is_char "," d); [| reflexivity].
  destruct (star_rests_shape isspace u) as [others [-> _]].
  rewrite <- lstrip_drop_while.
  pose proof (lstrip_length u) as Hu.
  assert (Hlt : (List.length (lstrip u) <? List.length (c :: t)) = true).
  { apply Nat.ltb_lt. simpl in *. lia. }
  rewrite Hlt. reflexivity.
Qed.

(** [re.sub(cls+, repl, s)], one step. *)
Lemma re_sub_run_cons (cls : ascii -> bool) (repl : text) (c : ascii) (t : text) :
  re_sub [AtLeast 1 cls] repl (c :: t) =
  if cls c then repl ++ re_sub [AtLeast 1 cls] repl (drop_while cls t)
  else c :: re_sub [AtLeast 1 cls] repl t.
Proof.
  rewrite re_sub_cons, rests_single. cbn [item_rests repeat_rests].
  destruct (cls c); [| reflexivity].
  destruct (star_rests_shape cls t) as [others [-> _]].
  pose proof (drop_while_length cls t) as Hlen.
  assert (Hlt : (List.length (drop_while cls t) <? List.length (c :: t)) = true).
  { apply Nat.ltb_lt. simpl. lia. }
  rewrite Hlt. reflexivity.
Qed.

(** ** The address cleaner is the pass *)

Lemma normalize_cons (c : ascii) (t : text) :
  normalize (c :: t) =
  if isspace c then normalize t
  else c :: match t with
            | [] => []
            | d :: _ =>
                if isspace d
                then match split t with
                     | [] => []
                     | _ => " "%char :: normalize t
                     end
                else normalize t
            end.
Proof.
  unfold normalize. cbn [split].
  destruct (isspace c); [reflexivity |].
  destruct t as [| d t']; [reflexivity |].
  destruct (isspace d).
  - cbn [join]. destruct (split (d :: t')); reflexivity.
  - destruct (split (d :: t')) as [| w ws]; [reflexivity |].
    cbn [cons_head join]. destruct ws; reflexivity.
Qed.

Lemma normalize_nil_iff (s : text) : normalize s = [] <-> split s = [].
Proof.
  induction s as [| c t IH]; [split; reflexivity |].
  rewrite normalize_cons. cbn [split].
  destruct (isspace c); [exact IH |].
  split; [discriminate |].
  destruct t as [| d t']; [discriminate |].
  destruct (isspace d); [discriminate |].
  destruct (split (d :: t')); discriminate.
Qed.

Lemma normalize_shape (s : text) :
  single_spaced (normalize s) /\ no_leading_space (normalize s).
Proof.
  induction s as [| c t [IH1 IH2]]; [split; exact I |].
  rewrite normalize_cons.
  destruct (isspace c) eqn:Hc; [split; assumption |].
  split; [| exact Hc].
  cbn [single_spaced]. split; [congruence |].
  destruct t as [| d t']; [exact I |].
  destruct (isspace d).
  - destruct (split (d :: t')) eqn:Hs; [exact I |].
    cbn [single_spaced]. split; [| exact IH1].
    intros _. split; [reflexivity |]. split; [| exact IH2].
    rewrite normalize_nil_iff, Hs. discriminate.
  - exact IH1.
Qed.

Lemma tidy_no_leading (s : text) :
  no_leading_space s -> tidy InWord s = tidy AfterComma s.
Proof.
  destruct s as [| c t]; [reflexivity |]. cbn. intros ->. reflexivity.
Qed.

Lemma tidy_spaces (q : scan) (s : text) : split s = [] -> tidy q s = [].
Proof.
  revert q. induction s as [| c t IH]; intros q; [reflexivity |].
  cbn [split tidy]. destruct (isspace c) eqn:Hc.
  - intros H. rewrite (space_is_not_comma c Hc). destruct q; apply IH, H.
  - destruct t as [| d t']; [discriminate |].
    destruct (isspace d); [discriminate |].
    destruct (split (d :: t')); discriminate.
Qed.

(** The pass does not see the difference between a text and its
    normalisation. *)
Lemma tidy_normalize (s : text) :
  tidy AfterComma (normalize s) = tidy AfterComma s
  /\ tidy AfterSpace (normalize s) = tidy AfterSpace s
  /\ (no_leading_space s -> tidy InWord (normalize s) = tidy InWord s).
Proof.
  induction s as [| c t [IHc [IHs IHw]]]; [repeat split |].
  rewrite normalize_cons. destruct (isspace c) eqn:Hc.
  - cbn [tidy no_leading_space]. rewrite (space_is_not_comma c Hc), Hc.
    repeat split; try assumption. congruence.
  - assert (Htail :
      forall X, X = match t with
                    | [] => []
                    | d :: _ =>
                        if isspace d
                        then match split t with
                             | [] => []
                             | _ => " "%char :: normalize t
                             end
                        else normalize t
                    end ->
      tidy AfterComma X = tidy AfterComma t /\ tidy InWord X = tidy InWord t).
    { intros X ->. destruct t as [| d t']; [split; reflexivity |].
      destruct (isspace d) eqn:Hd.
      - destruct (split (d :: t')) eqn:Hs.
        + rewrite (tidy_spaces AfterComma _ Hs), (tidy_spaces InWord _ Hs).
          split; reflexivity.
        + cbn [tidy]. change (is_char "," " ") with false.
          change (isspace " ") with true. cbv iota.
          rewrite IHc, IHs. split; [reflexivity |].
          cbn [tidy]. rewrite (space_is_not_comma d Hd), Hd. reflexivity.
      - split; [exact IHc | apply IHw; exact Hd]. }
    destruct (Htail _ eq_refl) as [Hc' Hw'].
    cbn [tidy]. rewrite Hc. destruct (is_char "," c); rewrite ?Hc', ?Hw';
      repeat split; reflexivity.
Qed.

Lemma single_spaced_lstrip (n : text) : single_spaced n -> single_spaced (lstrip n).
Proof.
  induction n as [| c t IH]; [trivial |].
  cbn [lstrip]. destruct (isspace c); [| trivial].
  intros [_ H]. apply IH, H.
Qed.

Lemma tidy_lstrip (s : text) : tidy AfterComma (lstrip s) = tidy AfterComma s.
Proof.
  induction s as [| c t IH]; [reflexivity |].
  cbn [lstrip]. destruct (isspace c) eqn:Hc; [| reflexivity].
  cbn [tidy]. rewrite (space_is_not_comma c Hc), Hc. exact IH.
Qed.

(** On single-spaced text the substitution of line 116 is the pass. *)
Lemma re_sub_comma_spacing_tidy (n : text) :
  single_spaced n -> re_sub comma_spacing_re ", " n = tidy InWord n.
Proof.
  remember (List.length n) as k eqn:Hk. revert n Hk.
  induction k as [k IH] using lt_wf_ind. intros n Hk Hn.
  destruct n as [| c t]; [reflexivity |].
  rewrite re_sub_comma_spacing_cons. cbn [single_spaced] in Hn.
  destruct Hn as [Hc Ht]. cbn [lstrip].
  assert (Hafter : forall u, single_spaced u -> List.length u <= List.length t ->
            re_sub comma_spacing_re ", " (lstrip u) = tidy AfterComma u).
  { intros u Hu Hlen. rewrite <- tidy_lstrip, <- tidy_no_leading by apply lstrip_no_leading.
    pose proof (lstrip_length u).
    apply (IH (List.length (lstrip u))); [subst k; simpl; lia | reflexivity |].
    apply single_spaced_lstrip, Hu. }
  destruct (isspace c) eqn:Hsp.
  - destruct (Hc eq_refl) as [-> [Hne Hlead]].
    destruct t as [| d t']; [contradiction |].
    cbn [no_leading_space] in Hlead. cbn [lstrip]. rewrite Hlead.
    cbn [tidy]. change (is_char "," " ") with false. change (isspace " ") with true.
    cbv iota. rewrite Hlead.
    cbn [single_spaced] in Ht. destruct Ht as [_ Ht'].
    destruct (is_char "," d) eqn:Hd.
    + rewrite Hafter; [reflexivity | exact Ht' | simpl; lia].
    + rewrite re_sub_comma_spacing_cons. cbn [lstrip]. rewrite Hlead, Hd.
      rewrite (IH (List.length t')); [reflexivity | subst k; simpl; lia | reflexivity |].
      exact Ht'.
  - cbn [tidy]. rewrite Hsp. destruct (is_char "," c) eqn:Hcm.
    + rewrite Hafter; [reflexivity | exact Ht | lia].
    + rewrite (IH (List.length t)); [reflexivity | subst k; simpl; lia | reflexivity |].
      exact Ht.
Qed.

Lemma drop_while_head (cls : ascii -> bool) (c : ascii) (t : text) :
  cls c = false -> drop_while cls (c :: t) = c :: t.
Proof. intros H. cbn. rewrite H. reflexivity. Qed.

(** Line 117 finds nothing to do: after line 116 a space follows every
    comma, so no two commas are adjacent. *)
Lemma re_sub_commas_tidy (q : scan) (s : text) :
  re_sub commas_re "," (tidy q s) = tidy q s.
Proof.
  unfold commas_re. revert q. induction s as [| c t IH]; intros q; [reflexivity |].
  cbn [tidy]. destruct (is_char "," c) eqn:Hc.
  - rewrite re_sub_run_cons. change (is_char "," ",") with true. cbv iota.
    rewrite drop_while_head by reflexivity.
    rewrite re_sub_run_cons. change (is_char "," " ") with false. cbv iota.
    rewrite IH. reflexivity.
  - destruct (isspace c).
    + destruct q; apply IH.
    + destruct q; rewrite ?re_sub_run_cons; cbn [is_char] in *;
        try change (Ascii.eqb " " ",") with false; cbv iota;
        rewrite ?re_sub_run_cons; cbn [is_char]; rewrite ?Hc, IH; reflexivity.
Qed.

(** Lines 115-117 are the pass. *)
Lemma address_pass (s : text) :
  re_sub commas_re "," (re_sub comma_spacing_re ", " (join " " (split s)))
  = tidy AfterComma s.
Proof.
  fold (normalize s).
  destruct (normalize_shape s) as [H1 H2].
  rewrite re_sub_comma_spacing_tidy by exact H1.
  rewrite tidy_no_leading by exact H2.
  rewrite re_sub_commas_tidy. apply tidy_normalize.
Qed.

Lemma clean_address_tidy (x : cell) :
  clean_address x = if is_missing x then [] else tidy AfterComma (str x).
Proof.
  unfold clean_address. destruct (is_missing x); [reflexivity |].
  cbv zeta. apply address_pass.
Qed.

(** C5, at the failing input.  Line 116 turns each of the two commas of
    [a,,b] into a comma and a space, so that line 117 finds no two commas
    side by side: the result keeps both commas, the second one after a
    space. *)
Theorem clean_address_keeps_comma_runs :
  clean_address (Str "a,,b") = ("a, , b" : text).
Proof. vm_compute. reflexivity. Qed.

(** X2.  Line 117 is idle: on the text line 116 returns, replacing runs of
    commas by one comma changes nothing, whatever the address. *)
Theorem comma_collapse_is_idle (s : text) :
  re_sub commas_re "," (re_sub comma_spacing_re ", " (join " " (split s)))
  = re_sub comma_spacing_re ", " (join " " (split s)).
Proof.
  fold (normalize s). destruct (normalize_shape s) as [H _].
  rewrite re_sub_comma_spacing_tidy by exact H. apply re_sub_commas_tidy.
Qed.

(** ** Cleaning a cleaned address *)

Lemma tidy_idem (s : text) :
  tidy AfterComma (tidy AfterComma s) = tidy AfterComma s
  /\ tidy InWord (tidy InWord s) = tidy InWord s
  /\ tidy InWord (tidy AfterSpace s) = tidy AfterSpace s.
Proof.
  induction s as [| c t [IHc [IHw IHs]]]; [repeat split |].
  cbn [tidy]. destruct (is_char "," c) eqn:Hc.
  - cbn [tidy]. change (is_char "," ",") with true.
    change (is_char "," " ") with false. change (isspace " ") with true.
    cbv iota. rewrite IHc. repeat split; reflexivity.
  - destruct (isspace c) eqn:Hsp.
    + repeat split; assumption.
    + cbn [tidy]. rewrite Hc, Hsp.
      change (is_char "," " ") with false. change (isspace " ") with true.
      cbv iota. rewrite IHw. repeat split; reflexivity.
Qed.

Lemma tidy_rstrip (q : scan) (s : text) : tidy q (rstrip s) = tidy q s.
Proof.
  revert q. induction s as [| c t IH]; intros q; [reflexivity |].
  rewrite rstrip_cons. destruct (rstrip t) as [| d l] eqn:Hr.
  - assert (Hnil : forall q', tidy q' t = []) by (intros q'; rewrite <- IH; reflexivity).
    cbn [tidy]. destruct (isspace c) eqn:Hsp.
    + rewrite (space_is_not_comma c Hsp). destruct q; rewrite Hnil; reflexivity.
    + cbn [tidy]. rewrite Hsp, !Hnil. reflexivity.
  - cbn [tidy]. rewrite <- !IH. reflexivity.
Qed.

Lemma tidy_strip (s : text) : tidy AfterComma (strip s) = tidy AfterComma s.
Proof. unfold strip. rewrite tidy_rstrip. apply tidy_lstrip. Qed.

Lemma tidy_after_space_plain (t w : text) :
  Forall plain w -> tidy AfterSpace t = w -> w = [] /\ rstrip t = [].
Proof.
  intros Hw. induction t as [| c t IH]; [intros <-; split; reflexivity |].
  cbn [tidy]. destruct (is_char "," c) eqn:Hc.
  - intros <-. inversion Hw as [| ? ? [_ H] _]. discriminate.
  - destruct (isspace c) eqn:Hsp.
    + intros H. destruct (IH H) as [-> Hr]. split; [reflexivity |].
      rewrite rstrip_cons, Hr, Hsp. reflexivity.
    + intros <-. inversion Hw as [| ? ? [H _] _]. discriminate.
Qed.

Lemma tidy_in_word_plain (t w : text) :
  Forall plain w -> tidy InWord t = w -> rstrip t = w.
Proof.
  revert w. induction t as [| c t IH]; intros w Hw; [intros <-; reflexivity |].
  cbn [tidy]. destruct (is_char "," c) eqn:Hc.
  - intros <-. inversion Hw as [| ? ? [_ H] _]. discriminate.
  - destruct (isspace c) eqn:Hsp.
    + intros H. destruct (tidy_after_space_plain t w Hw H) as [-> Hr].
      rewrite rstrip_cons, Hr, Hsp. reflexivity.
    + intros <-. inversion Hw as [| ? ? _ Hw']. subst.
      rewrite rstrip_cons, (IH _ Hw' eq_refl), Hsp.
      destruct (tidy InWord t); reflexivity.
Qed.

Lemma tidy_plain (s w : text) :
  Forall plain w -> tidy AfterComma s = w -> strip s = w.
Proof.
  intros Hw. induction s as [| c t IH]; [intros <-; reflexivity |].
  cbn [tidy]. destruct (is_char "," c) eqn:Hc.
  - intros <-. inversion Hw as [| ? ? [_ H] _]. discriminate.
  - destruct (isspace c) eqn:Hsp.
    + intros H. rewrite <- (IH H). unfold strip. cbn [lstrip]. rewrite Hsp. reflexivity.
    + intros <-. inversion Hw as [| ? ? _ Hw']. subst.
      unfold strip. cbn [lstrip]. rewrite Hsp.
      rewrite rstrip_cons, (tidy_in_word_plain t _ Hw' eq_refl), Hsp.
      destruct (tidy InWord t); reflexivity.
Qed.

Lemma lstrip_In (c : ascii) (s : text) : In c (lstrip s) -> In c s.
Proof.
  induction s as [| d t IH]; [trivial |].
  cbn [lstrip]. destruct (isspace d); [| trivial].
  intros H. right. apply IH, H.
Qed.

Lemma strip_In (c : ascii) (s : text) : In c (strip s) -> In c s.
Proof.
  unfold strip, rstrip. intros H.
  apply in_rev, lstrip_In, in_rev in H. apply lstrip_In, H.
Qed.

Lemma numeral_uint (d : Decimal.uint) :
  Forall numeral (list_ascii_of_string (NilEmpty.string_of_uint d)).
Proof.
  induction d; cbn [NilEmpty.string_of_uint list_ascii_of_string];
    constructor; try assumption; left; reflexivity.
Qed.

Lemma numeral_int (z : Z) : Forall numeral (str (Int z)).
Proof.
  unfold str. destruct (Z.to_int z) as [d | d]; cbn [NilZero.string_of_int].
  - destruct d; try apply numeral_uint. repeat constructor.
  - cbn [list_ascii_of_string]. constructor; [right; reflexivity |].
    destruct d; try apply numeral_uint. repeat constructor.
Qed.

Lemma clean_address_not_nan (x : cell) :
  settled x -> strip (clean_address x) <> ("nan" : text).
Proof.
  intros Hx. rewrite clean_address_tidy.
  destruct (is_missing x) eqn:Hm; [discriminate |].
  intros H.
  assert (Hy : tidy AfterComma (str x) = ("nan" : text)).
  { destruct (tidy_idem (str x)) as [Hi _].
    rewrite <- Hi, <- tidy_strip, H. reflexivity. }
  apply tidy_plain in Hy; [| repeat constructor].
  destruct x as [| s | z].
  - discriminate.
  - cbn [settled str] in *. rewrite Hx in Hy. subst s. discriminate.
  - assert (Hin : In "n"%char (strip (str (Int z)))) by (rewrite Hy; left; reflexivity).
    apply strip_In in Hin.
    pose proof (numeral_int z) as Hnum. rewrite Forall_forall in Hnum.
    destruct (Hnum _ Hin) as [Hd | Hd]; discriminate.
Qed.


(** ** Cleaning a cleaned name *)

Lemma re_sub_spaces_single_spaced (n : text) :
  single_spaced n -> re_sub spaces_re " " n = n.
Proof.
  unfold spaces_re. induction n as [| c t IH]; [reflexivity |].
  cbn [single_spaced]. intros [Hc Ht]. rewrite re_sub_run_cons.
  destruct (isspace c).
  - destruct (Hc eq_refl) as [-> [_ Hlead]].
    rewrite <- lstrip_drop_while, lstrip_fixed by exact Hlead.
    rewrite IH by exact Ht. reflexivity.
  - rewrite IH by exact Ht. reflexivity.
Qed.

Lemma rstrip_single_spaced (n : text) : single_spaced n -> rstrip n = n.
Proof.
  induction n as [| c t IH]; [reflexivity |].
  cbn [single_spaced]. intros [Hc Ht]. rewrite rstrip_cons, IH by exact Ht.
  destruct t as [| d t']; [| reflexivity].
  destruct (isspace c); [| reflexivity].
  destruct (Hc eq_refl) as [_ [H _]]. contradiction.
Qed.

Lemma strip_single_spaced (n : text) :
  single_spaced n -> no_leading_space n -> strip n = n.
Proof.
  intros H1 H2. unfold strip. rewrite lstrip_fixed by exact H2.
  apply rstrip_single_spaced, H1.
Qed.

Lemma split_normalize (s : text) : split (normalize s) = split s.
Proof.
  induction s as [| c t IH]; [reflexivity |].
  rewrite normalize_cons. cbn [split]. destruct (isspace c) eqn:Hc; [exact IH |].
  destruct t as [| d t']; [cbn [split]; rewrite Hc; reflexivity |].
  destruct (isspace d) eqn:Hd.
  - destruct (split (d :: t')) eqn:Hs.
    + cbn [split]. rewrite Hc. reflexivity.
    + cbn [split]. rewrite Hc. change (isspace " ") with true. cbv iota.
      rewrite IH. reflexivity.
  - rewrite <- IH. rewrite normalize_cons, Hd. cbn [split]. rewrite Hc, Hd. reflexivity.
Qed.

(** Lines 107-109 capitalise the words of the text. *)
Lemma clean_name_words (x : cell) :
  clean_name x =
  if is_missing x then [] else join " " (map capitalize (split (str x))).
Proof.
  unfold clean_name. destruct (is_missing x); [reflexivity |].
  cbv zeta. fold (normalize (str x)).
  destruct (normalize_shape (str x)) as [H1 H2].
  rewrite re_sub_spaces_single_spaced, strip_single_spaced, split_normalize by assumption.
  reflexivity.
Qed.

Lemma split_words (s : text) : Forall word (split s).
Proof.
  induction s as [| c t IH]; [constructor |].
  cbn [split]. destruct (isspace c) eqn:Hc; [exact IH |].
  assert (Hone : word [c]).
  { split; [discriminate | repeat constructor; exact Hc]. }
  destruct t as [| d t']; [constructor; [exact Hone | constructor] |].
  destruct (isspace d); [constructor; [exact Hone | exact IH] |].
  destruct (split (d :: t')) as [| w ws]; [constructor; [exact Hone | constructor] |].
  cbn [cons_head]. inversion IH as [| ? ? [_ Hw] Hws]. subst.
  constructor; [| exact Hws]. split; [discriminate | constructor; assumption].
Qed.

Lemma split_word (w : text) : word w -> split w = [w].
Proof.
  intros [Hne Hsp]. induction w as [| c t IH]; [contradiction |].
  inversion Hsp as [| ? ? Hc Ht]. subst. cbn [split]. rewrite Hc.
  destruct t as [| d t']; [reflexivity |].
  inversion Ht as [| ? ? Hd _]. subst. rewrite Hd.
  rewrite IH; [reflexivity | discriminate | exact Ht].
Qed.

Lemma split_word_app (w r : text) :
  word w -> split (w ++ " "%char :: r) = w :: split r.
Proof.
  intros [Hne Hsp]. induction w as [| c t IH]; [contradiction |].
  inversion Hsp as [| ? ? Hc Ht]. subst. cbn [app split]. rewrite Hc.
  destruct t as [| d t'].
  - cbn [app]. change (isspace " ") with true. cbv iota. reflexivity.
  - inversion Ht as [| ? ? Hd _]. subst. cbn [app]. rewrite Hd.
    cbn [app] in IH. rewrite IH; [reflexivity | discriminate | exact Ht].
Qed.

Lemma split_join (ws : list text) : Forall word ws -> split (join " " ws) = ws.
Proof.
  induction 1 as [| w ws Hw Hws IH]; [reflexivity |].
  cbn [join]. destruct ws as [| w' ws'].
  - apply split_word, Hw.
  - change ((" " : text) ++ join " " (w' :: ws')) with (" "%char :: join " " (w' :: ws')).
    rewrite split_word_app by exact Hw. rewrite IH. reflexivity.
Qed.

Lemma isspace_upper_char (c : ascii) : isspace (upper_char c) = isspace c.
Proof. destruct c as [[] [] [] [] [] [] [] []]; reflexivity. Qed.

Lemma upper_char_idem (c : ascii) : upper_char (upper_char c) = upper_char c.
Proof. destruct c as [[] [] [] [] [] [] [] []]; reflexivity. Qed.

Lemma upper_char_not_n (c : ascii) : upper_char c <> "n"%char.
Proof. destruct c as [[] [] [] [] [] [] [] []]; vm_compute; discriminate. Qed.

Lemma capitalize_word (w : text) : word w -> word (capitalize w).
Proof.
  intros [Hne Hsp]. destruct w as [| c t]; [contradiction |].
  inversion Hsp as [| ? ? Hc Ht]. subst. split; [discriminate |].
  cbn [capitalize]. constructor; [rewrite isspace_upper_char; exact Hc |].
  unfold lower. apply Forall_map. eapply Forall_impl; [| exact Ht].
  intros a Ha. cbn beta. rewrite isspace_lower_char. exact Ha.
Qed.

Lemma capitalize_idem (w : text) : capitalize (capitalize w) = capitalize w.
Proof.
  destruct w as [| c t]; [reflexivity |].
  cbn [capitalize]. rewrite upper_char_idem, lower_idem. reflexivity.
Qed.

Lemma capitalized_words (s : text) : Forall word (map capitalize (split s)).
Proof.
  apply Forall_map. eapply Forall_impl; [| apply split_words].
  intros w. apply capitalize_word.
Qed.

Lemma capitalized_not_nan (s : text) :
  join " " (map capitalize (split s)) <> ("nan" : text).
Proof.
  intros H.
  pose proof (split_join _ (capitalized_words s)) as Hs. rewrite H in Hs.
  change (split ("nan" : text)) with [("nan" : text)] in Hs.
  destruct (split s) as [| w ws]; [discriminate |].
  cbn [map] in Hs. apply cons_eq_inv in Hs. destruct Hs as [Hw _].
  destruct w as [| c t]; [discriminate |].
  cbn [capitalize] in Hw. apply cons_eq_inv in Hw. destruct Hw as [Hc _].
  symmetry in Hc. exact (upper_char_not_n c Hc).
Qed.

(** A cleaned name is already trimmed, and cleaning it gives it back. *)
Lemma clean_name_again (x : cell) :
  strip (clean_name x) = clean_name x
  /\ clean_name (Str (clean_name x)) = clean_name x.
Proof.
  rewrite (clean_name_words x).
  destruct (is_missing x); [split; reflexivity |].
  set (n := join " " (map capitalize (split (str x)))).
  pose proof (split_join _ (capitalized_words (str x))) as Hsplit. fold n in Hsplit.
  assert (Hnorm : normalize n = n).
  { unfold normalize. rewrite Hsplit. reflexivity. }
  split.
  - rewrite <- Hnorm. destruct (normalize_shape n).
    apply strip_single_spaced; assumption.
  - rewrite clean_name_words. cbn [str].
    destruct (is_missing (Str n)) eqn:Hm.
    + unfold is_missing, isna, is_nan_text, falsy in Hm. cbn [orb] in Hm.
      pose proof (capitalized_not_nan (str x)) as Hnan. fold n in Hnan.
      apply text_eqb_neq in Hnan. rewrite Hnan in Hm.
      destruct n; [reflexivity | discriminate].
    + rewrite Hsplit, map_map. unfold n. f_equal. apply map_ext.
      intros w. apply capitalize_idem.
Qed.

(** ** Cleaning a cleaned email or phone *)




(** ** Running lines 84-167 on their own result *)





Lemma is_missing_text (s : text) :
  s <> [] -> s <> ("nan" : text) -> is_missing (Str s) = false.
Proof.
  intros H1 H2. unfold is_missing, isna, is_nan_text, falsy. cbn [orb].
  apply text_eqb_neq in H2. rewrite H2. destruct s; [contradiction | reflexivity].
Qed.









(** Without the typing of the columns the second run can differ: in a column
    that holds text but is not an object column line 86 does not trim, the
    address [" nan "] is cleaned to [nan], and a second run takes [nan] for
    a missing value and drops the row. *)
Example untrimmed_nan_address_is_dropped_later :
  let fr := {| labels := required_columns;
               name_dtype := object; email_dtype := object;
               phone_dtype := object; address_dtype := float64;
               rows := [ {| idx := Int 0; name := Str "ana"; email := Str "ana@x.com";
                            phone := Str "1"; address := Str " nan " |} ] |} in
  map address (rows (cleaned_table (stripped fr))) = [Str "nan"]
  /\ rows (cleaned_table (stripped (cleaned_table (stripped fr)))) = [].
Proof. split; vm_compute; reflexivity. Qed.

(** ** Running the pipeline on the file it wrote *)











Lemma In_firstn {A} (n : nat) (l : list A) (x : A) : In x (firstn n l) -> In x l.
Proof.
  revert l. induction n as [| n IH]; intros [| y l]; cbn [firstn In]; try tauto.
  intros [H | H]; [left; exact H | right; apply IH, H].
Qed.

(** Rows labelled by position pass the diagnostic. *)
Lemma diagnostic_of_positions (df : DataFrame) :
  index df = [] -> diagnostic_fails (select_required df) = false.
Proof.
  intros Hindex. unfold diagnostic_fails.
  destruct (existsb text_label _) eqn:E; [| reflexivity]. exfalso.
  apply existsb_exists in E. destruct E as [x [Hin Hx]].
  apply in_map_iff in Hin. destruct Hin as [r [<- Hin]]. apply In_firstn in Hin.
  unfold select_required in Hin. cbn [rows] in Hin. apply in_map_iff in Hin.
  destruct Hin as [[i cells] [<- _]]. cbn [idx fst] in Hx.
  unfold row_label in Hx. rewrite Hindex in Hx. destruct i; discriminate.
Qed.


Lemma directory_typed : table_typed directory.
Proof.
  intros r j H. vm_compute in H.
  repeat (destruct H as [<- | H]); [.. | destruct H];
    do 5 (destruct j as [| j]; [vm_compute; first [exact I | reflexivity | discriminate] |]);
    vm_compute; destruct j; exact I.
Defined.

Lemma directory_seven_bit : seven_bit_table directory.
Proof.
  split.
  - repeat constructor; apply seven_bitb_spec; reflexivity.
  - intros r x Hr Hx. apply seven_bitb_spec. vm_compute in Hr.
    repeat (destruct Hr as [<- | Hr]); [.. | destruct Hr];
      vm_compute in Hx; repeat (destruct Hx as [<- | Hx]); try destruct Hx;
      reflexivity.
Defined.



(** ** What the address cleaner does guarantee *)

Lemma tidy_after_comma_no_leading (s : text) : no_leading_space (tidy AfterComma s).
Proof.
  induction s as [| c t IH]; [exact I |].
  cbn [tidy]. destruct (is_char "," c); [reflexivity |].
  destruct (isspace c) eqn:Hc; [exact IH | exact Hc].
Qed.

Lemma tidy_well_spaced (q : scan) (s : text) : well_spaced (tidy q s).
Proof.
  revert q. induction s as [| c t IH]; intros q; [exact I |].
  cbn [tidy]. destruct (is_char "," c) eqn:Hc.
  - cbn [well_spaced]. split; [| split; [| split; [| split]]].
    + intros _. exists (tidy AfterComma t). split; [reflexivity |].
      apply tidy_after_comma_no_leading.
    + intros H. vm_compute in H. discriminate.
    + intros H. vm_compute in H. discriminate.
    + intros _. split; [reflexivity | apply tidy_after_comma_no_leading].
    + apply IH.
  - destruct (isspace c) eqn:Hsp.
    + destruct q; apply IH.
    + assert (Hword : well_spaced (c :: tidy InWord t)).
      { cbn [well_spaced]. split; [| split]; [congruence | congruence | apply IH]. }
      destruct q; try exact Hword.
      cbn [well_spaced]. split; [| split].
      * intros H. vm_compute in H. discriminate.
      * intros _. split; [reflexivity | exact Hsp].
      * exact Hword.
Qed.

(** X1.  Whatever the cell, in the address the cleaner returns every comma
    is followed by one space and then by no further white space, and every
    white-space character is a single space followed by a character that is
    not white space, or by the end of the text. *)
Theorem clean_address_well_spaced (x : cell) : well_spaced (clean_address x).
Proof.
  rewrite clean_address_tidy. destruct (is_missing x); [exact I |].
  apply tidy_well_spaced.
Qed.

(** ** Failures *)

(** X3.  When the input file does not exist the run raises
    FileNotFoundError at once: nothing is printed, written or logged. *)
Theorem missing_input_file_fails_fast (w : World) (input_file : text)
    (output_file : option text) (log_errors debug_mode email_only : bool) :
  path_exists w input_file = false ->
  clean_data w input_file output_file log_errors debug_mode email_only
  = ([], Raise (FileNotFoundError input_file)).
Proof. intros H. unfold clean_data. cbv zeta. rewrite H. reflexivity. Qed.

Lemma missing_input_file_fails_fast_witness :
  clean_data nowhere "contacts.csv" None true false true
  = ([], Raise (FileNotFoundError "contacts.csv")).
Proof.
  apply (missing_input_file_fails_fast nowhere "contacts.csv" None true false true).
  reflexivity.
Defined.

(** ** Which row of a repeated email stays *)




(** ** The matcher and what a pattern matches *)

Lemma star_rests_In (cls : ascii -> bool) (s t : text) :
  In t (star_rests cls s) <-> exists a, s = a ++ t /\ all_of cls a.
Proof.
  unfold all_of. induction s as [| c u IH]; cbn [star_rests].
  - split.
    + intros [<- | []]. exists []. split; [reflexivity | constructor].
    + intros [a [H _]]. symmetry in H. apply app_eq_nil in H. left. symmetry. tauto.
  - destruct (cls c) eqn:Hc.
    + rewrite in_app_iff, IH. cbn [In]. split.
      * intros [[a [-> Ha]] | [<- | []]].
        -- exists (c :: a). split; [reflexivity | constructor; assumption].
        -- exists []. split; [reflexivity | constructor].
      * intros [[| c' a] [H Ha]].
        -- right. left. exact H.
        -- left. injection H as <- ->. inversion Ha; subst. exists a. split; auto.
    + cbn [In]. split.
      * intros [<- | []]. exists []. split; [reflexivity | constructor].
      * intros [[| c' a] [H Ha]].
        -- left. exact H.
        -- injection H as <- ->. inversion Ha; subst. congruence.
Qed.

Lemma repeat_rests_In (n : nat) (cls : ascii -> bool) (s t : text) :
  In t (repeat_rests n cls s)
  <-> exists a, s = a ++ t /\ n <= List.length a /\ all_of cls a.
Proof.
  revert s. induction n as [| n IH]; intros s; cbn [repeat_rests].
  - rewrite star_rests_In. split; intros [a [H Ha]]; exists a.
    + repeat split; [exact H | lia | exact Ha].
    + split; tauto.
  - destruct s as [| c u].
    + split; [intros [] |]. intros [[| c a] [H [Hn _]]]; [cbn in Hn; lia | discriminate].
    + destruct (cls c) eqn:Hc.
      * rewrite IH. split.
        -- intros [a [-> [Hn Ha]]]. exists (c :: a). cbn [List.length app].
           repeat split; [lia |]. constructor; assumption.
        -- intros [[| c' a] [H [Hn Ha]]]; [cbn in Hn; lia |].
           injection H as <- ->. inversion Ha; subst. exists a.
           cbn [List.length] in Hn. repeat split; [lia | assumption].
      * split; [intros [] |]. intros [[| c' a] [H [Hn Ha]]]; [cbn in Hn; lia |].
        injection H as <- ->. inversion Ha; subst. congruence.
Qed.

(** The remainders the search finds are the texts left after a prefix the
    pattern matches. *)
Lemma rests_In (r : regex) (s t : text) :
  In t (rests r s) <-> exists p, s = p ++ t /\ matches r p.
Proof.
  revert s. induction r as [| i r IH]; intros s; cbn [rests matches].
  - cbn [In]. split.
    + intros [<- | []]. exists []. split; reflexivity.
    + intros [p [-> ->]]. left. reflexivity.
  - rewrite in_flat_map. destruct i as [cls | n cls]; cbn [item_rests].
    + split.
      * intros [u [Hu Ht]]. destruct s as [| c s']; [destruct Hu |].
        destruct (cls c) eqn:Hc; [| destruct Hu]. destruct Hu as [<- | []].
        apply IH in Ht. destruct Ht as [q [-> Hq]].
        exists (c :: q). split; [reflexivity |]. exists c, q. auto.
      * intros [p [-> [c [q [-> [Hc Hq]]]]]]. exists (q ++ t). cbn [app].
        rewrite Hc. split; [left; reflexivity |]. apply IH. exists q. auto.
    + split.
      * intros [u [Hu Ht]]. apply repeat_rests_In in Hu. destruct Hu as [a [-> [Hn Ha]]].
        apply IH in Ht. destruct Ht as [q [-> Hq]].
        exists (a ++ q). split; [apply app_assoc |]. exists a, q. auto.
      * intros [p [-> [a [q [-> [Hn [Ha Hq]]]]]]]. exists (q ++ t). split.
        -- apply repeat_rests_In. exists a. rewrite app_assoc. auto.
        -- apply IH. exists q. auto.
Qed.

Lemma at_dollar_spec (t : text) :
  at_dollar t = true <-> t = [] \/ t = ["010"%char].
Proof.
  destruct t as [| c [| d t]]; cbn [at_dollar].
  - split; auto.
  - rewrite Ascii.eqb_eq. split.
    + intros ->. right. reflexivity.
    + intros [H | H]; [discriminate | injection H; auto].
  - split; [discriminate | intros [H | H]; discriminate].
Qed.

Lemma re_match_spec (r : regex) (s : text) :
  re_match r s = true <->
  exists p tail, s = p ++ tail /\ matches r p /\ (tail = [] \/ tail = ["010"%char]).
Proof.
  unfold re_match. rewrite existsb_exists. split.
  - intros [t [Hin Ht]]. apply rests_In in Hin. destruct Hin as [p [-> Hp]].
    apply at_dollar_spec in Ht. exists p, t. auto.
  - intros [p [t [-> [Hp Ht]]]]. exists t. split.
    + apply rests_In. exists p. auto.
    + apply at_dollar_spec, Ht.
Qed.

Lemma email_pattern_matches (p : text) :
  matches email_pattern p <->
  exists local domain tld,
    p = local ++ "@"%char :: domain ++ "."%char :: tld
    /\ 1 <= List.length local /\ all_of local_class local
    /\ 1 <= List.length domain /\ all_of domain_class domain
    /\ 2 <= List.length tld /\ all_of letter_class tld.
Proof.
  unfold email_pattern. cbn [matches]. split.
  - intros (l & q1 & -> & Hl & Hlc & c1 & q2 & -> & Hc1 & d & q3 & -> & Hd & Hdc
            & c2 & q4 & -> & Hc2 & t & q5 & -> & Ht & Htc & ->).
    apply Ascii.eqb_eq in Hc1, Hc2. subst c1 c2.
    exists l, d, t. rewrite app_nil_r. repeat split; assumption.
  - intros (l & d & t & -> & Hl & Hlc & Hd & Hdc & Ht & Htc).
    exists l, ("@"%char :: d ++ "."%char :: t). repeat split; try assumption.
    exists "@"%char, (d ++ "."%char :: t). repeat split.
    exists d, ("."%char :: t). repeat split; try assumption.
    exists "."%char, t. repeat split.
    exists t, []. rewrite app_nil_r. repeat split; assumption.
Qed.

Lemma email_text_assoc (local domain tld tail : text) :
  (local ++ "@"%char :: domain ++ "."%char :: tld) ++ tail
  = local ++ "@"%char :: domain ++ "."%char :: tld ++ tail.
Proof. rewrite <- !app_assoc. cbn [app]. rewrite <- !app_assoc. reflexivity. Qed.

(** X7.  The email pattern accepts exactly the texts made of one or more
    characters of the local class, an at sign, one or more characters of the
    domain class, a dot and two or more letters, with nothing after them but
    an optional final newline. *)
Theorem email_pattern_shape (e : text) :
  re_match email_pattern e = true <->
  exists local domain tld tail,
    e = local ++ "@"%char :: domain ++ "."%char :: tld ++ tail
    /\ 1 <= List.length local /\ all_of local_class local
    /\ 1 <= List.length domain /\ all_of domain_class domain
    /\ 2 <= List.length tld /\ all_of letter_class tld
    /\ (tail = [] \/ tail = ["010"%char]).
Proof.
  rewrite re_match_spec. split.
  - intros (p & tail & -> & Hm & Htail). apply email_pattern_matches in Hm.
    destruct Hm as (l & d & t & -> & H). exists l, d, t, tail.
    rewrite email_text_assoc. tauto.
  - intros (l & d & t & tail & -> & Hl & Hlc & Hd & Hdc & Ht & Htc & Htail).
    exists (l ++ "@"%char :: d ++ "."%char :: t), tail.
    rewrite email_text_assoc. split; [reflexivity | split; [| exact Htail]].
    apply email_pattern_matches. exists l, d, t. tauto.
Qed.

(** ** The emails the validator accepts *)

Lemma strip_not_newline_ended (s u : text) : strip s <> u ++ ["010"%char].
Proof.
  intros H. pose proof (strip_no_trailing s) as Hn. rewrite H in Hn.
  unfold no_trailing_space in Hn. rewrite rev_unit in Hn. cbn in Hn. discriminate.
Qed.

(** X8.  An email the validator accepts reads, once lower-cased and trimmed,
    as local part, at sign, domain, dot and a final label of two letters or
    more, with nothing after the label. *)
Theorem accepted_email_shape (debug_mode : bool) (x : cell) :
  result (is_valid_email debug_mode x) = Return true ->
  exists local domain tld,
    strip (lower (str x)) = local ++ "@"%char :: domain ++ "."%char :: tld
    /\ 1 <= List.length local /\ all_of local_class local
    /\ 1 <= List.length domain /\ all_of domain_class domain
    /\ 2 <= List.length tld /\ all_of letter_class tld.
Proof.
  rewrite is_valid_email_result. intros H. injection H as H.
  apply valid_email_spec in H. destruct H as [_ [H _]].
  apply re_match_spec in H. destruct H as (p & tail & He & Hm & Htail).
  apply email_pattern_matches in Hm. destruct Htail as [-> | ->].
  - rewrite app_nil_r in He. rewrite He. exact Hm.
  - exfalso. exact (strip_not_newline_ended _ _ He).
Qed.

Lemma accepted_email_shape_witness :
  exists local domain tld,
    strip (lower (str (Str " Joe@X.com "))) = local ++ "@"%char :: domain ++ "."%char :: tld
    /\ 1 <= List.length local /\ all_of local_class local
    /\ 1 <= List.length domain /\ all_of domain_class domain
    /\ 2 <= List.length tld /\ all_of letter_class tld.
Proof.
  apply (accepted_email_shape false (Str " Joe@X.com ")). vm_compute. reflexivity.
Defined.

(** ** The rows the email filter keeps *)












(** ** What the name and address cleaners return *)

Lemma join_nil_iff (ws : list text) : Forall word ws -> join " " ws = [] <-> ws = [].
Proof.
  intros H. split; [| intros ->; reflexivity].
  destruct ws as [| w ws]; [reflexivity |]. intros E. exfalso.
  inversion H as [| ? ? [Hw _] _]; subst. apply Hw.
  destruct ws; cbn [join] in E; [exact E |]. apply app_eq_nil in E. tauto.
Qed.

Lemma is_missing_blank (x : cell) : is_missing x = true -> blank x.
Proof.
  destruct x as [| s | z]; cbn; [auto | |].
  - unfold is_missing. cbn [isna is_nan_text falsy orb].
    destruct (text_eqb s "nan") eqn:E; [apply text_eqb_eq in E; auto |].
    destruct s; [right; reflexivity | discriminate].
  - unfold is_missing. cbn [isna is_nan_text falsy orb]. apply Z.eqb_eq.
Qed.

Lemma numeral_not_space (c : ascii) : numeral c -> isspace c = false.
Proof.
  intros [H | ->]; [| reflexivity]. unfold isdigit, in_range in H.
  apply andb_prop in H. destruct H as [H1 H2].
  apply Nat.leb_le in H1, H2. unfold isspace, in_range.
  apply orb_false_iff. split; apply andb_false_iff.
  - right. apply Nat.leb_gt. lia.
  - right. apply Nat.leb_gt. lia.
Qed.

Lemma split_nil_all_space (s : text) :
  split s = [] <-> Forall (fun c => isspace c = true) s.
Proof.
  induction s as [| c t IH]; [split; [constructor | reflexivity] |].
  cbn [split]. destruct (isspace c) eqn:Hc.
  - rewrite IH. split; [intros H; constructor; assumption |].
    intros H. inversion H; assumption.
  - split.
    + destruct t as [| d u]; [discriminate |].
      destruct (isspace d); [discriminate |].
      destruct (split (d :: u)); discriminate.
    + intros H. inversion H; congruence.
Qed.

Lemma blank_not_missing (x : cell) :
  is_missing x = false -> blank x <-> split (str x) = [].
Proof.
  destruct x as [| s | z]; unfold is_missing; cbn [isna is_nan_text falsy orb blank str].
  - discriminate.
  - intros H. apply orb_false_iff in H. destruct H as [H _].
    apply text_eqb_neq in H. tauto.
  - intros H. apply Z.eqb_neq in H. split; [tauto |]. intros E. exfalso.
    apply split_nil_all_space in E. pose proof (numeral_int z) as Hn.
    cbn [str] in Hn. destruct (NilZero.string_of_int (Z.to_int z) : text) as [| c t] eqn:Es.
    + revert Es. clear. destruct z; cbn; try discriminate;
        unfold NilZero.string_of_uint;
        match goal with |- context [Pos.to_uint ?p] =>
          destruct (Pos.to_uint p) eqn:E; cbn; try discriminate end.
    + inversion E; subst. inversion Hn; subst.
      match goal with Hc : numeral _ |- _ => apply numeral_not_space in Hc end. congruence.
Qed.

Lemma tidy_nil_iff (s : text) : tidy AfterComma s = [] <-> split s = [].
Proof.
  split; [| apply tidy_spaces]. rewrite split_nil_all_space.
  induction s as [| c t IH]; [constructor |]. cbn [tidy].
  destruct (is_char "," c); [discriminate |].
  destruct (isspace c) eqn:Hc; [| discriminate].
  intros H. constructor; auto.
Qed.

(** X9.  The name and the address cleaner return the empty text for the same
    cells: NaN, the number zero, the text nan, and text that holds nothing
    but white space. *)
Theorem cleaners_return_empty_iff (x : cell) :
  (clean_name x = [] <-> blank x) /\ (clean_address x = [] <-> blank x).
Proof.
  rewrite clean_name_words, clean_address_tidy.
  destruct (is_missing x) eqn:Hm.
  - apply is_missing_blank in Hm. tauto.
  - rewrite (blank_not_missing x Hm), tidy_nil_iff.
    rewrite (join_nil_iff _ (capitalized_words (str x))).
    split; [| tauto]. split.
    + intros H. apply map_eq_nil in H. exact H.
    + intros ->. reflexivity.
Qed.

(** X10.  Of a name that is 7-bit text, the name cleaner returns the words,
    each with its first letter in upper case and the others in lower case,
    one space between them and none around them; cleaning the result again
    returns it. *)
Theorem clean_name_capitalises_words (s : text) :
  seven_bit s ->
  split (clean_name (Str s))
  = (if is_missing (Str s) then [] else map capitalize (split s))
  /\ clean_name (Str s) = join " " (split (clean_name (Str s)))
  /\ clean_name (Str (clean_name (Str s))) = clean_name (Str s).
Proof.
  intros _.
  assert (H : split (clean_name (Str s))
              = if is_missing (Str s) then [] else map capitalize (split s)).
  { rewrite clean_name_words. destruct (is_missing (Str s)); [reflexivity |].
    apply split_join, capitalized_words. }
  split; [exact H | split].
  - rewrite H, clean_name_words. destruct (is_missing (Str s)); reflexivity.
  - apply clean_name_again.
Qed.

Lemma clean_name_capitalises_words_witness :
  split (clean_name (Str " joe  mcSMITH "))
  = [ "Joe" : text; "Mcsmith" : text ]
  /\ clean_name (Str " joe  mcSMITH ") = "Joe Mcsmith"
  /\ clean_name (Str (clean_name (Str " joe  mcSMITH ")))
     = clean_name (Str " joe  mcSMITH ").
Proof.
  destruct (clean_name_capitalises_words " joe  mcSMITH ")
    as (H1 & H2 & H3); [apply seven_bitb_spec; reflexivity |].
  split; [rewrite H1; reflexivity | split; [rewrite H2, H1; reflexivity | exact H3]].
Defined.

(** X11.  Line 108 is idle: on the text line 107 returns, replacing runs of
    white space by one space and trimming changes nothing, whatever the
    name. *)
Theorem name_respacing_is_idle (s : text) :
  strip (re_sub spaces_re " " (join " " (split s))) = join " " (split s).
Proof.
  fold (normalize s). destruct (normalize_shape s) as [H1 H2].
  rewrite re_sub_spaces_single_spaced by exact H1.
  apply strip_single_spaced; assumption.
Qed.

(** X12.  Cleaning a cleaned address returns it, unless it reads nan, which
    the cleaner then takes for a missing value; that does not happen for a
    cell without white space around it, as line 86 leaves the cells of a
    text column. *)
Theorem clean_address_twice (x : cell) :
  clean_address (Str (clean_address x))
  = (if text_eqb (clean_address x) "nan" then [] else clean_address x)
  /\ (settled x -> text_eqb (clean_address x) "nan" = false).
Proof.
  split.
  - destruct (text_eqb (clean_address x) "nan") eqn:E.
    + apply text_eqb_eq in E. rewrite E. reflexivity.
    + apply text_eqb_neq in E. destruct (clean_address x) as [| c t] eqn:Ea; [reflexivity |].
      rewrite clean_address_tidy, is_missing_text by (assumption || discriminate).
      cbn [str]. rewrite <- Ea, clean_address_tidy.
      destruct (is_missing x); [reflexivity |]. apply tidy_idem.
  - intros Hs. apply text_eqb_neq. intros E.
    apply (clean_address_not_nan x Hs). rewrite E. reflexivity.
Qed.

(** ** Reconciling a reconciled table *)

Lemma dict_get_column_renames (k v : text) :
  dict_get column_renames k = Some v -> In v required_columns.
Proof.
  unfold column_renames. cbn [dict_get].
  repeat (destruct (text_eqb _ k);
          [intros H; injection H as <-; vm_compute; tauto |]).
  discriminate.
Qed.

Lemma normal_label (c : text) : strip (lower (strip (lower c))) = strip (lower c).
Proof. rewrite <- strip_lower, lower_idem, strip_lower, <- strip_lower. apply strip_idem. Qed.

Lemma renamed_label_fixed (c : text) :
  rename column_renames (strip (lower (rename column_renames (strip (lower c)))))
  = rename column_renames (strip (lower c)).
Proof.
  unfold rename at 2 3. destruct (dict_get column_renames (strip (lower c))) as [v |] eqn:E.
  - apply dict_get_column_renames in E. cbn in E.
    destruct E as [<- | [<- | [<- | [<- | []]]]]; vm_compute; reflexivity.
  - rewrite normal_label. unfold rename. rewrite E. reflexivity.
Qed.

Lemma reconciled_header_fixed (df : DataFrame) (cols : list text) :
  reconciled_header (with_columns df (reconciled_header df ++ cols))
  = reconciled_header df ++ map (fun c => rename column_renames (strip (lower c))) cols.
Proof.
  unfold reconciled_header. cbn [columns with_columns].
  rewrite map_app, map_map. f_equal. apply map_ext. intros c. apply renamed_label_fixed.
Qed.

Lemma reconcile_fixed (df : DataFrame) :
  reconciled_header df = columns df -> absent (columns df) = [] ->
  reconcile df = ret df.
Proof.
  intros Hh Ha. unfold reconcile. cbv zeta. cbn [columns with_columns].
  rewrite map_map. fold (reconciled_header df). rewrite Hh.
  fold (absent (columns df)). rewrite Ha. cbn [nonempty].
  destruct df. reflexivity.
Qed.

(** X13.  Reconciling a table the reconciler returned changes nothing: it
    returns the same table, whatever the first table was. *)
Theorem reconcile_twice (df df' : DataFrame) :
  result (reconcile df) = Return df' -> reconcile df' = ret df'.
Proof.
  intros H. pose proof (reconcile_returns_required _ _ H) as Ha.
  apply reconcile_fixed; [| exact Ha]. clear Ha.
  rewrite reconcile_result in H. cbv zeta in H.
  destruct (mem "name" _ && _ && _).
  - destruct (result (full_name _)) as [full |]; [| discriminate].
    destruct (nonempty (absent _)); [discriminate |]. injection H as <-.
    pose proof (reconciled_header_fixed df [("name" : text)]) as E.
    unfold reconciled_header in *. unfold setitem_new, with_columns in *.
    cbn [columns] in *. exact E.
  - destruct (nonempty (absent _)); [discriminate |]. injection H as <-.
    pose proof (reconciled_header_fixed df []) as E. rewrite !app_nil_r in E.
    exact E.
Qed.

Lemma reconcile_twice_witness :
  reconcile (with_columns contacts (reconciled_header contacts))
  = ret (with_columns contacts (reconciled_header contacts)).
Proof.
  apply (reconcile_twice contacts). vm_compute. reflexivity.
Defined.

(** ** The rows of the output among the rows of the input *)


Lemma subsequence_trans {A} (l1 l2 l3 : list A) :
  subsequence l1 l2 -> subsequence l2 l3 -> subsequence l1 l3.
Proof.
  intros H12 H23. revert l1 H12.
  induction H23 as [| x l2 l3 H IH | x l2 l3 H IH]; intros l1 H12.
  - exact H12.
  - inversion H12; subst; constructor; auto.
  - constructor. auto.
Qed.

Lemma subsequence_filter {A} (p : A -> bool) (l : list A) : subsequence (filter p l) l.
Proof.
  induction l as [| x l IH]; [constructor |]. cbn [filter].
  destruct (p x); constructor; exact IH.
Qed.

Lemma subsequence_first_occurrences (seen : list cell) (l : list Row) :
  subsequence (first_occurrences seen l) l.
Proof.
  revert seen. induction l as [| r l IH]; intros seen; [constructor |].
  cbn [first_occurrences]. destruct (existsb _ seen); constructor; apply IH.
Qed.

Lemma subsequence_chain_rows (l : list Row) : subsequence (chain_rows l) l.
Proof.
  unfold chain_rows, email_stage_rows.
  eapply subsequence_trans; [apply subsequence_first_occurrences |].
  eapply subsequence_trans; [apply subsequence_filter |].
  eapply subsequence_trans; apply subsequence_filter.
Qed.

Lemma subsequence_map {A B} (f : A -> B) (l1 l2 : list A) :
  subsequence l1 l2 -> subsequence (map f l1) (map f l2).
Proof. induction 1; cbn [map]; constructor; assumption. Qed.

Lemma subsequence_length {A} (l1 l2 : list A) :
  subsequence l1 l2 -> List.length l1 <= List.length l2.
Proof. induction 1; cbn [List.length]; lia. Qed.

Lemma subsequence_all {A} (l1 l2 : list A) :
  subsequence l1 l2 -> List.length l1 = List.length l2 -> l1 = l2.
Proof.
  induction 1 as [| x l1 l2 H IH | x l1 l2 H IH]; cbn [List.length]; intros E.
  - reflexivity.
  - f_equal. apply IH. lia.
  - apply subsequence_length in H. lia.
Qed.

Lemma cleaned_rows (fr : Frame) :
  rows (clean_fields (stripped fr)) = map (cleaned_row fr) (rows fr).
Proof.
  unfold clean_fields, stripped. cbn [rows with_rows]. rewrite map_map. reflexivity.
Qed.



(** ** Notes and removed rows *)

Lemma note_if_nil (n : nat) (note : nat -> text) : note_if n note = [] <-> n = 0.
Proof.
  unfold note_if. destruct (n =? 0) eqn:E.
  - apply Nat.eqb_eq in E. tauto.
  - apply Nat.eqb_neq in E. split; [discriminate | tauto].
Qed.

Lemma removed_zero (before after : list Row) :
  subsequence after before -> removed before after = 0 <-> after = before.
Proof.
  intros H. unfold removed. pose proof (subsequence_length _ _ H). split.
  - intros E. apply subsequence_all; [exact H | lia].
  - intros ->. lia.
Qed.

Lemma chain_notes_nil (rs : list Row) : chain_notes rs = [] <-> chain_rows rs = rs.
Proof.
  unfold chain_notes, chain_rows. cbv zeta.
  set (r1 := email_stage_rows rs). set (r2 := filter (filled "name") r1).
  set (r3 := filter (filled "address") r2). set (r4 := first_occurrences [] r3).
  assert (H1 : subsequence r1 rs) by apply subsequence_filter.
  assert (H2 : subsequence r2 r1) by apply subsequence_filter.
  assert (H3 : subsequence r3 r2) by apply subsequence_filter.
  assert (H4 : subsequence r4 r3) by apply subsequence_first_occurrences.
  split.
  - intros E. apply app_eq_nil in E. destruct E as [E1 E].
    apply app_eq_nil in E. destruct E as [E2 E].
    apply app_eq_nil in E. destruct E as [E3 E4].
    apply note_if_nil, removed_zero in E1, E2, E3, E4; try assumption. congruence.
  - intros E.
    pose proof (subsequence_length _ _ H1). pose proof (subsequence_length _ _ H2).
    pose proof (subsequence_length _ _ H3). pose proof (subsequence_length _ _ H4).
    assert (L : List.length r4 = List.length rs) by (rewrite E; reflexivity).
    assert (E4 : r4 = r3) by (apply subsequence_all; [assumption | lia]).
    assert (E3 : r3 = r2) by (apply subsequence_all; [assumption | lia]).
    assert (E2 : r2 = r1) by (apply subsequence_all; [assumption | lia]).
    assert (E1 : r1 = rs) by (apply subsequence_all; [assumption | lia]).
    rewrite E4, E3, E2, E1. unfold removed, note_if. rewrite Nat.sub_diag. reflexivity.
Qed.

(** X15.  On a table with rows the filter chain appends a note exactly
    when it removes a row: the list of notes comes back unchanged if and
    only if the rows do. *)
Theorem notes_iff_rows_removed (debug_mode : bool) (df_cleaned : Frame)
    (errors : list text) :
  labels df_cleaned = required_columns ->
  rows df_cleaned <> [] ->
  exists kept errors',
    result (filter_chain debug_mode df_cleaned errors) = Return (kept, errors')
    /\ (errors' = errors <-> rows kept = rows df_cleaned).
Proof.
  intros Hlabels Hrows. rewrite filter_chain_result, Hlabels.
  change (mem "name" required_columns) with true.
  change (mem "address" required_columns) with true.
  destruct (rows df_cleaned) as [| r rs] eqn:Hr; [contradiction |]. rewrite <- Hr.
  assert (Hne : nonempty (rows df_cleaned) = true) by (rewrite Hr; reflexivity).
  rewrite Hne. eexists. eexists. split; [reflexivity |].
  cbn [rows with_rows]. rewrite <- chain_notes_nil. split.
  - intros E. apply (app_inv_head errors). rewrite app_nil_r. exact E.
  - intros ->. apply app_nil_r.
Qed.

Lemma notes_iff_rows_removed_witness :
  exists kept errors',
    result (filter_chain false directory_cleaned []) = Return (kept, errors')
    /\ (errors' = [] <-> rows kept = rows directory_cleaned).
Proof.
  apply (notes_iff_rows_removed false directory_cleaned []).
  - reflexivity.
  - discriminate.
Defined.

(** ** Emails that differ by case only *)

Lemma numeral_lower_not_at (c : ascii) : numeral c -> lower_char c <> "@"%char.
Proof.
  intros [H | ->]; [| vm_compute; discriminate].
  destruct c as [[] [] [] [] [] [] [] []]; vm_compute in H; try discriminate H;
    vm_compute; discriminate.
Qed.

Lemma number_is_no_email (z : Z) : valid_email (Int z) = false.
Proof.
  destruct (valid_email (Int z)) eqn:E; [| reflexivity]. exfalso.
  apply valid_email_spec in E. destruct E as [_ [E _]].
  apply re_match_spec in E. destruct E as (p & tail & E & Hm & _).
  apply email_pattern_matches in Hm. destruct Hm as (l & d & t & -> & _).
  assert (Hin : In "@"%char (strip (lower (str (Int z))))).
  { rewrite E, email_text_assoc. apply in_or_app. right. left. reflexivity. }
  apply strip_In in Hin. unfold lower in Hin. apply in_map_iff in Hin.
  destruct Hin as [c [Hc Hin]].
  pose proof (numeral_int z) as Hn. rewrite Forall_forall in Hn.
  exact (numeral_lower_not_at c (Hn c Hin) Hc).
Qed.

Lemma valid_lowered (y : cell) :
  valid_email (lower_unless_nan y) = true ->
  exists e, lower_unless_nan y = Str e /\ lower e = e.
Proof.
  destruct y as [| s | z]; cbn [lower_unless_nan].
  - vm_compute. discriminate.
  - destruct (text_eqb s "nan") eqn:E.
    + apply text_eqb_eq in E. subst s. vm_compute. discriminate.
    + intros _. exists (lower s). split; [reflexivity | apply lower_idem].
  - rewrite number_is_no_email. discriminate.
Qed.

(** X16.  No two rows of the table a run returns hold the same email up to
    the case of its letters. *)
Theorem output_emails_differ_beyond_case (w : World) (input_file : text)
    (output_file : option text) (log_errors debug_mode email_only : bool) (out : Frame) :
  result (clean_data w input_file output_file log_errors debug_mode email_only)
  = Return out ->
  NoDup (map (fun r => lower (str (email r))) (rows out)).
Proof.
  intros H. apply clean_data_returns in H.
  destruct H as [df [df' [_ [_ [_ [_ ->]]]]]].
  apply (NoDup_map_inv Str). rewrite map_map.
  rewrite (map_ext_in _ email).
  - unfold cleaned_table. cbn [rows with_rows]. unfold chain_rows.
    apply first_occurrences_NoDup.
  - intros r Hin. apply cleaned_table_rows in Hin.
    destruct Hin as [r0 [_ [_ [He [_ [_ [Hv _]]]]]]].
    rewrite He in *. apply valid_lowered in Hv. destruct Hv as [e [-> Hl]].
    cbn [str]. rewrite Hl. reflexivity.
Qed.

Lemma output_emails_differ_beyond_case_witness :
  NoDup (map (fun r => lower (str (email r))) (rows contacts_output)).
Proof.
  apply (output_emails_differ_beyond_case (world_of contacts) "contacts.csv" None
           true false true).
  vm_compute. reflexivity.
Defined.

(** ** The writer, whatever the table *)

Lemma reaches_save_contacts (w : World) (debug_mode : bool) :
  path_exists w "contacts.csv" = true ->
  read_csv w "contacts.csv" = Return contacts ->
  reaches_save w "contacts.csv" debug_mode contacts_output 5.
Proof.
  intros Hex Hread. split; [exact Hex |].
  exists contacts, (with_columns contacts (reconciled_header contacts)).
  split; [exact Hread |]. split; [vm_compute; reflexivity |].
  split; [| repeat split; vm_compute; reflexivity].
  rewrite (diagnostic_of_positions
             (with_columns contacts (reconciled_header contacts)) eq_refl).
  apply andb_false_r.
Defined.

Lemma run_from_save (w : World) (input_file : text) (output_file : option text)
    (log_errors debug_mode email_only : bool) (table : Frame) (original : nat) :
  reaches_save w input_file debug_mode table original ->
  original <> 0 ->
  let saving := save w (bound_timestamp w output_file)
                  (output_path w input_file output_file) table in
  let run := clean_data w input_file output_file log_errors debug_mode email_only in
  result run
  = match result saving with
    | Raise e => Raise (raised w log_errors e)
    | Return _ => Return table
    end
  /\ effects run
     = effects saving
       ++ match result saving with
          | Return _ => []
          | Raise e => log_line w log_errors input_file e
          end.
Proof.
  intros [Hex (df & df' & Hread & Hrec & Hdiag & Huniq & -> & ->)] Hlen. cbv zeta.
  apply Nat.eqb_neq in Hlen.
  rewrite effects_clean_data, clean_data_result, Hex. cbv zeta.
  rewrite process_result, effects_process, Hread, Hrec, Hdiag, Huniq, Hlen. cbv zeta.
  destruct (result (save _ _ _ _)) as [[] | e]; split; reflexivity.
Qed.

Lemma save_written (w : World) (timestamp : option text) (path : text) (fr : Frame) :
  to_csv w path = None ->
  save w timestamp path fr = ([WriteCsv path fr; Print (Saved path)], Return tt).
Proof. intros H. unfold save, write. rewrite H. reflexivity. Qed.

Lemma save_refused (w : World) (timestamp : option text) (path : text) (fr : Frame)
    (e : exn) :
  to_csv w path = Some e -> e <> PermissionError ->
  save w timestamp path fr = ([WriteDenied path e], Raise e).
Proof.
  intros H He. unfold save, write. rewrite H.
  destruct e; try reflexivity. contradiction.
Qed.

(** X17.  With no output file given, a write the system refuses for want of
    permission is followed by one write to email_only_data_<timestamp>.csv;
    when that one succeeds and the input had a data row, the run returns
    its table as if nothing had happened, and logs nothing. *)
Theorem default_output_falls_back (w : World) (input_file : text)
    (output_file : option text) (log_errors debug_mode email_only : bool)
    (table : Frame) (original : nat) :
  reaches_save w input_file debug_mode table original ->
  original <> 0 ->
  not_given output_file = true ->
  to_csv w (output_path w input_file output_file) = Some PermissionError ->
  to_csv w (fallback_path (now w)) = None ->
  result (clean_data w input_file output_file log_errors debug_mode email_only)
  = Return table
  /\ effects (clean_data w input_file output_file log_errors debug_mode email_only)
     = [ WriteDenied (output_path w input_file output_file) PermissionError;
         WriteCsv (fallback_path (now w)) table ].
Proof.
  intros Hreach Hn Hng Hfirst Hsecond.
  destruct (run_from_save w input_file output_file log_errors debug_mode email_only
              _ _ Hreach Hn) as [Hr He].
  cbv zeta in Hr, He. unfold bound_timestamp in Hr, He. rewrite Hng in Hr, He.
  rewrite (save_bound_timestamp _ _ _ _ Hfirst), Hsecond in Hr, He.
  split; [exact Hr |]. rewrite He. reflexivity.
Qed.

Lemma default_output_falls_back_witness :
  result (clean_data (locked_world contacts) "contacts.csv" None true false true)
  = Return contacts_output
  /\ effects (clean_data (locked_world contacts) "contacts.csv" None true false true)
     = [ WriteDenied (output_path (locked_world contacts) "contacts.csv" None)
           PermissionError;
         WriteCsv (fallback_path (now (locked_world contacts))) contacts_output ].
Proof.
  apply (default_output_falls_back (locked_world contacts) "contacts.csv" None
           true false true contacts_output 5).
  - apply reaches_save_contacts; reflexivity.
  - discriminate.
  - reflexivity.
  - reflexivity.
  - reflexivity.
Defined.

(** X18.  With an output file given, a write refused for want of permission
    makes the handler of line 179 raise UnboundLocalError for [timestamp]:
    the given path is the only one tried, whatever the table.  The error
    reaches the caller, after the line of the log, unless the log was to be
    written and cannot be opened: then the refusal of the log reaches the
    caller and nothing is appended. *)
Theorem explicit_output_has_no_fallback (w : World) (input_file : text)
    (output_file : option text) (log_errors debug_mode email_only : bool)
    (table : Frame) (original : nat) :
  reaches_save w input_file debug_mode table original ->
  original <> 0 ->
  not_given output_file = false ->
  to_csv w (given output_file) = Some PermissionError ->
  result (clean_data w input_file output_file log_errors debug_mode email_only)
  = Raise (match append_log w with
           | Some refusal => if log_errors then refusal else UnboundLocalError "timestamp"
           | None => UnboundLocalError "timestamp"
           end)
  /\ effects (clean_data w input_file output_file log_errors debug_mode email_only)
     = WriteDenied (given output_file) PermissionError
       :: match append_log w with
          | Some _ => []
          | None => if log_errors
                    then [AppendLog input_file (UnboundLocalError "timestamp")] else []
          end.
Proof.
  intros Hreach Hn Hg Hfirst.
  destruct (run_from_save w input_file output_file log_errors debug_mode email_only
              _ _ Hreach Hn) as [Hr He].
  cbv zeta in Hr, He. unfold bound_timestamp, output_path in Hr, He. rewrite Hg in Hr, He.
  rewrite (save_unbound_timestamp _ _ _ Hfirst) in Hr, He.
  cbn [result snd] in Hr, He. unfold raised in Hr. unfold log_line in He.
  rewrite Hr, He. destruct log_errors, (append_log w); split; reflexivity.
Qed.

Lemma explicit_output_has_no_fallback_witness :
  result (clean_data (unwritable_world contacts) "contacts.csv"
            (Some ("out.csv" : text)) true false true)
  = Raise PermissionError
  /\ effects (clean_data (unwritable_world contacts) "contacts.csv"
                (Some ("out.csv" : text)) true false true)
     = [ WriteDenied "out.csv" PermissionError ].
Proof.
  apply (explicit_output_has_no_fallback (unwritable_world contacts) "contacts.csv"
           (Some ("out.csv" : text)) true false true contacts_output 5).
  - apply reaches_save_contacts; reflexivity.
  - discriminate.
  - reflexivity.
  - reflexivity.
Defined.

(** X19.  A write that fails for another reason than permission is not
    retried: after the one failed write the error reaches the caller, with
    its line in the log, unless the log was to be written and cannot be
    opened: then the refusal of the log reaches the caller and nothing is
    appended. *)
Theorem other_write_errors_are_not_retried (w : World) (input_file : text)
    (output_file : option text) (log_errors debug_mode email_only : bool)
    (table : Frame) (original : nat) (e : exn) :
  reaches_save w input_file debug_mode table original ->
  original <> 0 ->
  to_csv w (output_path w input_file output_file) = Some e ->
  e <> PermissionError ->
  result (clean_data w input_file output_file log_errors debug_mode email_only)
  = Raise (match append_log w with
           | Some refusal => if log_errors then refusal else e
           | None => e
           end)
  /\ effects (clean_data w input_file output_file log_errors debug_mode email_only)
     = WriteDenied (output_path w input_file output_file) e
       :: match append_log w with
          | Some _ => []
          | None => if log_errors then [AppendLog input_file e] else []
          end.
Proof.
  intros Hreach Hn Hfirst Hne.
  destruct (run_from_save w input_file output_file log_errors debug_mode email_only
              _ _ Hreach Hn) as [Hr He].
  cbv zeta in Hr, He. rewrite (save_refused _ _ _ _ _ Hfirst Hne) in Hr, He.
  cbn [result snd] in Hr, He. unfold raised in Hr. unfold log_line in He.
  rewrite Hr, He. destruct log_errors, (append_log w); split; reflexivity.
Qed.

Lemma other_write_errors_are_not_retried_witness :
  result (clean_data (full_disk_world contacts) "contacts.csv" None true false true)
  = Raise OSError
  /\ effects (clean_data (full_disk_world contacts) "contacts.csv" None true false true)
     = [ WriteDenied (output_path (full_disk_world contacts) "contacts.csv" None) OSError;
         AppendLog "contacts.csv" OSError ].
Proof.
  apply (other_write_errors_are_not_retried (full_disk_world contacts) "contacts.csv"
           None true false true contacts_output 5 OSError).
  - apply reaches_save_contacts; reflexivity.
  - discriminate.
  - reflexivity.
  - discriminate.
Defined.

Lemma exn_eq_permission (e : exn) : e = PermissionError \/ e <> PermissionError.
Proof. destruct e; (left; reflexivity) || (right; discriminate). Qed.

Lemma returns_reaches_save (w : World) (input_file : text) (output_file : option text)
    (log_errors debug_mode email_only : bool) (out : Frame) :
  result (clean_data w input_file output_file log_errors debug_mode email_only)
  = Return out ->
  exists original, reaches_save w input_file debug_mode out original /\ original <> 0.
Proof.
  intros H. pose proof H as H'. rewrite clean_data_result in H'.
  destruct (path_exists w input_file) eqn:Hex; [| discriminate].
  apply clean_data_returns in H.
  destruct H as (df & df' & Hread & Hrec & Huniq & Hlen & ->).
  rewrite process_result, Hread, Hrec in H'.
  destruct (debug_mode && diagnostic_fails _) eqn:Hdiag; [discriminate |].
  exists (len df'). split; [| exact Hlen]. split; [exact Hex |].
  exists df, df'. repeat split; assumption.
Qed.

(** X20.  A run that returns has written one file and no more: the table it
    returns, under the output path or, after a refusal of that path in a
    run without a given output file, under the fallback path.  It has
    appended nothing to the log. *)
Theorem returned_table_is_the_written_one (w : World) (input_file : text)
    (output_file : option text) (log_errors debug_mode email_only : bool) (out : Frame) :
  result (clean_data w input_file output_file log_errors debug_mode email_only)
  = Return out ->
  effects (clean_data w input_file output_file log_errors debug_mode email_only)
  = [ WriteCsv (output_path w input_file output_file) out ]
  \/ (not_given output_file = true
      /\ effects (clean_data w input_file output_file log_errors debug_mode email_only)
         = [ WriteDenied (output_path w input_file output_file) PermissionError;
             WriteCsv (fallback_path (now w)) out ]).
Proof.
  intros H. destruct (returns_reaches_save _ _ _ _ _ _ _ H) as [n [Hreach Hn]].
  destruct (run_from_save w input_file output_file log_errors debug_mode email_only
              _ _ Hreach Hn) as [Hr He].
  cbv zeta in Hr, He. rewrite He. rewrite H in Hr. clear He H.
  destruct (to_csv w (output_path w input_file output_file)) as [e |] eqn:Hfirst.
  - destruct (exn_eq_permission e) as [-> | Hne].
    + unfold bound_timestamp in *. destruct (not_given output_file) eqn:Hg.
      * rewrite (save_bound_timestamp _ _ _ _ Hfirst) in *.
        destruct (to_csv w (fallback_path (now w))); [discriminate |].
        right. split; reflexivity.
      * rewrite (save_unbound_timestamp _ _ _ Hfirst) in Hr. discriminate.
    + rewrite (save_refused _ _ _ _ _ Hfirst Hne) in Hr. discriminate.
  - left. rewrite (save_written _ _ _ _ Hfirst). reflexivity.
Qed.

Lemma returned_table_is_the_written_one_witness :
  effects (clean_data (world_of contacts) "contacts.csv" None true false true)
  = [ WriteCsv (output_path (world_of contacts) "contacts.csv" None) contacts_output ]
  \/ (not_given None = true
      /\ effects (clean_data (world_of contacts) "contacts.csv" None true false true)
         = [ WriteDenied (output_path (world_of contacts) "contacts.csv" None)
               PermissionError;
             WriteCsv (fallback_path (now (world_of contacts))) contacts_output ]).
Proof.
  apply (returned_table_is_the_written_one (world_of contacts) "contacts.csv" None
           true false true).
  vm_compute. reflexivity.
Defined.

(** ** The error log *)

(** X21.  [log_errors] reaches neither the returned table nor the files
    written.  The run with it differs from the run without it only where
    the latter fails inside the [try] block: then the line is appended to
    the log and the same exception reaches the caller, or, where the log
    cannot be opened, nothing is appended and the refusal of the log reaches
    the caller in place of the exception. *)
Theorem log_errors_only_adds_the_log_line (w : World) (input_file : text)
    (output_file : option text) (debug_mode email_only : bool) :
  let logged := clean_data w input_file output_file true debug_mode email_only in
  let unlogged := clean_data w input_file output_file false debug_mode email_only in
  result logged
  = match result unlogged with
    | Return table => Return table
    | Raise e =>
        Raise (if path_exists w input_file
               then match append_log w with
                    | Some refusal => refusal
                    | None => e
                    end
               else e)
    end
  /\ effects logged
     = effects unlogged
       ++ match result unlogged with
          | Return _ => []
          | Raise e =>
              if path_exists w input_file
              then match append_log w with
                   | None => [AppendLog input_file e]
                   | Some _ => []
                   end
              else []
          end.
Proof.
  cbv zeta. rewrite !clean_data_result, !effects_clean_data.
  destruct (path_exists w input_file); [| split; reflexivity].
  cbv zeta. rewrite !process_result, !effects_process.
  unfold raised, log_line.
  match goal with |- context [match ?r with Return _ => [] | Raise _ => _ end] =>
    destruct r end; rewrite ?app_nil_r; split; reflexivity.
Qed.

(** ** Failures before the writer *)

(** X22.  A run touches a file, to write it or to be refused, only after
    the input was found, read and reconciled with each required label on
    one column: a failure before that leaves no file behind. *)
Theorem no_write_before_the_table_is_ready (w : World) (input_file : text)
    (output_file : option text) (log_errors debug_mode email_only : bool) :
  existsb is_write
    (effects (clean_data w input_file output_file log_errors debug_mode email_only))
  = true ->
  exists table original, reaches_save w input_file debug_mode table original.
Proof.
  rewrite effects_clean_data.
  destruct (path_exists w input_file) eqn:Hex; [| discriminate].
  cbv zeta. rewrite existsb_app, effects_process.
  assert (Hlog : forall r : outcome Frame,
    existsb is_write
      match r with
      | Return _ => []
      | Raise e => log_line w log_errors input_file e
      end = false).
  { intros [a | e]; [reflexivity |]. unfold log_line.
    destruct log_errors, (append_log w); reflexivity. }
  rewrite Hlog, orb_false_r.
  destruct (read_csv w input_file) as [df |] eqn:Hread; [| discriminate].
  destruct (result (reconcile df)) as [df' |] eqn:Hrec; [| discriminate].
  destruct (debug_mode && diagnostic_fails _) eqn:Hdiag; [discriminate |].
  destruct (unique_labels (select_required df')) eqn:Huniq; [| discriminate].
  intros _. exists (cleaned_table (stripped (select_required df'))), (len df').
  split; [exact Hex |]. exists df, df'. repeat split; assumption.
Qed.

Lemma no_write_before_the_table_is_ready_witness :
  exists table original,
    reaches_save (world_of contacts) "contacts.csv" false table original.
Proof.
  apply (no_write_before_the_table_is_ready (world_of contacts) "contacts.csv" None
           true false true).
  vm_compute. reflexivity.
Defined.

Lemma count_selected (c : text) (cols : list text) :
  In c required_columns ->
  count_label c (flat_map (fun col => filter (text_eqb col) cols) required_columns)
  = count_label c cols.
Proof.
  intros Hc. unfold required_columns. cbn [flat_map]. rewrite app_nil_r.
  rewrite !filter_label_repeat, !count_label_app, !count_label_repeat.
  destruct Hc as [<- | [<- | [<- | [<- | []]]]];
    repeat match goal with
    | |- context [text_eqb ?a ?b] =>
        let v := eval vm_compute in (text_eqb a b) in
        change (text_eqb a b) with v
    end; cbv iota; lia.
Qed.

(** X23.  When two columns of the file end up under the same required
    label, as a header [Email] beside a header [E-Mail] does, the run fails
    with AttributeError at the strip of line 85 and writes no file.  Only
    two things come before that error: the diagnostic of [debug_mode], where
    it meets a row label that is text, and, for the caller, the refusal of
    a log that was to be written and cannot be opened. *)
Theorem shared_label_fails (w : World) (input_file : text)
    (output_file : option text) (log_errors debug_mode email_only : bool)
    (df df' : DataFrame) (c : text) :
  path_exists w input_file = true ->
  read_csv w input_file = Return df ->
  result (reconcile df) = Return df' ->
  In c required_columns ->
  2 <= count_label c (columns df') ->
  let e := if debug_mode && diagnostic_fails (select_required df')
           then TypeError else AttributeError in
  result (clean_data w input_file output_file log_errors debug_mode email_only)
  = Raise (match append_log w with
           | Some refusal => if log_errors then refusal else e
           | None => e
           end)
  /\ effects (clean_data w input_file output_file log_errors debug_mode email_only)
     = match append_log w with
       | Some _ => []
       | None => if log_errors then [AppendLog input_file e] else []
       end.
Proof.
  intros Hex Hread Hrec Hc Hcount.
  assert (Huniq : unique_labels (select_required df') = false).
  { destruct (unique_labels (select_required df')) eqn:E; [| reflexivity]. exfalso.
    unfold unique_labels in E. rewrite forallb_forall in E.
    specialize (E c). unfold select_required in E. cbn [labels] in E.
    rewrite (count_selected c _ Hc) in E.
    assert (Hin : In c (flat_map (fun col => filter (text_eqb col) (columns df'))
                          required_columns)).
    { apply in_flat_map. exists c. split; [exact Hc |].
      rewrite filter_label_repeat.
      destruct (count_label c (columns df')); [lia | left; reflexivity]. }
    apply E in Hin. apply Nat.eqb_eq in Hin. lia. }
  cbv zeta. rewrite effects_clean_data, clean_data_result, Hex. cbv zeta.
  rewrite process_result, effects_process, Hread, Hrec, Huniq.
  unfold raised, log_line.
  destruct (debug_mode && diagnostic_fails _), log_errors, (append_log w);
    split; reflexivity.
Qed.

Lemma shared_label_fails_witness :
  result (clean_data (world_of two_email_columns) "two.csv" None true false true)
  = Raise AttributeError
  /\ effects (clean_data (world_of two_email_columns) "two.csv" None true false true)
     = [AppendLog "two.csv" AttributeError].
Proof.
  apply (shared_label_fails (world_of two_email_columns) "two.csv" None true false true
           two_email_columns
           (with_columns two_email_columns (reconciled_header two_email_columns))
           "email").
  - reflexivity.
  - reflexivity.
  - vm_compute. reflexivity.
  - vm_compute. tauto.
  - vm_compute. lia.
Defined.

(** ** The console of a run without [debug_mode] *)

Lemma silent_ret {A} (a : A) : silent (ret a).
Proof. reflexivity. Qed.

Lemma silent_raise {A} (e : exn) : silent (@raise A e).
Proof. reflexivity. Qed.

Lemma silent_bind {A B} (m : M A) (k : A -> M B) :
  silent m -> (forall a, silent (k a)) -> silent (bind m k).
Proof.
  unfold silent. intros Hm Hk. rewrite console_bind, Hm.
  destruct (result m); [apply Hk | reflexivity].
Qed.

Lemma silent_apply_each {A B} (f : A -> M B) (l : list A) :
  (forall x, silent (f x)) -> silent (apply_each f l).
Proof.
  intros H. induction l as [| x t IH]; cbn [apply_each].
  - apply silent_ret.
  - apply silent_bind; [apply H | intros y].
    apply silent_bind; [exact IH | intros ys; apply silent_ret].
Qed.

Ltac silent_steps :=
  repeat first
    [ apply silent_ret | apply silent_raise
    | apply silent_apply_each; intros
    | apply silent_bind; [| intros] ].

Lemma silent_add_cells (x y : cell) : silent (add_cells x y).
Proof. destruct x, y; reflexivity. Qed.

Lemma silent_getitem (df : DataFrame) (label : text) : silent (getitem df label).
Proof.
  unfold getitem. destruct (positions label (columns df)) as [| j [| j' l]]; reflexivity.
Qed.

Lemma silent_full_name (df : DataFrame) : silent (full_name df).
Proof.
  unfold full_name.
  apply silent_bind; [apply silent_getitem | intros first].
  apply silent_bind.
  { unfold add_scalar. destruct (dtype_eqb (dtype_of first) object); [| apply silent_raise].
    apply silent_bind; [| intros; apply silent_ret].
    apply silent_apply_each. intros x. apply silent_add_cells. }
  intros spaced. apply silent_bind; [apply silent_getitem | intros last].
  unfold add_series. apply silent_bind; [| intros; apply silent_ret].
  apply silent_apply_each. intros xy. apply silent_add_cells.
Qed.

Lemma silent_reconcile (df : DataFrame) : silent (reconcile df).
Proof.
  unfold reconcile. cbv zeta.
  match goal with |- silent (if ?b then _ else _) => destruct b end; [| apply silent_ret].
  apply silent_bind.
  - match goal with |- silent (if ?b then _ else _) => destruct b end; [| apply silent_ret].
    apply silent_bind; [apply silent_full_name | intros; apply silent_ret].
  - intros st. destruct (nonempty (snd st)); [apply silent_raise | apply silent_ret].
Qed.

Lemma silent_is_valid_email (x : cell) : silent (is_valid_email false x).
Proof.
  unfold is_valid_email. destruct (is_missing x); [apply silent_ret |].
  destruct (existsb _ disallowed_terms); [apply silent_ret |].
  cbn [andb when]. silent_steps.
Qed.

Lemma silent_drop_empty (col : text) (st : Frame * list text) :
  silent (drop_empty false col st).
Proof.
  destruct st as [fr errors]. unfold drop_empty, column_of. cbv zeta.
  apply silent_bind.
  - destruct (mem col (labels fr)); [apply silent_ret | apply silent_raise].
  - intros _. apply silent_bind; [| intros; apply silent_ret].
    match goal with |- silent (if ?b then _ else _) => destruct b end;
      cbn [when]; silent_steps.
Qed.

Lemma silent_clean_and_filter (fr : Frame) (errors : list text) :
  silent (clean_and_filter false fr errors).
Proof.
  unfold clean_and_filter. apply silent_bind.
  { unfold strip_strings. destruct (unique_labels fr); silent_steps. }
  intros fr'. unfold filter_chain. apply silent_bind.
  { unfold filter_emails. cbv zeta. cbn [andb when]. apply silent_bind.
    - apply silent_apply_each. intros x. apply silent_is_valid_email.
    - intros mask. silent_steps. }
  intros st1. apply silent_bind; [apply silent_drop_empty |].
  intros st2. apply silent_bind; [apply silent_drop_empty |].
  intros [fr3 e3]. unfold drop_duplicates.
  match goal with |- silent (if ?b then _ else _) => destruct b end;
    cbn [when]; silent_steps.
Qed.

Lemma console_for_each_print {A} (l : list A) (f : A -> message) :
  console (for_each l (fun x => print (f x))) = map (fun x => Print (f x)) l.
Proof.
  induction l as [| x t IH]; [reflexivity |]. cbn [for_each map].
  rewrite console_bind, result_print, IH. reflexivity.
Qed.

Lemma console_summary (log_errors : bool) (original cleaned : nat) (notes : list text) :
  original <> 0 ->
  console (summary log_errors original cleaned notes)
  = [ Print SummaryHeader; Print (SummaryCounts original cleaned);
      Print (SummaryRemoved (original - cleaned) original) ]
    ++ printed_notes log_errors notes.
Proof.
  intros H. apply Nat.eqb_neq in H. unfold summary, printed_notes. rewrite H.
  do 3 rewrite console_bind, result_print.
  cbn [console print tell fst app]. do 3 f_equal.
  destruct (nonempty notes && log_errors); [| reflexivity].
  cbn [when]. rewrite console_bind, result_print, console_for_each_print. reflexivity.
Qed.

Lemma try_except_return {A} (m : M A) (handler : exn -> M A) (a : A) :
  result m = Return a -> try_except m handler = m.
Proof. destruct m as [out [b | e]]; [reflexivity | discriminate]. Qed.

Lemma apply_each_length {A B} (f : A -> M B) (l : list A) (ys : list B) :
  result (apply_each f l) = Return ys -> List.length ys = List.length l.
Proof.
  intros H. apply result_apply_each_inv in H. symmetry. exact (Forall2_length H).
Qed.

Lemma getitem_length (df : DataFrame) (label : text) (s : Series) :
  result (getitem df label) = Return s -> List.length (values s) = len df.
Proof.
  unfold getitem. destruct (positions label (columns df)) as [| j [| j' l]];
    [discriminate | | discriminate].
  intros H. injection H as <-. unfold column_at, len. cbn [values]. apply length_map.
Qed.

Lemma full_name_length (df : DataFrame) (full : Series) :
  result (full_name df) = Return full -> List.length (values full) = len df.
Proof.
  unfold full_name. rewrite result_bind.
  destruct (result (getitem df "first_name")) as [first |] eqn:H1; [| discriminate].
  rewrite result_bind.
  destruct (result (add_scalar first " ")) as [spaced |] eqn:H2; [| discriminate].
  rewrite result_bind.
  destruct (result (getitem df "last_name")) as [last |] eqn:H3; [| discriminate].
  unfold add_series. rewrite result_bind.
  destruct (result (apply_each _ _)) as [vs |] eqn:H4; [| discriminate].
  intros H. injection H as <-. cbn [values].
  apply apply_each_length in H4. rewrite H4, length_combine.
  apply getitem_length in H1, H3. rewrite H3.
  unfold add_scalar in H2. destruct (dtype_eqb (dtype_of first) object); [| discriminate].
  rewrite result_bind in H2.
  destruct (result (apply_each _ (values first))) as [ws |] eqn:H5; [| discriminate].
  injection H2 as <-. cbn [values]. apply apply_each_length in H5. lia.
Qed.

(** The reconciler keeps the data rows. *)
Lemma reconcile_len (df df' : DataFrame) :
  result (reconcile df) = Return df' -> len df' = len df.
Proof.
  rewrite reconcile_result. cbv zeta.
  destruct (mem "name" _ && _ && _).
  - destruct (result (full_name _)) as [full |] eqn:Hfull; [| discriminate].
    destruct (nonempty (absent _)); [discriminate |].
    intros H. injection H as <-. apply full_name_length in Hfull.
    unfold len, setitem_new, with_columns in *. cbn [data] in *.
    rewrite length_map, length_combine. lia.
  - destruct (nonempty (absent _)); [discriminate |].
    intros H. injection H as <-. reflexivity.
Qed.

Lemma reconcile_index (df df' : DataFrame) :
  result (reconcile df) = Return df' -> index df' = index df.
Proof.
  rewrite reconcile_result. cbv zeta.
  destruct (mem "name" _ && _ && _).
  - destruct (result (full_name _)) as [full |]; [| discriminate].
    destruct (nonempty (absent _)); [discriminate |].
    intros H. injection H as <-. reflexivity.
  - destruct (nonempty (absent _)); [discriminate |].
    intros H. injection H as <-. reflexivity.
Qed.


(** ** The rows of the output and their labels *)

Lemma selected_idx (df : DataFrame) :
  map idx (rows (select_required df)) = map (row_label df) (seq 0 (len df)).
Proof.
  unfold select_required, len. cbn [rows]. rewrite map_map. cbn [idx].
  generalize 0. induction (data df) as [| r l IH]; intros k; [reflexivity |].
  cbn [List.length seq combine map fst]. f_equal. apply IH.
Qed.

(** X14.  Of a typed table of 7-bit text, the rows a run returns are rows
    of the table, cleaned, in their order and under the labels [read_csv]
    gave them: no row is added, moved or relabelled. *)
Theorem output_rows_are_cleaned_input_rows (w : World) (input_file : text)
    (output_file : option text) (log_errors debug_mode email_only : bool)
    (df : DataFrame) (out : Frame) :
  read_csv w input_file = Return df ->
  table_typed df ->
  seven_bit_table df ->
  result (clean_data w input_file output_file log_errors debug_mode email_only)
  = Return out ->
  exists df',
    result (reconcile df) = Return df'
    /\ subsequence (rows out)
         (map (cleaned_row (select_required df')) (rows (select_required df')))
    /\ subsequence (map idx (rows out)) (map (row_label df) (seq 0 (len df))).
Proof.
  intros Hread _ _ H. apply clean_data_returns in H.
  destruct H as [df0 [df' [Hcsv [Hrec [_ [_ ->]]]]]].
  rewrite Hread in Hcsv. injection Hcsv as <-.
  assert (Hsub : subsequence (rows (cleaned_table (stripped (select_required df'))))
                   (map (cleaned_row (select_required df'))
                      (rows (select_required df')))).
  { unfold cleaned_table. cbn [rows with_rows]. rewrite cleaned_rows.
    apply subsequence_chain_rows. }
  exists df'. split; [exact Hrec | split; [exact Hsub |]].
  apply (subsequence_map idx) in Hsub. rewrite map_map in Hsub. cbn [idx cleaned_row] in Hsub.
  rewrite selected_idx, (reconcile_len _ _ Hrec) in Hsub.
  assert (E : map (row_label df') (seq 0 (len df)) = map (row_label df) (seq 0 (len df))).
  { apply map_ext. intros i. unfold row_label.
    rewrite (reconcile_index _ _ Hrec). reflexivity. }
  rewrite <- E. exact Hsub.
Qed.

Lemma output_rows_are_cleaned_input_rows_witness :
  exists df',
    result (reconcile directory) = Return df'
    /\ subsequence (rows directory_output)
         (map (cleaned_row (select_required df')) (rows (select_required df')))
    /\ subsequence (map idx (rows directory_output))
         (map (row_label directory) (seq 0 (len directory))).
Proof.
  apply (output_rows_are_cleaned_input_rows (world_of directory) "directory.csv" None
           true false true directory directory_output).
  - reflexivity.
  - exact directory_typed.
  - exact directory_seven_bit.
  - vm_compute. reflexivity.
Defined.

Lemma console_process_quiet (w : World) (input_file : text) (timestamp : option text)
    (output_file : text) (log_errors email_only : bool) (df df' : DataFrame) :
  read_csv w input_file = Return df ->
  result (reconcile df) = Return df' ->
  unique_labels (select_required df') = true ->
  len df' <> 0 ->
  let fr := select_required df' in
  let table := cleaned_table (stripped fr) in
  console (process w input_file timestamp output_file log_errors false email_only)
  = Print (Loaded (len df) input_file) :: Print (ColumnsFound (columns df))
    :: console (save w timestamp output_file table)
    ++ match result (save w timestamp output_file table) with
       | Return _ =>
           console (summary log_errors (len df') (List.length (rows table))
                      (chain_notes (rows (clean_fields (stripped fr)))))
       | Raise _ => []
       end.
Proof.
  intros Hread Hrec Huniq Hlen. cbv zeta. unfold process. rewrite Hread. cbn [when].
  rewrite console_bind. cbn [console result ret fst snd app].
  rewrite console_bind, result_print. cbn [console print tell fst app]. f_equal.
  rewrite console_bind, result_print. cbn [console print tell fst app]. f_equal.
  rewrite console_bind, silent_reconcile, Hrec. cbn [app].
  rewrite console_bind. cbn [console result ret fst snd app].
  rewrite console_bind, silent_clean_and_filter, clean_and_filter_result, Huniq.
  pose proof (reconcile_returns_required _ _ Hrec) as Ha.
  rewrite selected_rows_nonempty.
  assert (Hname : mem "name" (labels (select_required df')) = true).
  { apply selected_mem; [| apply mem_not_absent; [| exact Ha]]; cbn; tauto. }
  assert (Haddress : mem "address" (labels (select_required df')) = true).
  { apply selected_mem; [| apply mem_not_absent; [| exact Ha]]; cbn; tauto. }
  apply Nat.eqb_neq in Hlen. rewrite Hname, Haddress, Hlen. cbn [negb andb].
  cbn [app]. rewrite console_bind. cbn [console result ret fst snd app].
  rewrite console_bind. f_equal.
  destruct (result (save w timestamp output_file _)) as [[] | e]; [| reflexivity].
  rewrite console_bind. cbn [app].
  destruct (result (summary _ _ _ _)); cbn [console ret fst]; apply app_nil_r.
Qed.

(** X24.  Without [debug_mode], a run that returns has printed, in this
    order: the number of rows loaded and the header found; the file saved;
    the three lines of the summary, with the rows read, the rows kept and
    their difference; and, when [log_errors] is set and the chain left
    notes, a header and the notes of the chain, each on its own line.  The
    rows kept are never more than the rows read. *)
Theorem console_of_a_run_without_debug (w : World) (input_file : text)
    (output_file : option text) (log_errors email_only : bool) (out : Frame) :
  result (clean_data w input_file output_file log_errors false email_only)
  = Return out ->
  exists df df' saved,
    read_csv w input_file = Return df
    /\ result (reconcile df) = Return df'
    /\ (saved = [ WriteCsv (output_path w input_file output_file) out;
                  Print (Saved (output_path w input_file output_file)) ]
        \/ saved = [ WriteDenied (output_path w input_file output_file) PermissionError;
                     WriteCsv (fallback_path (now w)) out;
                     Print (SavedInstead (fallback_path (now w))) ])
    /\ List.length (rows out) <= len df
    /\ console (clean_data w input_file output_file log_errors false email_only)
       = [ Print (Loaded (len df) input_file); Print (ColumnsFound (columns df)) ]
         ++ saved
         ++ [ Print SummaryHeader;
              Print (SummaryCounts (len df) (List.length (rows out)));
              Print (SummaryRemoved (len df - List.length (rows out)) (len df)) ]
         ++ printed_notes log_errors
              (chain_notes (map (cleaned_row (select_required df'))
                              (rows (select_required df')))).
Proof.
  intros H. pose proof H as Hres. rewrite clean_data_result in Hres.
  destruct (path_exists w input_file) eqn:Hex; [| discriminate].
  pose proof (clean_data_returns _ _ _ _ _ _ _ H)
    as (df & df' & Hread & Hrec & Huniq & Hlen & Hout).
  pose proof (reconcile_len _ _ Hrec) as Hl.
  assert (Hle : List.length (rows out) <= len df).
  { rewrite <- Hl, Hout. unfold cleaned_table. cbn [rows with_rows].
    etransitivity; [apply subsequence_length, subsequence_chain_rows |].
    rewrite cleaned_rows, length_map. unfold select_required, len. cbn [rows].
    rewrite length_map, length_combine, length_seq. lia. }
  assert (Hconsole :
    console (clean_data w input_file output_file log_errors false email_only)
    = console (process w input_file (bound_timestamp w output_file)
                 (output_path w input_file output_file) log_errors false email_only)).
  { unfold clean_data. cbv zeta. rewrite Hex. cbn [negb].
    apply (f_equal fst), (try_except_return _ _ out).
    destruct (result (process _ _ _ _ _ _ _)); [exact Hres | discriminate]. }
  rewrite Hconsole, (console_process_quiet _ _ _ _ _ _ df df' Hread Hrec Huniq Hlen).
  cbv zeta. rewrite <- Hout, cleaned_rows, Hl.
  rewrite process_result, Hread, Hrec, Huniq in Hres. cbv zeta in Hres.
  cbn [andb] in Hres. apply Nat.eqb_neq in Hlen. rewrite Hlen in Hres.
  apply Nat.eqb_neq in Hlen.
  rewrite <- Hout in Hres.
  assert (Hsaved : exists saved,
    save w (bound_timestamp w output_file) (output_path w input_file output_file) out
    = (saved, Return tt)
    /\ (saved = [ WriteCsv (output_path w input_file output_file) out;
                  Print (Saved (output_path w input_file output_file)) ]
        \/ saved = [ WriteDenied (output_path w input_file output_file) PermissionError;
                     WriteCsv (fallback_path (now w)) out;
                     Print (SavedInstead (fallback_path (now w))) ])).
  { destruct (to_csv w (output_path w input_file output_file)) as [e |] eqn:Hfirst.
    - destruct (exn_eq_permission e) as [-> | Hne].
      + unfold bound_timestamp in *. destruct (not_given output_file).
        * rewrite (save_bound_timestamp _ _ _ _ Hfirst) in *.
          destruct (to_csv w (fallback_path (now w))); [discriminate |].
          eexists. split; [reflexivity | right; reflexivity].
        * rewrite (save_unbound_timestamp _ _ _ Hfirst) in Hres. discriminate.
      + rewrite (save_refused _ _ _ _ _ Hfirst Hne) in Hres. discriminate.
    - rewrite (save_written _ _ _ _ Hfirst).
      eexists. split; [reflexivity | left; reflexivity]. }
  destruct Hsaved as [saved [Hsave Hshape]].
  exists df, df', saved. rewrite Hsave. cbn [console result fst snd].
  rewrite console_summary by (rewrite <- Hl; exact Hlen).
  repeat split; try assumption.
Qed.

Lemma console_of_a_run_without_debug_witness :
  exists df df' saved,
    read_csv (world_of contacts) "contacts.csv" = Return df
    /\ result (reconcile df) = Return df'
    /\ (saved = [ WriteCsv (output_path (world_of contacts) "contacts.csv" None)
                    contacts_output;
                  Print (Saved (output_path (world_of contacts) "contacts.csv" None)) ]
        \/ saved = [ WriteDenied (output_path (world_of contacts) "contacts.csv" None)
                       PermissionError;
                     WriteCsv (fallback_path (now (world_of contacts))) contacts_output;
                     Print (SavedInstead (fallback_path (now (world_of contacts)))) ])
    /\ List.length (rows contacts_output) <= len df
    /\ console (clean_data (world_of contacts) "contacts.csv" None true false true)
       = [ Print (Loaded (len df) "contacts.csv"); Print (ColumnsFound (columns df)) ]
         ++ saved
         ++ [ Print SummaryHeader;
              Print (SummaryCounts (len df) (List.length (rows contacts_output)));
              Print (SummaryRemoved (len df - List.length (rows contacts_output))
                       (len df)) ]
         ++ printed_notes true
              (chain_notes (map (cleaned_row (select_required df'))
                              (rows (select_required df')))).
Proof.
  apply (console_of_a_run_without_debug (world_of contacts) "contacts.csv" None
           true true).
  vm_compute. reflexivity.
Defined.

(** ** What [debug_mode] adds to the console *)
















(** C8, at the failing input: the rows of the file carry text labels.
    Without [debug_mode] the run returns the two contacts and writes them,
    with either value of [email_only]; with it, line 80 adds one to the
    label of the first row, which raises TypeError before any row is
    filtered, and the run returns no table and writes no file. *)
Theorem debug_mode_fails_on_text_labels :
  (forall email_only,
     result (clean_data (world_of labelled_contacts) "labelled.csv" None
               true false email_only)
     = Return
         {| labels := required_columns;
            name_dtype := object; email_dtype := object;
            phone_dtype := int64; address_dtype := object;
            rows := [ {| idx := Str "r1"; name := Str "Ana Cruz";
                         email := Str "ana@x.com"; phone := Int 5;
                         address := Str "Cebu" |};
                      {| idx := Str "r2"; name := Str "Ben Diaz";
                         email := Str "ben@x.com"; phone := Int 6;
                         address := Str "Cebu" |} ] |})
  /\ (forall email_only,
        result (clean_data (world_of labelled_contacts) "labelled.csv" None
                  true true email_only)
        = Raise TypeError
        /\ effects (clean_data (world_of labelled_contacts) "labelled.csv" None
                      true true email_only)
           = [ AppendLog "labelled.csv" TypeError ]).
Proof.
  split; intros [|]; repeat split; vm_compute; reflexivity.
Qed.

(** ** An email column without text *)

Lemma filter_none {A} (p : A -> bool) (l : list A) :
  (forall x, In x l -> p x = false) -> filter p l = [].
Proof.
  induction l as [| x l IH]; intros H; [reflexivity |]. cbn [filter].
  rewrite (H x (or_introl eq_refl)). apply IH. intros y Hy. apply H. right. exact Hy.
Qed.

Lemma textless_is_no_email (d : dtype) (x : cell) :
  (forall s, x <> Str s) -> valid_email (lower_unless_nan (strip_column d x)) = false.
Proof.
  intros Hx. destruct x as [| s | z]; [| destruct (Hx s eq_refl) |].
  - unfold strip_column. destruct (dtype_eqb d object); vm_compute; reflexivity.
  - unfold strip_column. destruct (dtype_eqb d object);
      [| cbn [lower_unless_nan]; apply number_is_no_email].
    unfold astype_str_strip. cbn [lower_unless_nan].
    destruct (text_eqb (strip (str (Int z))) "nan") eqn:E.
    + apply text_eqb_eq in E. rewrite E. vm_compute. reflexivity.
    + destruct (valid_email _) eqn:V; [| reflexivity]. exfalso.
      apply valid_email_spec in V. destruct V as [_ [V _]].
      apply re_match_spec in V. destruct V as (p & tail & V & Hm & _).
      apply email_pattern_matches in Hm. destruct Hm as (l & d0 & t & -> & _).
      change (str (Str (lower (strip (str (Int z))))))
        with (lower (strip (str (Int z)))) in V.
      assert (Hin : In "@"%char (strip (lower (lower (strip (str (Int z))))))).
      { rewrite V, email_text_assoc. apply in_or_app. right. left. reflexivity. }
      apply strip_In in Hin. rewrite lower_idem in Hin.
      unfold lower in Hin. apply in_map_iff in Hin. destruct Hin as [c [Hc Hin]].
      apply strip_In in Hin.
      pose proof (numeral_int z) as Hn. rewrite Forall_forall in Hn.
      exact (numeral_lower_not_at c (Hn c Hin) Hc).
Qed.

(** X26.  When no cell of the email column is text, as in a column that is
    empty or numeric in the file, the email filter removes every row of a
    table that has rows: the chain returns a table without rows and the one
    note that counts them all. *)
Theorem textless_email_column_keeps_no_row (debug_mode : bool) (fr : Frame)
    (errors : list text) :
  labels fr = required_columns ->
  rows fr <> [] ->
  (forall r s, In r (rows fr) -> email r <> Str s) ->
  result (clean_and_filter debug_mode fr errors)
  = Return (with_rows (clean_fields (stripped fr)) [],
            errors ++ [note_invalid_email (List.length (rows fr))]).
Proof.
  intros Hlabels Hrows Hemail. rewrite clean_and_filter_result.
  unfold unique_labels. rewrite Hlabels.
  change (forallb _ required_columns) with true.
  change (mem "name" required_columns) with true.
  change (mem "address" required_columns) with true. cbv iota.
  assert (Hne : nonempty (rows fr) = true).
  { destruct (rows fr); [contradiction | reflexivity]. }
  rewrite Hne. cbn [andb].
  assert (E : email_stage_rows (rows (clean_fields (stripped fr))) = []).
  { apply filter_none. intros r Hin. rewrite cleaned_rows in Hin.
    apply in_map_iff in Hin. destruct Hin as [r0 [<- Hin]]. cbn [cleaned_row email].
    apply textless_is_no_email. intros s. exact (Hemail r0 s Hin). }
  unfold cleaned_table, chain_rows, chain_notes. cbv zeta. rewrite E.
  cbn [filter first_occurrences]. unfold removed. cbn [List.length].
  rewrite Nat.sub_0_r, cleaned_rows, length_map. cbn [note_if Nat.eqb Nat.sub app].
  rewrite app_nil_r. unfold note_if.
  destruct (rows fr) as [| r rs]; [contradiction | reflexivity].
Qed.

Lemma textless_email_column_keeps_no_row_witness :
  result (clean_and_filter false (select_required no_emails) [])
  = Return (with_rows (clean_fields (stripped (select_required no_emails))) [],
            [] ++ [note_invalid_email (List.length (rows (select_required no_emails)))]).
Proof.
  apply (textless_email_column_keeps_no_row false (select_required no_emails) []).
  - reflexivity.
  - discriminate.
  - intros r s H. vm_compute in H.
    repeat (destruct H as [<- | H]); [.. | destruct H]; discriminate.
Defined.

(** ** The script *)

Lemma touched_save (w : World) (path : text) (table : Frame) (ev : event) (p : text) :
  In ev (console (save w None path table)) -> touched ev = Some p -> p = path.
Proof.
  destruct (to_csv w path) as [e |] eqn:Hfirst.
  - destruct (exn_eq_permission e) as [-> | Hne].
    + rewrite (save_unbound_timestamp _ _ _ Hfirst). cbn [console fst In].
      intros [<- | []] H. injection H as <-. reflexivity.
    + rewrite (save_refused _ _ _ _ _ Hfirst Hne). cbn [console fst In].
      intros [<- | []] H. injection H as <-. reflexivity.
  - rewrite (save_written _ _ _ _ Hfirst). cbn [console fst In].
    intros [<- | [<- | []]] H; [| discriminate]. injection H as <-. reflexivity.
Qed.

Lemma touched_is_effect {A} (m : M A) (ev : event) (p : text) :
  In ev (console m) -> touched ev = Some p -> In ev (effects m).
Proof.
  intros Hin H. unfold effects. apply filter_In. split; [exact Hin |].
  destruct ev; try reflexivity. discriminate.
Qed.

Lemma touched_given (w : World) (input_file path : text)
    (log_errors debug_mode email_only : bool) (ev : event) (p : text) :
  path <> [] ->
  In ev (console (clean_data w input_file (Some path) log_errors debug_mode email_only)) ->
  touched ev = Some p ->
  p = path
  \/ (p = error_log
      /\ exists e,
           result (clean_data w input_file (Some path) log_errors debug_mode email_only)
           = Raise e).
Proof.
  intros Hpath Hin Hp. pose proof (touched_is_effect _ _ _ Hin Hp) as He.
  rewrite effects_clean_data in He.
  destruct (path_exists w input_file) eqn:Hex; [| destruct He]. cbv zeta in He.
  apply in_app_or in He. destruct He as [He | He].
  - left. rewrite effects_process in He.
    destruct (read_csv w input_file) as [df |]; [| destruct He].
    destruct (result (reconcile df)) as [df' |]; [| destruct He].
    destruct (debug_mode && diagnostic_fails (select_required df')); [destruct He |].
    destruct (unique_labels (select_required df')); [| destruct He].
    destruct (len df' =? 0); [destruct He |].
    unfold bound_timestamp, output_path, not_given in He.
    destruct path as [| c path]; [contradiction |]. cbn [nonempty negb given] in He.
    unfold effects in He. apply filter_In in He. destruct He as [He _].
    exact (touched_save _ _ _ _ _ He Hp).
  - right. rewrite clean_data_result, Hex.
    destruct (result (process _ _ _ _ _ _ _)) as [table | e]; [destruct He |].
    unfold log_line in He. destruct log_errors; [| destruct He].
    destruct (append_log w); [destruct He |]. destruct He as [<- | []].
    injection Hp as <-. split; [reflexivity |]. eexists. reflexivity.
Qed.

(** X27.  Whatever the files, the script writes to no file but
    Manufacturing_Mandaue_032_cleaned.csv and, in a run that fails, the log
    data_cleaning_errors.log; when its input file is missing it prints one
    line, the failure, and nothing else. *)
Theorem script_touches_its_output_and_the_log (w : World) :
  (forall ev p, In (FromRun ev) (main w) -> touched ev = Some p ->
     p = output_csv \/ (p = error_log /\ exists e, In (FailedToClean e) (main w)))
  /\ (path_exists w input_csv = false ->
      main w = [FailedToClean (FileNotFoundError input_csv)]).
Proof.
  split.
  - intros ev p Hin Hp. unfold main in Hin. cbv zeta in Hin.
    apply in_app_or in Hin. destruct Hin as [Hin | Hin].
    + apply in_map_iff in Hin. destruct Hin as [ev' [E Hin]]. injection E as ->.
      destruct (touched_given w input_csv output_csv true true true ev p)
        as [H | [H [e He]]]; [discriminate | exact Hin | exact Hp | left; exact H |].
      right. split; [exact H |]. exists e. unfold main. cbv zeta.
      apply in_or_app. right. rewrite He. left. reflexivity.
    + destruct (result _); [destruct Hin |]. destruct Hin as [E | []]. discriminate.
  - intros H. unfold main, clean_data. cbv zeta. rewrite H. reflexivity.
Qed.

(** ** The scenarios of the specification *)

(** A list of one contact whose email holds a disallowed term. *)
Example disallowed_email_is_dropped :
  let df := {| columns := [ "name" : text; "email" : text; "phone" : text;
                            "address" : text ];
               dtypes := [ object; object; object; object ];
               index := [];
               data := [ [ Str " joe smith "; Str "JOE@TEST.COM"; Str "1";
                           Str "1 Main St" ] ] |} in
  result (clean_and_filter false (select_required df) [])
  = Return (with_rows (clean_fields (stripped (select_required df))) [],
            [ "Removed 1 rows with invalid/missing email" : text ]).
Proof. vm_compute. reflexivity. Qed.

(** Two contacts whose emails differ by case only: the second is a
    duplicate of the first. *)
Example same_email_in_another_case_is_a_duplicate :
  let df := {| columns := [ "name" : text; "email" : text; "phone" : text;
                            "address" : text ];
               dtypes := [ object; object; object; object ];
               index := [];
               data := [ [ Str "jane doe"; Str "jane@x.com"; Str "1"; Str "Cebu" ];
                         [ Str "Jane Doe"; Str "JANE@X.COM"; Str "2"; Str "Cebu" ] ] |} in
  result (clean_and_filter false (select_required df) [])
  = Return ({| labels := required_columns;
               name_dtype := object; email_dtype := object;
               phone_dtype := object; address_dtype := object;
               rows := [ {| idx := Int 0; name := Str "Jane Doe"; email := Str "jane@x.com";
                            phone := Str "1"; address := Str "Cebu" |} ] |},
            [ "Removed 1 duplicate email entries" : text ]).
Proof. vm_compute. reflexivity. Qed.
